(** * Model3DViewer: the region store, label projection and occlusion gating

    A shallow embedding of the region-annotation core of the viewer class
    [Model3DViewer] (lib/model3d-viewer.ts): the saved-region store with its
    save / update / delete / import / export operations, the point lookup
    [findRegionAtPoint], the label projector [getLabelPositions] and the
    throttling gate of [runOcclusionQueries].

    Conventions.
    - A JavaScript number is an IEEE-754 binary64 value: Rocq's primitive
      [float], with its comparisons ([<?], [<=?], [=?]) behaving as [<], [<=]
      and [===] do on numbers (every comparison with NaN is false).
    - A JavaScript string is its sequence of UTF-16 code units.
    - The viewer object is an explicit record [Model3DViewer]; every method is a
      function from the record to a result and the record after the call.
    - An [async] method is modelled as one atomic step: the frame loop and the
      host UI call into the viewer from a single thread.
    - What the browser and three.js decide (random UUIDs, ray casts against the
      loaded mesh, decal geometry construction, GPU query answers, the camera
      projection) is read from explicit oracles: [Host], [GpuFrame] and
      [PerspectiveCamera]. *)

From Stdlib Require Import Floats Ascii NArith.
From stdpp Require Import gmap list strings.

Set Warnings "-register-all,-inexact-float,-clear-no-such-hyp".

(** ** JavaScript strings *)

(** A string as its UTF-16 code units. *)
Abbreviation jsstring := (list N).

(** The code units of an ASCII literal. *)
Definition js (s : string) : jsstring :=
  (fun a => N_of_ascii a) <$> String.list_ascii_of_string s.

(** ECMAScript WhiteSpace and LineTerminator code points, the characters
    [String.prototype.trim] strips. *)
Definition isWhiteSpace (c : N) : bool :=
  bool_decide (c ∈ [0x9; 0xA; 0xB; 0xC; 0xD; 0x20; 0xA0; 0x1680;
                    0x2000; 0x2001; 0x2002; 0x2003; 0x2004; 0x2005; 0x2006;
                    0x2007; 0x2008; 0x2009; 0x200A;
                    0x2028; 0x2029; 0x202F; 0x205F; 0x3000; 0xFEFF]%N).

Fixpoint trimStart (s : jsstring) : jsstring :=
  match s with
  | c :: rest => if isWhiteSpace c then trimStart rest else s
  | [] => []
  end.

Definition trimEnd (s : jsstring) : jsstring := reverse (trimStart (reverse s)).

(** [String.prototype.trim]. *)
Definition trim (s : jsstring) : jsstring := trimEnd (trimStart s).

(** ** Numbers and vectors *)

(** [THREE.Vector3], with the three methods the store uses. *)
Module V3.
Record Vector3 := mk { x : float; y : float; z : float }.

Definition sub (a b : Vector3) : Vector3 :=
  mk (x a - x b)%float (y a - y b)%float (z a - z b)%float.

Definition length (v : Vector3) : float :=
  PrimFloat.sqrt (x v * x v + y v * y v + z v * z v)%float.
End V3.
Abbreviation Vector3 := V3.Vector3.

(** ** Enumerations *)

Inductive ShapeType := Cube | Sphere | NoneShape.
Inductive Severity := High | Medium | Low.
Inductive DecalTextureId := DecalNone | Heavy | Moderate | Light.

Global Instance ShapeType_eq_dec : EqDecision ShapeType.
Proof. solve_decision. Defined.
Global Instance Severity_eq_dec : EqDecision Severity.
Proof. solve_decision. Defined.
Global Instance DecalTextureId_eq_dec : EqDecision DecalTextureId.
Proof. solve_decision. Defined.

Definition shapeName (t : ShapeType) : jsstring :=
  match t with Cube => js "cube" | Sphere => js "sphere" | NoneShape => js "none" end.

Definition severityName (s : Severity) : jsstring :=
  match s with High => js "high" | Medium => js "medium" | Low => js "low" end.

Definition SEVERITY_COLORS (s : Severity) : jsstring :=
  match s with High => js "#e53935" | Medium => js "#ff9800" | Low => js "#43a047" end.

(** Opaque collaborators' payloads (dictionary-parser.ts, image-storage.ts). *)
Record DefectEntry := {
  de_category : jsstring; de_id : jsstring; de_defect : jsstring;
  de_majorDefectCategory : jsstring; de_description : jsstring;
  de_visualPatterns : jsstring }.

Record EvidenceItem := {
  ev_id : jsstring; ev_storageId : jsstring; ev_name : jsstring;
  ev_mimeType : jsstring; ev_addedAt : jsstring }.

(** ** Untyped values

    [importRegions] receives parsed JSON and inspects it with [typeof],
    truthiness and [Array.prototype.includes]; the fields it inspects are
    modelled as untyped values. *)
Inductive JSValue :=
| JSUndefined
| JSNull
| JSBool (b : bool)
| JSNumber (n : float)
| JSString (s : jsstring)
| JSObject (props : list (jsstring * JSValue))
| JSArray (items : list JSValue).

Inductive JSType := TUndefined | TObject | TBoolean | TNumber | TString.

Global Instance JSType_eq_dec : EqDecision JSType.
Proof. solve_decision. Defined.

Definition typeof (v : JSValue) : JSType :=
  match v with
  | JSUndefined => TUndefined
  | JSNull | JSObject _ | JSArray _ => TObject
  | JSBool _ => TBoolean
  | JSNumber _ => TNumber
  | JSString _ => TString
  end.

(** ToBoolean. *)
Definition truthy (v : JSValue) : bool :=
  match v with
  | JSUndefined | JSNull => false
  | JSBool b => b
  | JSNumber n => negb (n =? 0)%float && (n =? n)%float
  | JSString s => negb (bool_decide (s = []))
  | JSObject _ | JSArray _ => true
  end.

(** [v.k] for a [v] that is neither [undefined] nor [null]; none of the keys
    the viewer reads is a built-in property of a primitive or of an array. *)
Fixpoint lookupProp (props : list (jsstring * JSValue)) (k : jsstring) : JSValue :=
  match props with
  | [] => JSUndefined
  | (k', v) :: rest => if bool_decide (k' = k) then v else lookupProp rest k
  end.

Definition getProp (v : JSValue) (k : jsstring) : JSValue :=
  match v with
  | JSObject props => lookupProp props k
  | _ => JSUndefined
  end.

(** [v !== n] for a number literal [n]. *)
Definition strictNeNumber (v : JSValue) (n : float) : bool :=
  match v with
  | JSNumber m => negb (m =? n)%float
  | _ => true
  end.

(** [v <= n] for a [v] whose [typeof] is ["number"]. *)
Definition leNumber (v : JSValue) (n : float) : bool :=
  match v with
  | JSNumber m => (m <=? n)%float
  | _ => false
  end.

(** [names.includes(v)] for an array of string literals. *)
Definition includes (names : list jsstring) (v : JSValue) : bool :=
  match v with
  | JSString s => bool_decide (s ∈ names)
  | _ => false
  end.


(** ** Regions *)

(** Object identities handed out by the engine: decal meshes, meshes of the
    loaded model, GPU queries. *)
Abbreviation Mesh := nat.
Abbreviation Object3D := nat.
Abbreviation WebGLQuery := nat.

(** [interface SavedHighlightRegion]. *)
Module Region.
Record SavedHighlightRegion := mk {
  id : jsstring;
  position : Vector3;
  size : float;
  type : ShapeType;
  severity : Severity;
  label : jsstring;
  defectData : option DefectEntry;
  cameraPosition : option Vector3;
  cameraTarget : option Vector3;
  normal : option Vector3;
  decalTextureId : option DecalTextureId;
  decalMesh : option Mesh;
  notes : option jsstring;
  evidence : option (list EvidenceItem) }.

Definition set_label (v : jsstring) (r : SavedHighlightRegion) :=
  mk (id r) (position r) (size r) (type r) (severity r) v (defectData r)
     (cameraPosition r) (cameraTarget r) (normal r) (decalTextureId r) (decalMesh r) (notes r) (evidence r).

Definition set_severity (v : Severity) (r : SavedHighlightRegion) :=
  mk (id r) (position r) (size r) (type r) v (label r) (defectData r)
     (cameraPosition r) (cameraTarget r) (normal r) (decalTextureId r) (decalMesh r) (notes r) (evidence r).

Definition set_type (v : ShapeType) (r : SavedHighlightRegion) :=
  mk (id r) (position r) (size r) v (severity r) (label r) (defectData r)
     (cameraPosition r) (cameraTarget r) (normal r) (decalTextureId r) (decalMesh r) (notes r) (evidence r).

Definition set_size (v : float) (r : SavedHighlightRegion) :=
  mk (id r) (position r) v (type r) (severity r) (label r) (defectData r)
     (cameraPosition r) (cameraTarget r) (normal r) (decalTextureId r) (decalMesh r) (notes r) (evidence r).

Definition set_decalTextureId (v : option DecalTextureId) (r : SavedHighlightRegion) :=
  mk (id r) (position r) (size r) (type r) (severity r) (label r) (defectData r)
     (cameraPosition r) (cameraTarget r) (normal r) v (decalMesh r) (notes r) (evidence r).

Definition set_decalMesh (v : option Mesh) (r : SavedHighlightRegion) :=
  mk (id r) (position r) (size r) (type r) (severity r) (label r) (defectData r)
     (cameraPosition r) (cameraTarget r) (normal r) (decalTextureId r) v (notes r) (evidence r).

Definition set_defectData (v : option DefectEntry) (r : SavedHighlightRegion) :=
  mk (id r) (position r) (size r) (type r) (severity r) (label r) v
     (cameraPosition r) (cameraTarget r) (normal r) (decalTextureId r) (decalMesh r) (notes r) (evidence r).

Definition set_cameraPosition (v : option Vector3) (r : SavedHighlightRegion) :=
  mk (id r) (position r) (size r) (type r) (severity r) (label r) (defectData r) v (cameraTarget r) (normal r) (decalTextureId r) (decalMesh r) (notes r) (evidence r).

Definition set_cameraTarget (v : option Vector3) (r : SavedHighlightRegion) :=
  mk (id r) (position r) (size r) (type r) (severity r) (label r) (defectData r)
     (cameraPosition r) v (normal r) (decalTextureId r) (decalMesh r) (notes r) (evidence r).

Definition set_notes (v : option jsstring) (r : SavedHighlightRegion) :=
  mk (id r) (position r) (size r) (type r) (severity r) (label r) (defectData r)
     (cameraPosition r) (cameraTarget r) (normal r) (decalTextureId r) (decalMesh r) v (evidence r).

Definition set_evidence (v : option (list EvidenceItem)) (r : SavedHighlightRegion) :=
  mk (id r) (position r) (size r) (type r) (severity r) (label r) (defectData r)
     (cameraPosition r) (cameraTarget r) (normal r) (decalTextureId r) (decalMesh r) (notes r) v.
End Region.
Abbreviation SavedHighlightRegion := Region.SavedHighlightRegion.

(** [interface ExportedRegion], as [importRegions] meets it at run time: the
    fields it validates are untyped, the fields it copies unchecked are taken
    at their declared type. *)
Module Exported.
Record ExportedRegion := mk {
  id : JSValue;
  label : JSValue;
  severity : JSValue;
  type : JSValue;
  size : JSValue;
  position : JSValue;
  defectData : option DefectEntry;
  cameraPosition : option Vector3;
  cameraTarget : option Vector3;
  normal : option Vector3;
  decalTextureId : option DecalTextureId;
  notes : option jsstring;
  evidence : option (list EvidenceItem) }.
End Exported.
Abbreviation ExportedRegion := Exported.ExportedRegion.

(** [interface RegionsExportData]; [regions = None] stands for a value that is
    not an array. *)
Record RegionsExportData := {
  version : JSValue;
  exportedAt : jsstring;
  regions : option (list ExportedRegion) }.

(** [interface LabelPosition]. *)
Module Label.
Record LabelPosition := mk {
  id : jsstring;
  text : jsstring;
  x : float;
  y : float;
  visible : bool;
  color : jsstring;
  severity : Severity }.
End Label.
Abbreviation LabelPosition := Label.LabelPosition.

(** ** The viewer *)

(** The camera, as far as the label projector needs it: [project p] is
    [p.project(camera)], the point in normalized device coordinates. *)
Record PerspectiveCamera := { project : Vector3 -> Vector3 }.

Record Dims := { width : float; height : float }.

(** The fields of [class Model3DViewer] the region store, the label projector
    and the occlusion gate read or write. [scene] holds the decal meshes
    attached to the three.js scene, [disposed] the meshes whose geometry and
    material were released, [deletedQueries] the queries given back to the GPU;
    [uuidCount] and [objectCount] count the UUIDs drawn and objects created so
    far. *)
Record Model3DViewer := mkViewer {
  camera : option PerspectiveCamera;
  dims : Dims;
  highlightShape : option Vector3;
  shapeVisible : bool;
  shapeType : ShapeType;
  shapeBaseSize : float;
  shapeSizePercent : float;
  currentSeverity : Severity;
  savedRegions : list SavedHighlightRegion;
  hiddenRegionIds : gset jsstring;
  isCameraMoving : bool;
  smoothCameraMode : bool;
  occlusionFrameCounter : nat;
  needsLabelUpdate : bool;
  cachedLabelPositions : list LabelPosition;
  gl : bool;
  occlusionProgram : bool;
  occlusionQueries : gmap nat WebGLQuery;
  occlusionResults : gmap nat bool;
  scene : gset Mesh;
  disposed : gset Mesh;
  deletedQueries : gset WebGLQuery;
  uuidCount : nat;
  objectCount : nat }.

Definition set_savedRegions (v : list SavedHighlightRegion) (s : Model3DViewer) :=
  mkViewer (camera s) (dims s) (highlightShape s) (shapeVisible s) (shapeType s)
    (shapeBaseSize s) (shapeSizePercent s) (currentSeverity s) v
    (hiddenRegionIds s) (isCameraMoving s) (smoothCameraMode s)
    (occlusionFrameCounter s) (needsLabelUpdate s) (cachedLabelPositions s)
    (gl s) (occlusionProgram s) (occlusionQueries s) (occlusionResults s)
    (scene s) (disposed s) (deletedQueries s) (uuidCount s) (objectCount s).

Definition set_isCameraMoving (v : bool) (s : Model3DViewer) :=
  mkViewer (camera s) (dims s) (highlightShape s) (shapeVisible s) (shapeType s)
    (shapeBaseSize s) (shapeSizePercent s) (currentSeverity s) (savedRegions s)
    (hiddenRegionIds s) v (smoothCameraMode s)
    (occlusionFrameCounter s) (needsLabelUpdate s) (cachedLabelPositions s)
    (gl s) (occlusionProgram s) (occlusionQueries s) (occlusionResults s)
    (scene s) (disposed s) (deletedQueries s) (uuidCount s) (objectCount s).

Definition set_occlusionFrameCounter (v : nat) (s : Model3DViewer) :=
  mkViewer (camera s) (dims s) (highlightShape s) (shapeVisible s) (shapeType s)
    (shapeBaseSize s) (shapeSizePercent s) (currentSeverity s) (savedRegions s)
    (hiddenRegionIds s) (isCameraMoving s) (smoothCameraMode s)
    v (needsLabelUpdate s) (cachedLabelPositions s)
    (gl s) (occlusionProgram s) (occlusionQueries s) (occlusionResults s)
    (scene s) (disposed s) (deletedQueries s) (uuidCount s) (objectCount s).

Definition set_needsLabelUpdate (v : bool) (s : Model3DViewer) :=
  mkViewer (camera s) (dims s) (highlightShape s) (shapeVisible s) (shapeType s)
    (shapeBaseSize s) (shapeSizePercent s) (currentSeverity s) (savedRegions s)
    (hiddenRegionIds s) (isCameraMoving s) (smoothCameraMode s)
    (occlusionFrameCounter s) v (cachedLabelPositions s)
    (gl s) (occlusionProgram s) (occlusionQueries s) (occlusionResults s)
    (scene s) (disposed s) (deletedQueries s) (uuidCount s) (objectCount s).

Definition set_cachedLabelPositions (v : list LabelPosition) (s : Model3DViewer) :=
  mkViewer (camera s) (dims s) (highlightShape s) (shapeVisible s) (shapeType s)
    (shapeBaseSize s) (shapeSizePercent s) (currentSeverity s) (savedRegions s)
    (hiddenRegionIds s) (isCameraMoving s) (smoothCameraMode s)
    (occlusionFrameCounter s) (needsLabelUpdate s) v
    (gl s) (occlusionProgram s) (occlusionQueries s) (occlusionResults s)
    (scene s) (disposed s) (deletedQueries s) (uuidCount s) (objectCount s).

Definition set_occlusionQueries (v : gmap nat WebGLQuery) (s : Model3DViewer) :=
  mkViewer (camera s) (dims s) (highlightShape s) (shapeVisible s) (shapeType s)
    (shapeBaseSize s) (shapeSizePercent s) (currentSeverity s) (savedRegions s)
    (hiddenRegionIds s) (isCameraMoving s) (smoothCameraMode s)
    (occlusionFrameCounter s) (needsLabelUpdate s) (cachedLabelPositions s)
    (gl s) (occlusionProgram s) v (occlusionResults s)
    (scene s) (disposed s) (deletedQueries s) (uuidCount s) (objectCount s).

Definition set_occlusionResults (v : gmap nat bool) (s : Model3DViewer) :=
  mkViewer (camera s) (dims s) (highlightShape s) (shapeVisible s) (shapeType s)
    (shapeBaseSize s) (shapeSizePercent s) (currentSeverity s) (savedRegions s)
    (hiddenRegionIds s) (isCameraMoving s) (smoothCameraMode s)
    (occlusionFrameCounter s) (needsLabelUpdate s) (cachedLabelPositions s)
    (gl s) (occlusionProgram s) (occlusionQueries s) v
    (scene s) (disposed s) (deletedQueries s) (uuidCount s) (objectCount s).

Definition set_scene (v : gset Mesh) (s : Model3DViewer) :=
  mkViewer (camera s) (dims s) (highlightShape s) (shapeVisible s) (shapeType s)
    (shapeBaseSize s) (shapeSizePercent s) (currentSeverity s) (savedRegions s)
    (hiddenRegionIds s) (isCameraMoving s) (smoothCameraMode s)
    (occlusionFrameCounter s) (needsLabelUpdate s) (cachedLabelPositions s)
    (gl s) (occlusionProgram s) (occlusionQueries s) (occlusionResults s)
    v (disposed s) (deletedQueries s) (uuidCount s) (objectCount s).

Definition set_disposed (v : gset Mesh) (s : Model3DViewer) :=
  mkViewer (camera s) (dims s) (highlightShape s) (shapeVisible s) (shapeType s)
    (shapeBaseSize s) (shapeSizePercent s) (currentSeverity s) (savedRegions s)
    (hiddenRegionIds s) (isCameraMoving s) (smoothCameraMode s)
    (occlusionFrameCounter s) (needsLabelUpdate s) (cachedLabelPositions s)
    (gl s) (occlusionProgram s) (occlusionQueries s) (occlusionResults s)
    (scene s) v (deletedQueries s) (uuidCount s) (objectCount s).

Definition set_deletedQueries (v : gset WebGLQuery) (s : Model3DViewer) :=
  mkViewer (camera s) (dims s) (highlightShape s) (shapeVisible s) (shapeType s)
    (shapeBaseSize s) (shapeSizePercent s) (currentSeverity s) (savedRegions s)
    (hiddenRegionIds s) (isCameraMoving s) (smoothCameraMode s)
    (occlusionFrameCounter s) (needsLabelUpdate s) (cachedLabelPositions s)
    (gl s) (occlusionProgram s) (occlusionQueries s) (occlusionResults s)
    (scene s) (disposed s) v (uuidCount s) (objectCount s).

Definition set_uuidCount (v : nat) (s : Model3DViewer) :=
  mkViewer (camera s) (dims s) (highlightShape s) (shapeVisible s) (shapeType s)
    (shapeBaseSize s) (shapeSizePercent s) (currentSeverity s) (savedRegions s)
    (hiddenRegionIds s) (isCameraMoving s) (smoothCameraMode s)
    (occlusionFrameCounter s) (needsLabelUpdate s) (cachedLabelPositions s)
    (gl s) (occlusionProgram s) (occlusionQueries s) (occlusionResults s)
    (scene s) (disposed s) (deletedQueries s) v (objectCount s).

Definition set_objectCount (v : nat) (s : Model3DViewer) :=
  mkViewer (camera s) (dims s) (highlightShape s) (shapeVisible s) (shapeType s)
    (shapeBaseSize s) (shapeSizePercent s) (currentSeverity s) (savedRegions s)
    (hiddenRegionIds s) (isCameraMoving s) (smoothCameraMode s)
    (occlusionFrameCounter s) (needsLabelUpdate s) (cachedLabelPositions s)
    (gl s) (occlusionProgram s) (occlusionQueries s) (occlusionResults s)
    (scene s) (disposed s) (deletedQueries s) (uuidCount s) v.

(** What the browser and three.js decide for the viewer:
    - [randomUUID k] is the [k]-th value [crypto.randomUUID()] returns;
    - [findMeshAtPosition p] is the mesh of the loaded model hit by the ray from
      the camera through [p], if any (none while no model is loaded);
    - [decalBuilds p n s t o] tells whether the texture [t] loads, a mesh is
      found under [o] and [DecalGeometry] is built without an exception. *)
Record Host := {
  randomUUID : nat -> jsstring;
  findMeshAtPosition : Vector3 -> option Object3D;
  decalBuilds : Vector3 -> Vector3 -> float -> DecalTextureId -> Object3D -> bool }.

(** What [getRegions] hands to the UI for one region. *)
Module Info.
Record RegionInfo := mk {
  id : jsstring;
  label : jsstring;
  severity : Severity;
  type : ShapeType;
  size : float;
  defectData : option DefectEntry;
  decalTextureId : option DecalTextureId;
  notes : option jsstring;
  evidence : option (list EvidenceItem) }.
End Info.
Abbreviation RegionInfo := Info.RegionInfo.

(** [Partial<{...}>], the patch [updateRegion] takes: [None] is an absent (or
    [undefined]) field. *)
Module Updates.
Record RegionUpdates := mk {
  label : option jsstring;
  severity : option Severity;
  type : option ShapeType;
  size : option float;
  defectData : option DefectEntry;
  cameraPosition : option Vector3;
  cameraTarget : option Vector3;
  decalTextureId : option DecalTextureId;
  notes : option jsstring;
  evidence : option (list EvidenceItem) }.

Definition none : RegionUpdates :=
  mk None None None None None None None None None None.
End Updates.
Abbreviation RegionUpdates := Updates.RegionUpdates.

(** The errors [importRegions] throws. *)
Inductive ImportError :=
| UnsupportedVersion (v : JSValue)
| RegionsNotArray
| LabelRequired
| InvalidSeverity (v : JSValue)
| InvalidType (v : JSValue)
| InvalidSize
| InvalidPosition.

(** ** The region store *)

Section RegionStore.
Variable host : Host.

(** [generateId]: [crypto.randomUUID()]. *)
Definition generateId (s : Model3DViewer) : jsstring * Model3DViewer :=
  (randomUUID host (uuidCount s), set_uuidCount (S (uuidCount s)) s).

Definition getCurrentShapeSize (s : Model3DViewer) : float :=
  (shapeBaseSize s * (shapeSizePercent s / 100))%float.

(** [invalidateLabelPositions]; the [cachedVisibility] map it also clears is
    written nowhere else in the class and is left out of the record. *)
Definition invalidateLabelPositions (s : Model3DViewer) : Model3DViewer :=
  set_needsLabelUpdate true s.

(** [region.decalTextureId && region.decalTextureId !== "none"]. *)
Definition requestsDecal (t : option DecalTextureId) : option DecalTextureId :=
  match t with
  | Some DecalNone | None => None
  | Some t => Some t
  end.

Definition createDecalMesh (position normal : Vector3) (size : float)
    (textureId : DecalTextureId) (targetObject : Object3D) (s : Model3DViewer)
  : option Mesh * Model3DViewer :=
  match textureId with
  | DecalNone => (None, s)
  | _ =>
    if decalBuilds host position normal size textureId targetObject
    then (Some (objectCount s), set_objectCount (S (objectCount s)) s)
    else (None, s)
  end.

(** [scene.remove(m); m.geometry.dispose(); m.material.dispose()]. *)
Definition releaseDecal (m : Mesh) (s : Model3DViewer) : Model3DViewer :=
  set_disposed ({[m]} ∪ disposed s) (set_scene (scene s ∖ {[m]}) s).

(** [region.decalMesh = m; scene.add(m)] when a decal was built. *)
Definition attachDecal (built : option Mesh * Model3DViewer) (region : SavedHighlightRegion)
  : SavedHighlightRegion * Model3DViewer :=
  match built with
  | (Some m, s) => (Region.set_decalMesh (Some m) region, set_scene ({[m]} ∪ scene s) s)
  | (None, s) => (region, s)
  end.

(** [updateDecalMesh(region)]: the region object is mutated in place; the
    function returns it next to the viewer. *)
Definition updateDecalMesh (region : SavedHighlightRegion) (s : Model3DViewer)
  : SavedHighlightRegion * Model3DViewer :=
  let '(region, s) :=
    match Region.decalMesh region with
    | Some m => (Region.set_decalMesh None region, releaseDecal m s)
    | None => (region, s)
    end in
  match requestsDecal (Region.decalTextureId region), Region.normal region with
  | Some t, Some n =>
    match findMeshAtPosition host (Region.position region) with
    | Some targetMesh =>
      attachDecal
        (createDecalMesh (Region.position region) n (Region.size region) t targetMesh s)
        region
    | None => (region, s)
    end
  | _, _ => (region, s)
  end.

(** [saveCurrentRegion(label, defectData, cameraPosition, cameraTarget, normal,
    decalTextureId, targetObject)]. [highlightShape] is the position of the
    placement-preview mesh when that mesh exists. *)
Definition saveCurrentRegion (label : jsstring) (defectData : option DefectEntry)
    (cameraPosition cameraTarget normal : option Vector3)
    (decalTextureId : option DecalTextureId) (targetObject : option Object3D)
    (s : Model3DViewer) : option jsstring * Model3DViewer :=
  match highlightShape s with
  | None => (None, s)
  | Some shapePosition =>
    if negb (shapeVisible s) then (None, s)
    else if bool_decide (label = []) || bool_decide (trim label = []) then (None, s)
    else
      let '(newId, s) := generateId s in
      let region :=
        Region.mk newId shapePosition (getCurrentShapeSize s) (shapeType s)
          (currentSeverity s) (trim label) defectData cameraPosition cameraTarget
          normal decalTextureId None None None in
      let '(region, s) :=
        match requestsDecal decalTextureId, normal, targetObject with
        | Some t, Some n, Some o =>
          attachDecal
            (createDecalMesh (Region.position region) n (Region.size region) t o s)
            region
        | _, _, _ => (region, s)
        end in
      let s := set_savedRegions (savedRegions s ++ [region]) s in
      (Some (Region.id region), invalidateLabelPositions s)
  end.

(** [getRegions]. *)
Definition getRegions (s : Model3DViewer) : list RegionInfo :=
  (fun r => Info.mk (Region.id r) (Region.label r) (Region.severity r) (Region.type r)
              (Region.size r) (Region.defectData r) (Region.decalTextureId r)
              (Region.notes r) (Region.evidence r)) <$> savedRegions s.

(** A vector as the plain [{x, y, z}] object of the export format. *)
Definition xyz (v : Vector3) : JSValue :=
  JSObject [(js "x", JSNumber (V3.x v)); (js "y", JSNumber (V3.y v));
            (js "z", JSNumber (V3.z v))].

Definition exportRegion (r : SavedHighlightRegion) : ExportedRegion :=
  Exported.mk (JSString (Region.id r)) (JSString (Region.label r))
    (JSString (severityName (Region.severity r))) (JSString (shapeName (Region.type r)))
    (JSNumber (Region.size r)) (xyz (Region.position r))
    (Region.defectData r) (Region.cameraPosition r) (Region.cameraTarget r)
    (Region.normal r) (Region.decalTextureId r) (Region.notes r) (Region.evidence r).

(** [exportRegions]; [now] is [new Date().toISOString()]. *)
Definition exportRegions (now : jsstring) (s : Model3DViewer) : RegionsExportData :=
  {| version := JSNumber 1; exportedAt := now;
     regions := Some (exportRegion <$> savedRegions s) |}.

(** *** Import *)

Definition validSeverities : list jsstring := [js "high"; js "medium"; js "low"].
Definition validTypes : list jsstring := [js "cube"; js "sphere"; js "none"].

(** The body of the validation loop of [importRegions]: the error thrown for
    [region], if any. *)
Definition validateRegion (region : ExportedRegion) : option ImportError :=
  if negb (truthy (Exported.label region))
     || negb (bool_decide (typeof (Exported.label region) = TString))
  then Some LabelRequired
  else if negb (includes validSeverities (Exported.severity region))
  then Some (InvalidSeverity (Exported.severity region))
  else if negb (includes validTypes (Exported.type region))
  then Some (InvalidType (Exported.type region))
  else if negb (bool_decide (typeof (Exported.size region) = TNumber))
          || leNumber (Exported.size region) 0
  then Some InvalidSize
  else if negb (truthy (Exported.position region))
          || negb (bool_decide (typeof (getProp (Exported.position region) (js "x")) = TNumber))
          || negb (bool_decide (typeof (getProp (Exported.position region) (js "y")) = TNumber))
          || negb (bool_decide (typeof (getProp (Exported.position region) (js "z")) = TNumber))
  then Some InvalidPosition
  else None.

Fixpoint validateRegions (rs : list ExportedRegion) : option ImportError :=
  match rs with
  | [] => None
  | region :: rest =>
    match validateRegion region with
    | Some e => Some e
    | None => validateRegions rest
    end
  end.

(** Reading a validated field at its declared type. The second loop of
    [importRegions] copies the raw values; after validation they are values of
    these types (see [validated_fields_typed]), and the fall-back branches
    are never taken. *)
Definition asString (v : JSValue) : jsstring :=
  match v with JSString s => s | _ => [] end.

Definition asNumber (v : JSValue) : float :=
  match v with JSNumber n => n | _ => nan end.

Definition asSeverity (v : JSValue) : Severity :=
  if bool_decide (asString v = js "high") then High
  else if bool_decide (asString v = js "medium") then Medium
  else Low.

Definition asShapeType (v : JSValue) : ShapeType :=
  if bool_decide (asString v = js "cube") then Cube
  else if bool_decide (asString v = js "sphere") then Sphere
  else NoneShape.

Definition asVector3 (v : JSValue) : Vector3 :=
  V3.mk (asNumber (getProp v (js "x"))) (asNumber (getProp v (js "y")))
        (asNumber (getProp v (js "z"))).

(** The region the import loop builds from one payload entry. *)
Definition importedRegion (newId : jsstring) (region : ExportedRegion)
  : SavedHighlightRegion :=
  Region.mk newId (asVector3 (Exported.position region))
    (asNumber (Exported.size region)) (asShapeType (Exported.type region))
    (asSeverity (Exported.severity region)) (asString (Exported.label region))
    (Exported.defectData region) (Exported.cameraPosition region)
    (Exported.cameraTarget region) (Exported.normal region)
    (Exported.decalTextureId region) None
    (Exported.notes region) (Exported.evidence region).

Fixpoint importLoop (rs : list ExportedRegion) (s : Model3DViewer) : Model3DViewer :=
  match rs with
  | [] => s
  | region :: rest =>
    let '(newId, s) := generateId s in
    importLoop rest
      (set_savedRegions (savedRegions s ++ [importedRegion newId region]) s)
  end.

(** [for (const region of this.savedRegions) if (...) await
    this.updateDecalMesh(region)], over the region objects of the array. *)
Fixpoint recreateDecals (rs : list SavedHighlightRegion) (s : Model3DViewer)
  : list SavedHighlightRegion * Model3DViewer :=
  match rs with
  | [] => ([], s)
  | region :: rest =>
    let '(region, s) :=
      match requestsDecal (Region.decalTextureId region), Region.normal region with
      | Some _, Some _ => updateDecalMesh region s
      | _, _ => (region, s)
      end in
    let '(rest, s) := recreateDecals rest s in
    (region :: rest, s)
  end.

(** [if (this.gl) { delete every query; occlusionQueries.clear();
    occlusionResults.clear() }]. *)
Definition clearOcclusionState (s : Model3DViewer) : Model3DViewer :=
  if gl s
  then set_occlusionResults ∅
         (set_occlusionQueries ∅
            (set_deletedQueries
               (list_to_set (snd <$> map_to_list (occlusionQueries s)) ∪ deletedQueries s) s))
  else s.

(** [importRegions(data, replace)]: [inl e] when it throws [e], [inr n] when it
    returns [n]. *)
Definition importRegions (data : RegionsExportData) (replace : bool) (s : Model3DViewer)
  : (ImportError + nat) * Model3DViewer :=
  if strictNeNumber (version data) 1 then (inl (UnsupportedVersion (version data)), s)
  else
    match regions data with
    | None => (inl RegionsNotArray, s)
    | Some rs =>
      match validateRegions rs with
      | Some e => (inl e, s)
      | None =>
        let s := if replace then clearOcclusionState (set_savedRegions [] s) else s in
        let s := importLoop rs s in
        let '(updated, s) := recreateDecals (savedRegions s) s in
        let s := set_savedRegions updated s in
        (inr (length rs), invalidateLabelPositions s)
      end
    end.

(** *** Update and delete *)

(** [if (updates.f !== undefined) region.f = updates.f]. *)
Definition patch {A : Type} (update : option A)
    (set : A -> SavedHighlightRegion -> SavedHighlightRegion)
    (region : SavedHighlightRegion) : SavedHighlightRegion :=
  match update with
  | Some v => set v region
  | None => region
  end.

(** [updateRegion(id, updates)]. *)
Definition updateRegion (id : jsstring) (updates : RegionUpdates) (s : Model3DViewer)
  : bool * Model3DViewer :=
  match list_find (fun r => Region.id r = id) (savedRegions s) with
  | None => (false, s)
  | Some (index, region) =>
    let region := patch (Updates.label updates) Region.set_label region in
    let region := patch (Updates.severity updates) Region.set_severity region in
    let region := patch (Updates.type updates) Region.set_type region in
    let '(region, s) :=
      match Updates.size updates with
      | Some v =>
        let region := Region.set_size v region in
        match Region.decalMesh region, requestsDecal (Region.decalTextureId region) with
        | None, None => (region, s)
        | _, _ => updateDecalMesh region s
        end
      | None => (region, s)
      end in
    let '(region, s) :=
      match Updates.decalTextureId updates with
      | Some v => updateDecalMesh (Region.set_decalTextureId (Some v) region) s
      | None => (region, s)
      end in
    let region :=
      patch (Updates.defectData updates) (fun v => Region.set_defectData (Some v)) region in
    let region :=
      patch (Updates.cameraPosition updates)
        (fun v => Region.set_cameraPosition (Some v)) region in
    let region :=
      patch (Updates.cameraTarget updates) (fun v => Region.set_cameraTarget (Some v)) region in
    let region := patch (Updates.notes updates) (fun v => Region.set_notes (Some v)) region in
    let region :=
      patch (Updates.evidence updates) (fun v => Region.set_evidence (Some v)) region in
    let s := set_savedRegions (<[index := region]> (savedRegions s)) s in
    (true, invalidateLabelPositions s)
  end.

(** [deleteRegion(id)]. *)
Definition deleteRegion (id : jsstring) (s : Model3DViewer) : bool * Model3DViewer :=
  match list_find (fun r => Region.id r = id) (savedRegions s) with
  | None => (false, s)
  | Some (index, region) =>
    let s :=
      match Region.decalMesh region with
      | Some m => releaseDecal m s
      | None => s
      end in
    let s := set_savedRegions (delete index (savedRegions s)) s in
    let s := clearOcclusionState s in
    (true, invalidateLabelPositions s)
  end.

(** *** Point lookup *)

(** The loop of [findRegionAtPoint] over the remaining regions. *)
Fixpoint findRegionIn (hidden : gset jsstring) (point : Vector3)
    (rs : list SavedHighlightRegion) : option jsstring :=
  match rs with
  | [] => None
  | region :: rest =>
    if bool_decide (Region.id region ∈ hidden) then findRegionIn hidden point rest
    else if bool_decide (Region.type region = NoneShape) then findRegionIn hidden point rest
    else
      let diff := V3.sub point (Region.position region) in
      let halfSize := (Region.size region * 0.5)%float in
      if bool_decide (Region.type region = Cube) then
        if (PrimFloat.abs (V3.x diff) <? halfSize)%float
           && (PrimFloat.abs (V3.y diff) <? halfSize)%float
           && (PrimFloat.abs (V3.z diff) <? halfSize)%float
        then Some (Region.id region)
        else findRegionIn hidden point rest
      else
        if (V3.length diff <? halfSize)%float
        then Some (Region.id region)
        else findRegionIn hidden point rest
  end.

(** [findRegionAtPoint(point)]. *)
Definition findRegionAtPoint (point : Vector3) (s : Model3DViewer) : option jsstring :=
  findRegionIn (hiddenRegionIds s) point (savedRegions s).

End RegionStore.

(** ** The label projector *)

(** [project3DToScreen(worldPoint)]: pixel coordinates, or [None] for [null]. *)
Definition project3DToScreen (worldPoint : Vector3) (s : Model3DViewer)
  : option (float * float) :=
  match camera s with
  | None => None
  | Some cam =>
    let p := project cam worldPoint in
    if (1 <? V3.z p)%float
       || (V3.x p <? -1)%float || (1 <? V3.x p)%float
       || (V3.y p <? -1)%float || (1 <? V3.y p)%float
    then None
    else Some (((V3.x p + 1) / 2 * width (dims s))%float,
               ((- V3.y p + 1) / 2 * height (dims s))%float)
  end.

(** [checkPointVisibility(regionIndex)]. *)
Definition checkPointVisibility (regionIndex : nat) (s : Model3DViewer) : bool :=
  match occlusionResults s !! regionIndex with
  | Some visible => visible
  | None => true
  end.

(** The [LabelPosition] built for the region at index [i]. *)
Definition labelFor (i : nat) (region : SavedHighlightRegion) (s : Model3DViewer)
  : LabelPosition :=
  let screenPos := project3DToScreen (Region.position region) s in
  let isVisible :=
    match screenPos with
    | Some _ => checkPointVisibility i s
    | None => false
    end in
  Label.mk (Region.id region) (Region.label region)
    (match screenPos with Some (x, _) => x | None => 0%float end)
    (match screenPos with Some (_, y) => y | None => 0%float end)
    isVisible (SEVERITY_COLORS (Region.severity region)) (Region.severity region).

(** The change test of [getLabelPositions] against the cached entry. *)
Definition labelChanged (cached : option LabelPosition) (newPos : LabelPosition) : bool :=
  match cached with
  | None => true
  | Some c =>
    negb (Label.x c =? Label.x newPos)%float
    || negb (Label.y c =? Label.y newPos)%float
    || negb (bool_decide (Label.visible c = Label.visible newPos))
    || negb (bool_decide (Label.text c = Label.text newPos))
    || negb (bool_decide (Label.color c = Label.color newPos))
    || negb (bool_decide (Label.severity c = Label.severity newPos))
  end.

(** The loop of [getLabelPositions] from index [i] on: the entries pushed and
    whether [hasChanges] was set. *)
Fixpoint labelLoop (s : Model3DViewer) (i : nat) (rs : list SavedHighlightRegion)
  : list LabelPosition * bool :=
  match rs with
  | [] => ([], false)
  | region :: rest =>
    if bool_decide (Region.id region ∈ hiddenRegionIds s) then labelLoop s (S i) rest
    else
      let newPos := labelFor i region s in
      let cached :=
        snd <$> list_find (fun p => Label.id p = Region.id region) (cachedLabelPositions s) in
      let '(positions, hasChanges) := labelLoop s (S i) rest in
      (newPos :: positions, labelChanged cached newPos || hasChanges)
  end.

(** [getLabelPositions()]: [None] is the no-update result [null]. *)
Definition getLabelPositions (s : Model3DViewer)
  : option (list LabelPosition) * Model3DViewer :=
  if negb (needsLabelUpdate s)
     && bool_decide (length (savedRegions s) = length (cachedLabelPositions s))
  then (None, s)
  else
    let '(positions, hasChanges) := labelLoop s 0 (savedRegions s) in
    let s := set_needsLabelUpdate false s in
    if hasChanges
       || negb (bool_decide (length positions = length (cachedLabelPositions s)))
    then (Some positions, set_cachedLabelPositions positions s)
    else (None, s).

(** ** The occlusion-query step *)

(** What the GPU answers during one frame: whether [gl.createQuery()] yields a
    query for region index [i], whether a query's result is available, and the
    result itself (samples passed). *)
Record GpuFrame := {
  createQueryOk : nat -> bool;
  resultAvailable : WebGLQuery -> bool;
  queryResult : WebGLQuery -> nat }.

Definition OCCLUSION_THROTTLE_FRAMES : nat := 3.

(** A query begun by [gl.beginQuery]: the region index, the query object and
    the world position drawn. *)
Record QueryStart := { qs_index : nat; qs_query : WebGLQuery; qs_position : Vector3 }.

(** Reading an available result into [occlusionResults]. *)
Definition collectResult (gpu : GpuFrame) (i : nat) (query : WebGLQuery)
    (s : Model3DViewer) : Model3DViewer :=
  let newVisible := bool_decide (0 < queryResult gpu query) in
  let s :=
    match occlusionResults s !! i with
    | Some oldVisible =>
      if bool_decide (oldVisible = newVisible) then s else set_needsLabelUpdate true s
    | None => set_needsLabelUpdate true s
    end in
  set_occlusionResults (<[i := newVisible]> (occlusionResults s)) s.

(** The per-region loop of [runOcclusionQueries], from index [i] on. *)
Fixpoint queryLoop (gpu : GpuFrame) (i : nat) (rs : list SavedHighlightRegion)
    (s : Model3DViewer) : list QueryStart * Model3DViewer :=
  match rs with
  | [] => ([], s)
  | region :: rest =>
    let queryWasRunning := bool_decide (is_Some (occlusionQueries s !! i)) in
    let s :=
      if queryWasRunning then s
      else if createQueryOk gpu i
      then set_objectCount (S (objectCount s))
             (set_occlusionQueries (<[i := objectCount s]> (occlusionQueries s)) s)
      else s in
    match occlusionQueries s !! i with
    | None => queryLoop gpu (S i) rest s
    | Some query =>
      if queryWasRunning && negb (resultAvailable gpu query)
      then queryLoop gpu (S i) rest s
      else
        let s := if queryWasRunning then collectResult gpu i query s else s in
        let '(started, s) := queryLoop gpu (S i) rest s in
        ({| qs_index := i; qs_query := query; qs_position := Region.position region |}
           :: started, s)
    end
  end.

(** [runOcclusionQueries()], called once per rendered frame: the queries begun
    in this frame and the viewer afterwards. *)
Definition runOcclusionQueries (gpu : GpuFrame) (s : Model3DViewer)
  : list QueryStart * Model3DViewer :=
  if negb (gl s) || negb (occlusionProgram s)
     || negb (bool_decide (is_Some (camera s)))
     || bool_decide (length (savedRegions s) = 0)
  then ([], s)
  else if smoothCameraMode s then
    if isCameraMoving s then ([], s)
    else queryLoop gpu 0 (savedRegions s) s
  else
    if negb (isCameraMoving s) then ([], s)
    else
      let s := set_occlusionFrameCounter (S (occlusionFrameCounter s)) s in
      if bool_decide (occlusionFrameCounter s < OCCLUSION_THROTTLE_FRAMES) then ([], s)
      else queryLoop gpu 0 (savedRegions s) (set_occlusionFrameCounter 0 s).

(** The camera controller's two signals (the [change] listener installed by
    [setupControls] and the stop timer it arms). *)
Inductive CameraEvent := ControlsChange | StopTimeout.

Definition cameraEvent (e : CameraEvent) (s : Model3DViewer) : Model3DViewer :=
  match e with
  | ControlsChange => set_isCameraMoving true (set_needsLabelUpdate true s)
  | StopTimeout =>
    let s := set_isCameraMoving false s in
    if smoothCameraMode s then set_needsLabelUpdate true s else s
  end.

(** One turn of the animation loop as the occlusion step sees it: the camera
    events since the previous frame, then [runOcclusionQueries]. *)
Definition frame (events : list CameraEvent) (gpu : GpuFrame) (s : Model3DViewer)
  : list QueryStart * Model3DViewer :=
  runOcclusionQueries gpu (foldl (fun s e => cameraEvent e s) s events).

(** ** A fresh viewer and sample data *)

(** The field initialisers of the class; [webgl2] tells whether
    [initOcclusionQuery] obtained a WebGL 2 context and linked its program. *)
Definition newViewer (webgl2 : bool) : Model3DViewer :=
  {| camera := None; dims := {| width := 500; height := 500 |};
     highlightShape := None; shapeVisible := false; shapeType := Cube;
     shapeBaseSize := 0.05; shapeSizePercent := 100; currentSeverity := Medium;
     savedRegions := []; hiddenRegionIds := ∅;
     isCameraMoving := false; smoothCameraMode := false; occlusionFrameCounter := 0;
     needsLabelUpdate := true; cachedLabelPositions := [];
     gl := webgl2; occlusionProgram := webgl2;
     occlusionQueries := ∅; occlusionResults := ∅;
     scene := ∅; disposed := ∅; deletedQueries := ∅;
     uuidCount := 0; objectCount := 0 |}.

(** * Properties *)

(** ** Point lookup *)

(** The containment test of a region's volume: per-axis half-size box for a
    cube, distance against the half-size radius for a sphere; a point-shaped
    region ([NoneShape]) has no volume. *)
Definition containsPoint (region : SavedHighlightRegion) (point : Vector3) : bool :=
  let halfSize := (Region.size region * 0.5)%float in
  let dx := (V3.x point - V3.x (Region.position region))%float in
  let dy := (V3.y point - V3.y (Region.position region))%float in
  let dz := (V3.z point - V3.z (Region.position region))%float in
  match Region.type region with
  | Cube =>
    (PrimFloat.abs dx <? halfSize)%float && (PrimFloat.abs dy <? halfSize)%float
    && (PrimFloat.abs dz <? halfSize)%float
  | Sphere => (PrimFloat.sqrt (dx * dx + dy * dy + dz * dz) <? halfSize)%float
  | NoneShape => false
  end.

(** A region the lookup may answer with: not hidden, and containing the point. *)
Definition hitBy (hidden : gset jsstring) (point : Vector3)
    (region : SavedHighlightRegion) : bool :=
  negb (bool_decide (Region.id region ∈ hidden)) && containsPoint region point.

Lemma findRegionIn_cons hidden point region rest :
  findRegionIn hidden point (region :: rest) =
  if hitBy hidden point region then Some (Region.id region)
  else findRegionIn hidden point rest.
Proof.
  unfold hitBy, containsPoint. cbn [findRegionIn].
  destruct (bool_decide (Region.id region ∈ hidden)); cbn [negb andb]; [done|].
  destruct (Region.type region); cbn [V3.sub V3.length V3.x V3.y V3.z];
    repeat case_bool_decide; try done.
Qed.

Lemma findRegionIn_first hidden point rs id :
  findRegionIn hidden point rs = Some id ↔
  ∃ before region after,
    rs = before ++ region :: after ∧ Region.id region = id
    ∧ hitBy hidden point region = true
    ∧ Forall (fun r => hitBy hidden point r = false) before.
Proof.
  induction rs as [|r rs IH].
  - split; [done|]. intros (before & region & after & Heq & _).
    by destruct before.
  - rewrite findRegionIn_cons. destruct (hitBy hidden point r) eqn:Hr.
    + split.
      * intros [= <-]. exists [], r, rs. by repeat split.
      * intros (before & region & after & Heq & Hid & Hhit & Hnot).
        destruct before as [|r' before]; simplify_eq/=; [done|].
        apply Forall_cons in Hnot as [Hnot _]. congruence.
    + rewrite IH. split.
      * intros (before & region & after & -> & Hid & Hhit & Hnot).
        exists (r :: before), region, after. repeat split; try done.
        by constructor.
      * intros (before & region & after & Heq & Hid & Hhit & Hnot).
        destruct before as [|r' before]; simplify_eq/=; [congruence|].
        apply Forall_cons in Hnot as [_ Hnot]. by exists before, region, after.
Qed.

Lemma findRegionIn_None hidden point rs :
  findRegionIn hidden point rs = None ↔
  Forall (fun r => hitBy hidden point r = false) rs.
Proof.
  induction rs as [|r rs IH]; [by split|].
  rewrite findRegionIn_cons, Forall_cons. destruct (hitBy hidden point r).
  - split; [done|]. by intros [? _].
  - rewrite IH. split; [by split|]. by intros [_ ?].
Qed.

(** The store of Scenario C: one visible cube at the origin, of size 2. *)
Definition scenarioC_region : SavedHighlightRegion :=
  Region.mk (js "cube-at-origin") (V3.mk 0 0 0) 2 Cube High (js "Dent")
    None None None None None None None None.

Definition scenarioC_store : Model3DViewer :=
  set_savedRegions [scenarioC_region] (newViewer true).

(** C1. [findRegionAtPoint] answers with a region id exactly when some region
    of the store that is not hidden and not point-shaped contains the point
    under its shape test (cube: every coordinate of point minus position below
    half the size in absolute value; sphere: Euclidean distance below half the
    size); the id it answers with is that of the earliest such region in store
    (insertion) order. A cube at (0,0,0) of size 2 contains (0.9,0.9,0.9) and
    does not contain (1.1,0,0). *)
Theorem findRegionAtPoint_first_containing :
  (∀ (s : Model3DViewer) (point : Vector3),
     (∃ id, findRegionAtPoint point s = Some id) ↔
     (∃ region, region ∈ savedRegions s
        ∧ (Region.id region ∉ hiddenRegionIds s)
        ∧ Region.type region ≠ NoneShape
        ∧ containsPoint region point = true))
  ∧ (∀ (s : Model3DViewer) (point : Vector3) (id : jsstring),
       findRegionAtPoint point s = Some id ↔
       ∃ before region after,
         savedRegions s = before ++ region :: after
         ∧ Region.id region = id
         ∧ (Region.id region ∉ hiddenRegionIds s)
         ∧ Region.type region ≠ NoneShape
         ∧ containsPoint region point = true
         ∧ ∀ earlier, earlier ∈ before →
             Region.id earlier ∈ hiddenRegionIds s
             ∨ containsPoint earlier point = false)
  ∧ containsPoint scenarioC_region (V3.mk 0.9 0.9 0.9) = true
  ∧ containsPoint scenarioC_region (V3.mk 1.1 0 0) = false
  ∧ findRegionAtPoint (V3.mk 0.9 0.9 0.9) scenarioC_store = Some (js "cube-at-origin")
  ∧ findRegionAtPoint (V3.mk 1.1 0 0) scenarioC_store = None.
Proof.
  assert (Hhit : ∀ hidden point r,
    hitBy hidden point r = true ↔
    (Region.id r ∉ hidden) ∧ Region.type r ≠ NoneShape ∧ containsPoint r point = true).
  { intros hidden point r. unfold hitBy.
    rewrite andb_true_iff, negb_true_iff, bool_decide_eq_false.
    split; [|by intros (? & _ & ?)]. intros [Hh Hc]. repeat split; try done.
    intros Ht. unfold containsPoint in Hc. by rewrite Ht in Hc. }
  assert (Hmiss : ∀ hidden point r,
    hitBy hidden point r = false ↔
    Region.id r ∈ hidden ∨ containsPoint r point = false).
  { intros hidden point r. unfold hitBy.
    rewrite andb_false_iff, negb_false_iff, bool_decide_eq_true. done. }
  assert (Hfirst : ∀ s point id,
    findRegionAtPoint point s = Some id ↔
    ∃ before region after,
      savedRegions s = before ++ region :: after
      ∧ Region.id region = id
      ∧ (Region.id region ∉ hiddenRegionIds s)
      ∧ Region.type region ≠ NoneShape
      ∧ containsPoint region point = true
      ∧ ∀ earlier, earlier ∈ before →
          Region.id earlier ∈ hiddenRegionIds s ∨ containsPoint earlier point = false).
  { intros s point id. unfold findRegionAtPoint. rewrite findRegionIn_first.
    split.
    - intros (before & region & after & Heq & Hid & Hh & Hnot).
      apply Hhit in Hh as (? & ? & ?). exists before, region, after.
      repeat split; try done. intros earlier Hin.
      rewrite Forall_forall in Hnot. by apply Hmiss, Hnot.
    - intros (before & region & after & Heq & Hid & Hv & Ht & Hc & Hnot).
      exists before, region, after. repeat split; try done.
      + by apply Hhit.
      + apply Forall_forall. intros earlier Hin. by apply Hmiss, Hnot. }
  split; [|split; [exact Hfirst|]].
  - intros s point. split.
    + intros [id Hid]. apply Hfirst in Hid
        as (before & region & after & Heq & _ & Hv & Ht & Hc & _).
      exists region. repeat split; try done. rewrite Heq.
      apply elem_of_app. right. apply elem_of_cons. by left.
    + intros (region & Hin & Hv & Ht & Hc).
      destruct (findRegionAtPoint point s) as [id|] eqn:Hfind; [by exists id|].
      unfold findRegionAtPoint in Hfind. apply findRegionIn_None in Hfind.
      rewrite Forall_forall in Hfind. specialize (Hfind region Hin).
      apply Hmiss in Hfind as [?|?]; [done|congruence].
  - repeat split; vm_compute; reflexivity.
Qed.

(** ** Saving the placement preview *)

Lemma trimStart_split (s : jsstring) :
  ∃ lead, s = lead ++ trimStart s ∧ Forall (fun c => isWhiteSpace c = true) lead.
Proof.
  induction s as [|c s (lead & Heq & Hws)]; [by exists []|].
  cbn [trimStart]. destruct (isWhiteSpace c) eqn:Hc.
  - exists (c :: lead). split; [by rewrite Heq at 1|by constructor].
  - by exists [].
Qed.

Lemma trimStart_head (s : jsstring) c rest :
  trimStart s = c :: rest → isWhiteSpace c = false.
Proof.
  induction s as [|c' s IH]; [done|]. cbn [trimStart].
  destruct (isWhiteSpace c') eqn:Hc; [done|]. by intros [= <- _].
Qed.

Lemma trimEnd_split (s : jsstring) :
  ∃ trail, s = trimEnd s ++ trail ∧ Forall (fun c => isWhiteSpace c = true) trail.
Proof.
  unfold trimEnd. destruct (trimStart_split (reverse s)) as (lead & Heq & Hws).
  exists (reverse lead). split.
  - rewrite <- reverse_app, <- Heq. by rewrite reverse_involutive.
  - by apply Forall_reverse.
Qed.

Lemma trimEnd_last (s : jsstring) c :
  last (trimEnd s) = Some c → isWhiteSpace c = false.
Proof.
  unfold trimEnd. rewrite last_reverse.
  destruct (trimStart (reverse s)) as [|c' rest] eqn:Heq; [done|].
  intros [= <-]. by eapply trimStart_head.
Qed.

(** What [trim] returns: the input without a whitespace-only prefix and a
    whitespace-only suffix, itself neither starting nor ending with a
    whitespace character. *)
Lemma trim_spec (s : jsstring) :
  (∃ lead trail,
     s = lead ++ trim s ++ trail
     ∧ Forall (fun c => isWhiteSpace c = true) lead
     ∧ Forall (fun c => isWhiteSpace c = true) trail)
  ∧ (∀ c, head (trim s) = Some c → isWhiteSpace c = false)
  ∧ (∀ c, last (trim s) = Some c → isWhiteSpace c = false).
Proof.
  unfold trim. destruct (trimStart_split s) as (lead & Hs & Hlead).
  destruct (trimEnd_split (trimStart s)) as (trail & Ht & Htrail).
  split; [|split].
  - exists lead, trail. split; [|done]. by rewrite <- Ht.
  - intros c Hc. destruct (trimEnd (trimStart s)) as [|c' rest] eqn:Heq; [done|].
    injection Hc as ->. eapply trimStart_head. exact Ht.
  - apply trimEnd_last.
Qed.

(** Two region objects that agree on every field but the decal renderable. *)
Definition sameButDecal (a b : SavedHighlightRegion) : Prop :=
  Region.set_decalMesh None a = Region.set_decalMesh None b.

Global Instance sameButDecal_equiv : Equivalence sameButDecal.
Proof.
  unfold sameButDecal. split; [by intros ?|by intros ??|].
  intros a b c. apply eq_trans.
Qed.

Lemma sameButDecal_set m r : sameButDecal r (Region.set_decalMesh m r).
Proof. done. Qed.

Section DecalFrame.
Variable host : Host.

Lemma createDecalMesh_store p n sz t o s :
  savedRegions (createDecalMesh host p n sz t o s).2 = savedRegions s
  ∧ uuidCount (createDecalMesh host p n sz t o s).2 = uuidCount s.
Proof.
  unfold createDecalMesh.
  destruct t; try done; by destruct (decalBuilds host _ _ _ _ _).
Qed.

Lemma attachDecal_store built region :
  sameButDecal region (attachDecal built region).1
  ∧ savedRegions (attachDecal built region).2 = savedRegions built.2
  ∧ uuidCount (attachDecal built region).2 = uuidCount built.2.
Proof. by destruct built as [[m|] s]. Qed.

Lemma updateDecalMesh_store region s :
  sameButDecal region (updateDecalMesh host region s).1
  ∧ savedRegions (updateDecalMesh host region s).2 = savedRegions s
  ∧ uuidCount (updateDecalMesh host region s).2 = uuidCount s.
Proof.
  unfold updateDecalMesh.
  set (cleared := match Region.decalMesh region with
                  | Some m => (Region.set_decalMesh None region, releaseDecal m s)
                  | None => (region, s) end).
  assert (Hc : sameButDecal region cleared.1 ∧ savedRegions cleared.2 = savedRegions s
               ∧ uuidCount cleared.2 = uuidCount s).
  { subst cleared. by destruct (Region.decalMesh region). }
  destruct cleared as [region' s']. cbn [fst snd] in Hc. destruct Hc as (Hr & Hs & Hu).
  destruct (requestsDecal (Region.decalTextureId region')) as [t|]; [|done].
  destruct (Region.normal region') as [n|]; [|done].
  destruct (findMeshAtPosition host (Region.position region')) as [o|]; [|done].
  destruct (attachDecal_store
    (createDecalMesh host (Region.position region') n (Region.size region') t o s') region')
    as (Hr' & Hs' & Hu').
  destruct (createDecalMesh_store (Region.position region') n (Region.size region') t o s')
    as (Hs'' & Hu'').
  split; [by etrans|]. split; congruence.
Qed.

End DecalFrame.

Section Save.
Variable host : Host.

Lemma saveCurrentRegion_rejects label dd cp ct n dt target s :
  highlightShape s = None ∨ shapeVisible s = false ∨ trim label = [] →
  saveCurrentRegion host label dd cp ct n dt target s = (None, s).
Proof.
  intros Hcase. unfold saveCurrentRegion.
  destruct (highlightShape s) as [shapePosition|]; [|done].
  destruct (shapeVisible s); [|done]. cbn [negb].
  destruct Hcase as [?|[?|Hempty]]; [done..|].
  rewrite (bool_decide_eq_true_2 (trim label = [])) by done.
  by rewrite orb_true_r.
Qed.

Lemma saveCurrentRegion_accepts label dd cp ct n dt target s shapePosition :
  highlightShape s = Some shapePosition → shapeVisible s = true → trim label ≠ [] →
  ∃ region s',
    saveCurrentRegion host label dd cp ct n dt target s
      = (Some (randomUUID host (uuidCount s)), s')
    ∧ savedRegions s' = savedRegions s ++ [region]
    ∧ sameButDecal region
        (Region.mk (randomUUID host (uuidCount s)) shapePosition (getCurrentShapeSize s)
           (shapeType s) (currentSeverity s) (trim label) dd cp ct n dt None None None)
    ∧ uuidCount s' = S (uuidCount s)
    ∧ needsLabelUpdate s' = true.
Proof.
  intros Hshape Hvisible Hlabel. unfold saveCurrentRegion.
  rewrite Hshape, Hvisible. cbn [negb].
  assert (label ≠ []) by (intros ->; by apply Hlabel).
  rewrite !bool_decide_eq_false_2 by done. cbn [orb].
  unfold generateId.
  set (s1 := set_uuidCount (S (uuidCount s)) s).
  set (region0 := Region.mk _ _ _ _ _ _ _ _ _ _ _ _ _ _).
  set (step := match requestsDecal dt with Some _ => _ | None => _ end).
  assert (Hstep : sameButDecal region0 step.1
                   ∧ savedRegions step.2 = savedRegions s
                   ∧ uuidCount step.2 = S (uuidCount s)).
  { subst step. destruct (requestsDecal dt) as [t|]; [|done].
    destruct n as [nv|]; [|done]. destruct target as [o|]; [|done].
    destruct (attachDecal_store
      (createDecalMesh host (Region.position region0) nv (Region.size region0) t o s1)
      region0) as (Hr & Hs & Hu).
    destruct (createDecalMesh_store host (Region.position region0) nv
                (Region.size region0) t o s1) as (Hs' & Hu').
    split; [done|]. split; [by rewrite Hs, Hs'|by rewrite Hu, Hu']. }
  destruct step as [region s2]. cbn [fst snd] in Hstep.
  destruct Hstep as (Hr & Hs & Hu).
  assert (Hid : Region.id region = randomUUID host (uuidCount s)).
  { unfold sameButDecal in Hr. by apply (f_equal Region.id) in Hr. }
  eexists region, _. split; [by rewrite Hid|].
  cbn. rewrite Hs. by repeat split.
Qed.

(** C4. [saveCurrentRegion] returns no id and leaves the viewer, hence the list
    of saved regions, as it was when no placement preview is visible or the
    label is empty once trimmed; in every other case it returns an id and the
    saved-region list afterwards is the list before with exactly one region,
    carrying that id, appended. *)
Theorem saveCurrentRegion_fails_or_appends_one
    (label : jsstring) (dd : option DefectEntry) (cp ct n : option Vector3)
    (dt : option DecalTextureId) (target : option Object3D) (s : Model3DViewer) :
  (highlightShape s = None ∨ shapeVisible s = false ∨ trim label = [] →
     saveCurrentRegion host label dd cp ct n dt target s = (None, s))
  ∧ (is_Some (highlightShape s) → shapeVisible s = true → trim label ≠ [] →
       ∃ id region s',
         saveCurrentRegion host label dd cp ct n dt target s = (Some id, s')
         ∧ savedRegions s' = savedRegions s ++ [region]
         ∧ Region.id region = id)
  ∧ (∀ id s',
       saveCurrentRegion host label dd cp ct n dt target s = (Some id, s') →
       is_Some (highlightShape s) ∧ shapeVisible s = true ∧ trim label ≠ []
       ∧ ∃ region, savedRegions s' = savedRegions s ++ [region] ∧ Region.id region = id).
Proof.
  split; [apply saveCurrentRegion_rejects|]. split.
  - intros [shapePosition Hshape] Hvisible Hlabel.
    destruct (saveCurrentRegion_accepts label dd cp ct n dt target s shapePosition)
      as (region & s' & Hsave & Hregions & Hsame & _); [done..|].
    exists (randomUUID host (uuidCount s)), region, s'. repeat split; try done.
    unfold sameButDecal in Hsame. by apply (f_equal Region.id) in Hsame.
  - intros id s' Hsave.
    destruct (highlightShape s) as [shapePosition|] eqn:Hshape; cycle 1.
    { rewrite saveCurrentRegion_rejects in Hsave by auto. done. }
    destruct (shapeVisible s) eqn:Hvisible; cycle 1.
    { rewrite saveCurrentRegion_rejects in Hsave by auto. done. }
    destruct (decide (trim label = [])) as [Hempty|Hlabel].
    { rewrite saveCurrentRegion_rejects in Hsave by auto. done. }
    destruct (saveCurrentRegion_accepts label dd cp ct n dt target s shapePosition)
      as (region & s'' & Hsave' & Hregions & Hsame & _); [done..|].
    rewrite Hsave' in Hsave. injection Hsave as <- <-.
    repeat split; try done. exists region. split; [done|].
    unfold sameButDecal in Hsame. by apply (f_equal Region.id) in Hsame.
Qed.

(** C10. After a successful [saveCurrentRegion] the label stored in the new
    region is the input label with its leading and trailing whitespace removed
    (the input is that label between a whitespace-only prefix and a
    whitespace-only suffix, and the label neither starts nor ends with a
    whitespace character); [getRegions] and [exportRegions] report that
    trimmed label for the new region. *)
Theorem saveCurrentRegion_stores_trimmed_label
    (label : jsstring) (dd : option DefectEntry) (cp ct n : option Vector3)
    (dt : option DecalTextureId) (target : option Object3D) (s s' : Model3DViewer)
    (id now : jsstring) :
  saveCurrentRegion host label dd cp ct n dt target s = (Some id, s') →
  ∃ region,
    savedRegions s' = savedRegions s ++ [region]
    ∧ Region.label region = trim label
    ∧ (∃ lead trail,
         label = lead ++ Region.label region ++ trail
         ∧ Forall (fun c => isWhiteSpace c = true) lead
         ∧ Forall (fun c => isWhiteSpace c = true) trail)
    ∧ (∀ c, head (Region.label region) = Some c → isWhiteSpace c = false)
    ∧ (∀ c, last (Region.label region) = Some c → isWhiteSpace c = false)
    ∧ Info.label <$> last (getRegions s') = Some (trim label)
    ∧ (Exported.label <$> (regions (exportRegions now s') ≫= last))
        = Some (JSString (trim label)).
Proof.
  intros Hsave.
  destruct (highlightShape s) as [shapePosition|] eqn:Hshape; cycle 1.
  { rewrite saveCurrentRegion_rejects in Hsave by auto. done. }
  destruct (shapeVisible s) eqn:Hvisible; cycle 1.
  { rewrite saveCurrentRegion_rejects in Hsave by auto. done. }
  destruct (decide (trim label = [])) as [Hempty|Hlabel].
  { rewrite saveCurrentRegion_rejects in Hsave by auto. done. }
  destruct (saveCurrentRegion_accepts label dd cp ct n dt target s shapePosition)
    as (region & s'' & Hsave' & Hregions & Hsame & _); [done..|].
  rewrite Hsave' in Hsave. injection Hsave as <- <-.
  assert (Hl : Region.label region = trim label).
  { unfold sameButDecal in Hsame. by apply (f_equal Region.label) in Hsame. }
  exists region. split; [done|]. split; [done|]. rewrite Hl.
  destruct (trim_spec label) as (Hsplit & Hhead & Hlast).
  repeat split; try done.
  - unfold getRegions. rewrite Hregions, fmap_app. cbn [fmap list_fmap].
    rewrite last_snoc. cbn. by rewrite Hl.
  - unfold exportRegions. cbn [regions mbind option_bind].
    rewrite Hregions, fmap_app. cbn [fmap list_fmap].
    rewrite last_snoc. cbn. by rewrite Hl.
Qed.

End Save.

(** ** Sample data *)

(** A host whose UUIDs are ["uuid-0"], ["uuid-1"], ..., where every ray hits
    mesh 0 of the model and every decal builds. *)
Definition sampleHost : Host :=
  {| randomUUID := fun k => js "uuid-" ++ [48 + N.of_nat k]%N;
     findMeshAtPosition := fun _ => Some 0;
     decalBuilds := fun _ _ _ _ _ => true |}.

(** A viewer with a loaded model and the placement preview hovering the mesh
    at (1,2,3). *)
Definition previewViewer : Model3DViewer :=
  {| camera := Some {| project := fun p => p |};
     dims := {| width := 500; height := 500 |};
     highlightShape := Some (V3.mk 1 2 3); shapeVisible := true; shapeType := Sphere;
     shapeBaseSize := 0.05; shapeSizePercent := 100; currentSeverity := High;
     savedRegions := []; hiddenRegionIds := ∅;
     isCameraMoving := false; smoothCameraMode := false; occlusionFrameCounter := 0;
     needsLabelUpdate := true; cachedLabelPositions := [];
     gl := true; occlusionProgram := true;
     occlusionQueries := ∅; occlusionResults := ∅;
     scene := ∅; disposed := ∅; deletedQueries := ∅;
     uuidCount := 0; objectCount := 0 |}.

(** Scenario A: saving the preview under the label ["  Scratch "], with a
    heavy decal on the hit surface. *)
Definition savedScratch : option jsstring * Model3DViewer :=
  saveCurrentRegion sampleHost (js "  Scratch ") None None None
    (Some (V3.mk 0 0 1)) (Some Heavy) (Some 0) previewViewer.

Lemma saveCurrentRegion_fails_or_appends_one_witness :
  saveCurrentRegion sampleHost (js "   ") None None None None None None previewViewer
    = (None, previewViewer)
  ∧ ∃ id region s',
      saveCurrentRegion sampleHost (js "  Scratch ") None None None
        (Some (V3.mk 0 0 1)) (Some Heavy) (Some 0) previewViewer = (Some id, s')
      ∧ savedRegions s' = savedRegions previewViewer ++ [region]
      ∧ Region.id region = id.
Proof.
  split.
  - apply (saveCurrentRegion_fails_or_appends_one sampleHost).
    right. right. vm_compute. reflexivity.
  - apply (saveCurrentRegion_fails_or_appends_one sampleHost).
    + by eexists.
    + reflexivity.
    + vm_compute. discriminate.
Defined.

Lemma saveCurrentRegion_stores_trimmed_label_witness :
  ∃ region,
    savedRegions savedScratch.2 = savedRegions previewViewer ++ [region]
    ∧ Region.label region = trim (js "  Scratch ")
    ∧ (∃ lead trail,
         js "  Scratch " = lead ++ Region.label region ++ trail
         ∧ Forall (fun c => isWhiteSpace c = true) lead
         ∧ Forall (fun c => isWhiteSpace c = true) trail)
    ∧ (∀ c, head (Region.label region) = Some c → isWhiteSpace c = false)
    ∧ (∀ c, last (Region.label region) = Some c → isWhiteSpace c = false)
    ∧ Info.label <$> last (getRegions savedScratch.2) = Some (trim (js "  Scratch "))
    ∧ (Exported.label <$> (regions (exportRegions (js "2026-01-01") savedScratch.2) ≫= last))
        = Some (JSString (trim (js "  Scratch "))).
Proof.
  apply (saveCurrentRegion_stores_trimmed_label sampleHost (js "  Scratch ")
           None None None (Some (V3.mk 0 0 1)) (Some Heavy) (Some 0)
           previewViewer savedScratch.2 (js "uuid-0") (js "2026-01-01")).
  vm_compute. reflexivity.
Defined.

(** Scenario A: an empty store, one save: [getRegions] lists exactly that
    region, with the trimmed label, the severity and the shape of the preview. *)
Example scenarioA :
  savedScratch.1 = Some (js "uuid-0")
  ∧ getRegions savedScratch.2
    = [Info.mk (js "uuid-0") (js "Scratch") High Sphere 0.05 None (Some Heavy) None None].
Proof. split; vm_compute; reflexivity. Qed.

(** ** Import and export *)

(** Comparing with zero: a number above zero is not at or below it, and a
    number that is neither at or below zero nor NaN is above it. *)
Lemma positive_not_le0 (n : float) : (0 <? n)%float = true → (n <=? 0)%float = false.
Proof.
  rewrite FloatAxioms.ltb_spec, FloatAxioms.leb_spec. change (Prim2SF 0) with (S754_zero false).
  unfold SFltb, SFleb. by destruct (Prim2SF n) as [[]|[]| |[] ? ?].
Qed.

Lemma not_le0_positive (n : float) :
  (n <=? 0)%float = false → (n =? n)%float = true → (0 <? n)%float = true.
Proof.
  rewrite FloatAxioms.ltb_spec, FloatAxioms.leb_spec, FloatAxioms.eqb_spec. change (Prim2SF 0) with (S754_zero false).
  unfold SFltb, SFleb, SFeqb. by destruct (Prim2SF n) as [[]|[]| |[] ? ?].
Qed.

(** A payload entry as the import format requires it: a non-empty string
    label, a severity and a shape of the fixed sets, a size above zero, and a
    position object with numeric [x], [y], [z]. *)
Definition wellFormedRegion (region : ExportedRegion) : Prop :=
  (∃ c l, Exported.label region = JSString (c :: l))
  ∧ (∃ sev, Exported.severity region = JSString (severityName sev))
  ∧ (∃ t, Exported.type region = JSString (shapeName t))
  ∧ (∃ n, Exported.size region = JSNumber n ∧ (0 <? n)%float = true)
  ∧ (∃ props x y z,
       Exported.position region = JSObject props
       ∧ lookupProp props (js "x") = JSNumber x
       ∧ lookupProp props (js "y") = JSNumber y
       ∧ lookupProp props (js "z") = JSNumber z).

(** A payload entry the import format forbids, defect by defect. *)
Definition malformedRegion (region : ExportedRegion) : Prop :=
  (∀ l, Exported.label region ≠ JSString l)
  ∨ Exported.label region = JSString []
  ∨ (∀ sev, Exported.severity region ≠ JSString (severityName sev))
  ∨ (∀ t, Exported.type region ≠ JSString (shapeName t))
  ∨ (∀ n, Exported.size region ≠ JSNumber n)
  ∨ (∃ n, Exported.size region = JSNumber n ∧ (n <=? 0)%float = true)
  ∨ (∀ props, Exported.position region ≠ JSObject props)
  ∨ (∃ props k, Exported.position region = JSObject props
       ∧ k ∈ [js "x"; js "y"; js "z"] ∧ ∀ n, lookupProp props k ≠ JSNumber n).

Lemma includes_validSeverities v :
  includes validSeverities v = true ↔ ∃ sev, v = JSString (severityName sev).
Proof.
  split.
  - destruct v as [| | | |s| |]; try done. cbn [includes].
    intros Hin%bool_decide_eq_true. unfold validSeverities in Hin.
    rewrite !elem_of_cons in Hin. destruct Hin as [->|[->|[->|Hin]]].
    + by exists High.
    + by exists Medium.
    + by exists Low.
    + by apply elem_of_nil in Hin.
  - intros [[] ->]; vm_compute; reflexivity.
Qed.

Lemma includes_validTypes v :
  includes validTypes v = true ↔ ∃ t, v = JSString (shapeName t).
Proof.
  split.
  - destruct v as [| | | |s| |]; try done. cbn [includes].
    intros Hin%bool_decide_eq_true. unfold validTypes in Hin.
    rewrite !elem_of_cons in Hin. destruct Hin as [->|[->|[->|Hin]]].
    + by exists Cube.
    + by exists Sphere.
    + by exists NoneShape.
    + by apply elem_of_nil in Hin.
  - intros [[] ->]; vm_compute; reflexivity.
Qed.

Lemma typeof_number v : typeof v = TNumber ↔ ∃ n, v = JSNumber n.
Proof. split; [destruct v; try done; by eexists|by intros [n ->]]. Qed.

Lemma validateRegion_wellFormed region :
  wellFormedRegion region → validateRegion region = None.
Proof.
  intros ((c & l & Hlabel) & Hsev & Htype & (n & Hsize & Hpos) & (props & x & y & z & Hp & Hx & Hy & Hz)).
  unfold validateRegion. rewrite Hlabel. cbn [truthy typeof negb orb].
  rewrite bool_decide_eq_false_2 by done.
  rewrite bool_decide_eq_true_2 by done. cbn [negb orb].
  apply includes_validSeverities in Hsev. rewrite Hsev. cbn [negb].
  apply includes_validTypes in Htype. rewrite Htype. cbn [negb].
  rewrite Hsize. cbn [typeof leNumber]. rewrite bool_decide_eq_true_2 by done.
  rewrite (positive_not_le0 n Hpos). cbn [negb orb].
  rewrite Hp. cbn [truthy getProp negb orb]. by rewrite Hx, Hy, Hz.
Qed.

Lemma validateRegion_malformed region :
  malformedRegion region → is_Some (validateRegion region).
Proof.
  unfold validateRegion. intros Hbad.
  destruct (negb (truthy (Exported.label region))
            || negb (bool_decide (typeof (Exported.label region) = TString))) eqn:Hl;
    [by eexists|].
  apply orb_false_elim in Hl as [Hl1 Hl2].
  apply negb_false_iff in Hl1. apply negb_false_iff, bool_decide_eq_true in Hl2.
  destruct (Exported.label region) as [| | | |label| |] eqn:Hlabel; try done.
  destruct Hbad as [Hbad|Hbad]; [by destruct (Hbad label)|].
  destruct Hbad as [Hbad|Hbad]; [rewrite Hlabel in Hbad; by injection Hbad as ->|].
  destruct (includes validSeverities (Exported.severity region)) eqn:Hsev;
    cbn [negb]; [|by eexists].
  apply includes_validSeverities in Hsev as [sev Hsev].
  destruct Hbad as [Hbad|Hbad]; [by destruct (Hbad sev)|].
  destruct (includes validTypes (Exported.type region)) eqn:Htype;
    cbn [negb]; [|by eexists].
  apply includes_validTypes in Htype as [t Htype].
  destruct Hbad as [Hbad|Hbad]; [by destruct (Hbad t)|].
  destruct (negb (bool_decide (typeof (Exported.size region) = TNumber))
            || leNumber (Exported.size region) 0) eqn:Hs; [by eexists|].
  apply orb_false_elim in Hs as [Hs1 Hs2].
  apply negb_false_iff, bool_decide_eq_true, typeof_number in Hs1 as [n Hn].
  destruct Hbad as [Hbad|Hbad]; [by destruct (Hbad n)|].
  destruct Hbad as [(n' & Hn' & Hle)|Hbad].
  { rewrite Hn' in Hs2. cbn [leNumber] in Hs2. congruence. }
  destruct (negb (truthy (Exported.position region)) || _ || _ || _) eqn:Hp;
    [by eexists|].
  apply orb_false_elim in Hp as [Hp Hz]. apply orb_false_elim in Hp as [Hp Hy].
  apply orb_false_elim in Hp as [Hp Hx].
  apply negb_false_iff, bool_decide_eq_true, typeof_number in Hx as [x Hx].
  apply negb_false_iff, bool_decide_eq_true, typeof_number in Hy as [y Hy].
  apply negb_false_iff, bool_decide_eq_true, typeof_number in Hz as [z Hz].
  destruct (Exported.position region) as [| | | | |props|] eqn:Hpos; try done.
  destruct Hbad as [Hbad|(props' & k & [= <-] & Hk & Hbad)]; [by destruct (Hbad props)|].
  cbn [getProp] in Hx, Hy, Hz. rewrite !elem_of_cons in Hk.
  destruct Hk as [->|[->|[->|Hk]]]; [by destruct (Hbad x)|by destruct (Hbad y)|
                                     by destruct (Hbad z)|by apply elem_of_nil in Hk].
Qed.

Lemma validateRegions_wellFormed rs :
  Forall wellFormedRegion rs → validateRegions rs = None.
Proof.
  induction 1 as [|region rs Hr _ IH]; [done|].
  cbn [validateRegions]. by rewrite (validateRegion_wellFormed region Hr).
Qed.

Lemma validateRegions_malformed rs :
  Exists malformedRegion rs → is_Some (validateRegions rs).
Proof.
  induction 1 as [region rs Hr|region rs _ IH]; cbn [validateRegions].
  - by destruct (validateRegion_malformed region Hr) as [e ->].
  - by destruct (validateRegion region).
Qed.

(** The value correspondence between a payload entry and a stored region:
    every serialized field but [id] carries the same value (vectors by
    coordinate). *)
Definition carries (region : ExportedRegion) (stored : SavedHighlightRegion) : Prop :=
  Exported.label region = JSString (Region.label stored)
  ∧ Exported.severity region = JSString (severityName (Region.severity stored))
  ∧ Exported.type region = JSString (shapeName (Region.type stored))
  ∧ Exported.size region = JSNumber (Region.size stored)
  ∧ getProp (Exported.position region) (js "x") = JSNumber (V3.x (Region.position stored))
  ∧ getProp (Exported.position region) (js "y") = JSNumber (V3.y (Region.position stored))
  ∧ getProp (Exported.position region) (js "z") = JSNumber (V3.z (Region.position stored))
  ∧ Exported.defectData region = Region.defectData stored
  ∧ Exported.cameraPosition region = Region.cameraPosition stored
  ∧ Exported.cameraTarget region = Region.cameraTarget stored
  ∧ Exported.normal region = Region.normal stored
  ∧ Exported.decalTextureId region = Region.decalTextureId stored
  ∧ Exported.notes region = Region.notes stored
  ∧ Exported.evidence region = Region.evidence stored.

(** The regions the import loop appends for the payload [rs] when the next
    UUID to be drawn is the [k]-th. *)
Fixpoint importedFrom (host : Host) (k : nat) (rs : list ExportedRegion)
  : list SavedHighlightRegion :=
  match rs with
  | [] => []
  | region :: rest =>
    importedRegion (randomUUID host k) region :: importedFrom host (S k) rest
  end.

Lemma asSeverity_name sev : asSeverity (JSString (severityName sev)) = sev.
Proof. by destruct sev. Qed.

Lemma asShapeType_name t : asShapeType (JSString (shapeName t)) = t.
Proof. by destruct t. Qed.

Lemma asVector3_xyz v : asVector3 (xyz v) = v.
Proof. by destruct v. Qed.

Lemma carries_sameButDecal region a b :
  sameButDecal a b → carries region a → carries region b.
Proof.
  unfold sameButDecal. destruct a, b. cbn. intros [= <- <- <- <- <- <- <- <- <- <- <- <- <-].
  done.
Qed.

Lemma carries_importedRegion newId region :
  wellFormedRegion region → carries region (importedRegion newId region).
Proof.
  intros ((c & l & Hlabel) & (sev & Hsev) & (t & Htype) & (n & Hsize & _)
          & (props & x & y & z & Hp & Hx & Hy & Hz)).
  unfold carries, importedRegion. cbn -[js asSeverity asShapeType].
  rewrite Hlabel, Hsev, Htype, Hsize, Hp. cbn -[js asSeverity asShapeType].
  rewrite asSeverity_name, asShapeType_name, Hx, Hy, Hz. by repeat split.
Qed.

Lemma importedFrom_length host k rs : length (importedFrom host k rs) = length rs.
Proof. revert k. induction rs as [|r rs IH]; intros k; [done|]. cbn. by rewrite IH. Qed.

Lemma importedFrom_ids host k rs :
  Region.id <$> importedFrom host k rs = randomUUID host <$> seq k (length rs).
Proof. revert k. induction rs as [|r rs IH]; intros k; [done|]. cbn. by rewrite IH. Qed.

Lemma importedFrom_carries host k rs :
  Forall wellFormedRegion rs → Forall2 carries rs (importedFrom host k rs).
Proof.
  intros Hrs. revert k. induction Hrs as [|r rs Hr _ IH]; intros k; [constructor|].
  cbn. constructor; [by apply carries_importedRegion|apply IH].
Qed.

Section ImportLemmas.
Variable host : Host.

Lemma importLoop_spec rs s :
  savedRegions (importLoop host rs s)
    = savedRegions s ++ importedFrom host (uuidCount s) rs
  ∧ uuidCount (importLoop host rs s) = uuidCount s + length rs.
Proof.
  revert s. induction rs as [|r rs IH]; intros s.
  - cbn. by rewrite app_nil_r, Nat.add_0_r.
  - cbn [importLoop generateId]. destruct (IH
      (set_savedRegions
         (savedRegions (set_uuidCount (S (uuidCount s)) s)
            ++ [importedRegion (randomUUID host (uuidCount s)) r])
         (set_uuidCount (S (uuidCount s)) s))) as [Hr Hu].
    rewrite Hr, Hu. cbn. rewrite <- app_assoc. split; [done|lia].
Qed.

Lemma recreateDecals_spec rs s :
  Forall2 sameButDecal rs (recreateDecals host rs s).1
  ∧ uuidCount (recreateDecals host rs s).2 = uuidCount s.
Proof.
  revert s. induction rs as [|r rs IH]; intros s; [by split; [constructor|]|].
  cbn [recreateDecals].
  set (step := match requestsDecal (Region.decalTextureId r) with
               | Some _ => _ | None => _ end).
  assert (Hstep : sameButDecal r step.1 ∧ uuidCount step.2 = uuidCount s).
  { subst step. destruct (requestsDecal (Region.decalTextureId r)); [|done].
    destruct (Region.normal r); [|done].
    destruct (updateDecalMesh_store host r s) as (? & _ & ?). done. }
  destruct step as [r' s1]. cbn [fst snd] in Hstep. destruct Hstep as [Hr Hu].
  destruct (IH s1) as [Hrs Hu']. destruct (recreateDecals host rs s1) as [rs' s2].
  cbn [fst snd] in *. split; [by constructor|congruence].
Qed.

Lemma clearOcclusionState_store s :
  savedRegions (clearOcclusionState s) = savedRegions s
  ∧ uuidCount (clearOcclusionState s) = uuidCount s.
Proof. unfold clearOcclusionState. by destruct (gl s). Qed.

(** A payload that fails the checks is refused and the viewer is untouched. *)
Lemma importRegions_rejects data replace s :
  strictNeNumber (version data) 1 = true
  ∨ regions data = None
  ∨ (∃ rs, regions data = Some rs ∧ is_Some (validateRegions rs)) →
  ∃ e, importRegions host data replace s = (inl e, s).
Proof.
  unfold importRegions. intros Hcase.
  destruct (strictNeNumber (version data) 1); [by eexists|].
  destruct (regions data) as [rs|]; [|by eexists].
  destruct Hcase as [?|[?|(rs' & [= <-] & [e He])]]; [done..|].
  rewrite He. by eexists.
Qed.

(** A payload that passes the checks is imported whole. *)
Lemma importRegions_accepts data replace s rs :
  strictNeNumber (version data) 1 = false → regions data = Some rs →
  validateRegions rs = None →
  ∃ s',
    importRegions host data replace s = (inr (length rs), s')
    ∧ Forall2 sameButDecal
        ((if replace then [] else savedRegions s) ++ importedFrom host (uuidCount s) rs)
        (savedRegions s')
    ∧ uuidCount s' = uuidCount s + length rs.
Proof.
  intros Hversion Hregions Hvalid. unfold importRegions.
  rewrite Hversion, Hregions, Hvalid.
  set (s1 := if replace then clearOcclusionState (set_savedRegions [] s) else s).
  assert (Hs1 : savedRegions s1 = (if replace then [] else savedRegions s)
                ∧ uuidCount s1 = uuidCount s).
  { subst s1. destruct replace; [|done].
    by destruct (clearOcclusionState_store (set_savedRegions [] s)) as [-> ->]. }
  destruct Hs1 as [Hr1 Hu1].
  destruct (importLoop_spec rs s1) as [Hr2 Hu2]. rewrite Hr1, Hu1 in Hr2. rewrite Hu1 in Hu2.
  destruct (recreateDecals_spec (savedRegions (importLoop host rs s1)) (importLoop host rs s1))
    as [Hr3 Hu3].
  destruct (recreateDecals host _ _) as [updated s3]. cbn [fst snd] in *.
  eexists. split; [reflexivity|]. cbn. split; [by rewrite <- Hr2|congruence].
Qed.

End ImportLemmas.

Lemma eqb_one (m : float) : (m =? 1)%float = true → m = 1%float.
Proof.
  rewrite FloatAxioms.eqb_spec. intros Heq. apply Prim2SF_inj. revert Heq.
  change (Prim2SF 1) with (S754_finite false 4503599627370496 (-52)).
  unfold SFeqb, SFcompare. destruct (Prim2SF m) as [[]|[]| |[] mm e]; try done.
  destruct (Z.compare_spec e (-52)) as [->| |]; try done.
  destruct (Pos.compare_cont Eq mm 4503599627370496) eqn:Hm; try done.
  by apply Pcompare_Eq_eq in Hm as ->.
Qed.

Lemma strictNeNumber_one v : v ≠ JSNumber 1 → strictNeNumber v 1 = true.
Proof.
  destruct v as [| | |m| | |]; try done. intros Hne. cbn [strictNeNumber].
  destruct (m =? 1)%float eqn:Heq; [|done]. apply eqb_one in Heq. by subst.
Qed.

Section ImportTheorems.
Variable host : Host.

(** C2. Whatever the store holds, [importRegions] throws and leaves the viewer
    exactly as it was (nothing is imported, nothing is removed) whenever the
    payload's version is not the number 1, or its region list is not an array,
    or some region of the payload is malformed: a label that is missing, not a
    string or empty, a severity outside high / medium / low, a shape outside
    cube / sphere / none, a size that is not a number or is at or below zero,
    a position that is not an object with numeric x, y and z. *)
Theorem importRegions_invalid_payload_no_mutation
    (data : RegionsExportData) (replace : bool) (s : Model3DViewer) :
  version data ≠ JSNumber 1
  ∨ regions data = None
  ∨ (∃ rs, regions data = Some rs ∧ Exists malformedRegion rs) →
  ∃ e, importRegions host data replace s = (inl e, s).
Proof.
  intros Hcase. apply importRegions_rejects.
  destruct Hcase as [Hv|[Hr|(rs & Hr & Hbad)]].
  - left. by apply strictNeNumber_one.
  - by right; left.
  - right; right. exists rs. split; [done|]. by apply validateRegions_malformed.
Qed.

(** C7. A valid payload imported in replace mode: the call returns the number
    of payload regions; the store afterwards holds exactly one region per
    payload entry, in payload order and with the entry's field values, and
    nothing of what it held before; the ids of the stored regions are the next
    UUIDs drawn from the generator, one per entry, so none of them is an id
    carried in the payload (nor an id of the replaced store) as long as the
    generator does not emit such a string. *)
Theorem importRegions_replace_exactly_imported_fresh_ids
    (data : RegionsExportData) (rs : list ExportedRegion) (s : Model3DViewer) :
  version data = JSNumber 1 → regions data = Some rs → Forall wellFormedRegion rs →
  ∃ s',
    importRegions host data true s = (inr (length rs), s')
    ∧ length (savedRegions s') = length rs
    ∧ Forall2 carries rs (savedRegions s')
    ∧ Region.id <$> savedRegions s' = randomUUID host <$> seq (uuidCount s) (length rs)
    ∧ ((∀ k, JSString (randomUUID host k) ∉ Exported.id <$> rs) →
         Forall (fun r => JSString (Region.id r) ∉ Exported.id <$> rs) (savedRegions s'))
    ∧ ((∀ k, randomUUID host k ∉ Region.id <$> savedRegions s) →
         Forall (fun r => Region.id r ∉ Region.id <$> savedRegions s) (savedRegions s')).
Proof.
  intros Hversion Hregions Hvalid.
  destruct (importRegions_accepts host data true s rs) as (s' & Himport & Hsame & Hu).
  { by rewrite Hversion. }
  { done. }
  { by apply validateRegions_wellFormed. }
  cbn [app] in Hsame.
  assert (Hids : Region.id <$> savedRegions s'
                 = randomUUID host <$> seq (uuidCount s) (length rs)).
  { rewrite <- importedFrom_ids. clear -Hsame.
    induction Hsame as [|a b l l' Hab _ IH]; [done|]. cbn. rewrite IH. f_equal.
    unfold sameButDecal in Hab. apply (f_equal Region.id) in Hab. by destruct a, b. }
  assert (Hdrawn : ∀ r, r ∈ savedRegions s' → ∃ k, Region.id r = randomUUID host k).
  { intros r Hr. apply (list_elem_of_fmap_2 Region.id) in Hr. rewrite Hids in Hr.
    apply list_elem_of_fmap in Hr as (k & -> & _). by exists k. }
  exists s'. split; [done|]. split.
  { apply Forall2_length in Hsame. by rewrite <- Hsame, importedFrom_length. }
  split.
  { pose proof (importedFrom_carries host (uuidCount s) rs Hvalid) as Hc.
    clear -Hc Hsame. revert Hsame. generalize (savedRegions s').
    induction Hc as [|region a rs' l Hra _ IH]; intros l' Hsame.
    - inversion Hsame. constructor.
    - inversion Hsame as [|? b ? l'' Hab Hrest]; subst. constructor; [|by apply IH].
      by eapply carries_sameButDecal. }
  split; [done|]. split.
  - intros Hfresh. apply Forall_forall. intros r Hr.
    destruct (Hdrawn r Hr) as [k ->]. apply Hfresh.
  - intros Hfresh. apply Forall_forall. intros r Hr.
    destruct (Hdrawn r Hr) as [k ->]. apply Hfresh.
Qed.

End ImportTheorems.

(** A payload entry with the given id, label, severity, shape and size, placed
    at (1,2,3), with notes and no other optional field. *)
Definition sampleEntry (id label sev shape : string) (size : float) : ExportedRegion :=
  Exported.mk (JSString (js id)) (JSString (js label)) (JSString (js sev))
    (JSString (js shape)) (JSNumber size) (xyz (V3.mk 1 2 3))
    None None None None None (Some (js "checked")) None.

(** Scenario B's payload: three valid regions. *)
Definition threeRegions : RegionsExportData :=
  {| version := JSNumber 1; exportedAt := js "2026-01-01T00:00:00.000Z";
     regions := Some [sampleEntry "a" "Crack" "high" "cube" 0.5;
                      sampleEntry "b" "Rust" "medium" "sphere" 0.25;
                      sampleEntry "c" "Mark" "low" "none" 1] |}.

(** The same payload under another format version. *)
Definition versionTwo : RegionsExportData :=
  {| version := JSNumber 2; exportedAt := exportedAt threeRegions;
     regions := regions threeRegions |}.

(** Scenario B's store: two regions saved one after the other. *)
Definition twoRegionStore : Model3DViewer :=
  (saveCurrentRegion sampleHost (js "Dent") None None None None None None
     savedScratch.2).2.

Lemma importRegions_invalid_payload_no_mutation_witness :
  ∃ e, importRegions sampleHost versionTwo true twoRegionStore = (inl e, twoRegionStore).
Proof.
  apply (importRegions_invalid_payload_no_mutation sampleHost versionTwo true twoRegionStore).
  left. vm_compute. discriminate.
Defined.

(** An entry of size zero, and one without a label, sink the whole batch. *)
Example importRegions_rejects_examples :
  importRegions sampleHost
    {| version := JSNumber 1; exportedAt := [];
       regions := Some [sampleEntry "a" "Crack" "high" "cube" 0.5;
                        sampleEntry "b" "Rust" "medium" "sphere" 0] |}
    false twoRegionStore = (inl InvalidSize, twoRegionStore)
  ∧ importRegions sampleHost
      {| version := JSNumber 1; exportedAt := [];
         regions := Some [sampleEntry "a" "" "high" "cube" 0.5] |}
      true twoRegionStore = (inl LabelRequired, twoRegionStore).
Proof. split; vm_compute; reflexivity. Qed.

Lemma sampleEntry_wellFormed id label sev shape size :
  label ≠ EmptyString → (∃ s, JSString (js sev) = JSString (severityName s)) →
  (∃ t, JSString (js shape) = JSString (shapeName t)) → (0 <? size)%float = true →
  wellFormedRegion (sampleEntry id label sev shape size).
Proof.
  intros Hlabel Hsev Hshape Hsize. unfold wellFormedRegion, sampleEntry. cbn -[js].
  repeat split; try done.
  - destruct label as [|a label]; [done|]. by eexists _, _.
  - by exists size.
  - by eexists _, 1%float, 2%float, 3%float.
Qed.

Lemma importRegions_replace_exactly_imported_fresh_ids_witness :
  ∃ s',
    importRegions sampleHost threeRegions true twoRegionStore = (inr 3, s')
    ∧ length (savedRegions s') = 3
    ∧ Forall2 carries
        [sampleEntry "a" "Crack" "high" "cube" 0.5;
         sampleEntry "b" "Rust" "medium" "sphere" 0.25;
         sampleEntry "c" "Mark" "low" "none" 1] (savedRegions s')
    ∧ Region.id <$> savedRegions s' = [js "uuid-2"; js "uuid-3"; js "uuid-4"]
    ∧ ((∀ k, JSString (randomUUID sampleHost k)
             ∉ [JSString (js "a"); JSString (js "b"); JSString (js "c")]) →
         Forall (fun r => JSString (Region.id r)
                          ∉ [JSString (js "a"); JSString (js "b"); JSString (js "c")])
           (savedRegions s'))
    ∧ ((∀ k, randomUUID sampleHost k ∉ Region.id <$> savedRegions twoRegionStore) →
         Forall (fun r => Region.id r ∉ Region.id <$> savedRegions twoRegionStore)
           (savedRegions s')).
Proof.
  apply (importRegions_replace_exactly_imported_fresh_ids sampleHost threeRegions
           [sampleEntry "a" "Crack" "high" "cube" 0.5;
            sampleEntry "b" "Rust" "medium" "sphere" 0.25;
            sampleEntry "c" "Mark" "low" "none" 1] twoRegionStore).
  - reflexivity.
  - reflexivity.
  - apply Forall_cons_2;
      [apply sampleEntry_wellFormed; [done|by exists High|by exists Cube|reflexivity]|].
    apply Forall_cons_2;
      [apply sampleEntry_wellFormed; [done|by exists Medium|by exists Sphere|reflexivity]|].
    apply Forall_cons_2;
      [apply sampleEntry_wellFormed; [done|by exists Low|by exists NoneShape|reflexivity]|].
    apply Forall_nil_2.
Defined.

(** Scenario B, evaluated: the store of two becomes a store of exactly the
    three imported regions, under newly drawn ids. *)
Example scenarioB :
  Info.id <$> getRegions twoRegionStore = [js "uuid-0"; js "uuid-1"]
  ∧ (importRegions sampleHost threeRegions true twoRegionStore).1 = inr 3
  ∧ (fun r => (Info.id r, Info.label r))
      <$> getRegions (importRegions sampleHost threeRegions true twoRegionStore).2
    = [(js "uuid-2", js "Crack"); (js "uuid-3", js "Rust"); (js "uuid-4", js "Mark")].
Proof. repeat split; vm_compute; reflexivity. Qed.

(** ** Export followed by import *)

(** A region reproduced by value: every field but the id and the decal
    renderable is the same. *)
Definition reproduces (original copy : SavedHighlightRegion) : Prop :=
  Region.label copy = Region.label original
  ∧ Region.severity copy = Region.severity original
  ∧ Region.type copy = Region.type original
  ∧ Region.size copy = Region.size original
  ∧ Region.position copy = Region.position original
  ∧ Region.defectData copy = Region.defectData original
  ∧ Region.cameraPosition copy = Region.cameraPosition original
  ∧ Region.cameraTarget copy = Region.cameraTarget original
  ∧ Region.normal copy = Region.normal original
  ∧ Region.decalTextureId copy = Region.decalTextureId original
  ∧ Region.notes copy = Region.notes original
  ∧ Region.evidence copy = Region.evidence original.

(** Exporting the store and importing the result in replace mode succeeds and
    reproduces the regions, one for one and in order. *)
Definition roundTrips (host : Host) (now : jsstring) (s : Model3DViewer) : Prop :=
  ∃ n s',
    importRegions host (exportRegions now s) true s = (inr n, s')
    ∧ Forall2 reproduces (savedRegions s) (savedRegions s').

(** A region whose export passes the import checks: its label is not empty
    and its size is not at or below zero. *)
Definition importable (r : SavedHighlightRegion) : Prop :=
  Region.label r ≠ [] ∧ (Region.size r <=? 0)%float = false.

(** A store holding one region whose label was edited to the empty string. *)
Definition emptyLabelStore : Model3DViewer :=
  (updateRegion sampleHost (js "uuid-0")
     (Updates.mk (Some []) None None None None None None None None None)
     savedScratch.2).2.

Lemma validateRegion_exportRegion r :
  importable r → validateRegion (exportRegion r) = None.
Proof.
  intros [Hlabel Hsize]. unfold validateRegion, exportRegion.
  cbn [Exported.label Exported.severity Exported.type Exported.size
       Exported.position truthy typeof leNumber].
  rewrite (bool_decide_eq_false_2 (Region.label r = [])) by done.
  rewrite (proj2 (includes_validSeverities _)) by by eexists.
  rewrite (proj2 (includes_validTypes _)) by by eexists.
  rewrite Hsize. by destruct (Region.position r).
Qed.

Lemma importedRegion_exportRegion newId r :
  importedRegion newId (exportRegion r)
  = Region.set_decalMesh None
      (Region.mk newId (Region.position r) (Region.size r) (Region.type r)
         (Region.severity r) (Region.label r) (Region.defectData r)
         (Region.cameraPosition r) (Region.cameraTarget r) (Region.normal r)
         (Region.decalTextureId r) (Region.decalMesh r) (Region.notes r)
         (Region.evidence r)).
Proof.
  unfold importedRegion, exportRegion. cbn -[js asSeverity asShapeType asVector3 xyz].
  by rewrite asSeverity_name, asShapeType_name, asVector3_xyz.
Qed.

Lemma reproduces_sameButDecal original a b :
  sameButDecal a b → reproduces original a → reproduces original b.
Proof.
  unfold sameButDecal. destruct a, b. cbn. intros [= <- <- <- <- <- <- <- <- <- <- <- <- <-].
  done.
Qed.

Lemma importedFrom_reproduces host k rs :
  Forall2 reproduces rs (importedFrom host k (exportRegion <$> rs)).
Proof.
  revert k. induction rs as [|r rs IH]; intros k; [constructor|].
  cbn [fmap list_fmap importedFrom]. constructor; [|apply IH].
  rewrite importedRegion_exportRegion. by repeat split.
Qed.

Section RoundTrip.
Variable host : Host.

(** C3, amended. For every store whose regions each have a non-empty label
    and a size that is not at or below zero, exporting and then importing the
    result in replace mode succeeds and leaves one region per original region,
    in order, with the same label, severity, shape, size, position, defect
    reference, camera position and target, surface normal, decal kind, notes
    and evidence; the ids are newly drawn and the decal renderables are
    rebuilt. *)
Theorem export_import_reproduces_importable_regions (now : jsstring) (s : Model3DViewer) :
  Forall importable (savedRegions s) →
  roundTrips host now s
  ∧ ∃ s', importRegions host (exportRegions now s) true s
            = (inr (length (savedRegions s)), s')
          ∧ Region.id <$> savedRegions s'
            = randomUUID host <$> seq (uuidCount s) (length (savedRegions s)).
Proof.
  intros Hok.
  destruct (importRegions_accepts host (exportRegions now s) true s
              (exportRegion <$> savedRegions s)) as (s' & Himport & Hsame & Hu).
  { reflexivity. }
  { reflexivity. }
  { clear -Hok. induction Hok as [|r rs Hr _ IH]; [done|].
    cbn [fmap list_fmap validateRegions]. by rewrite validateRegion_exportRegion. }
  rewrite length_fmap in Himport. cbn [app] in Hsame.
  assert (Hrep : Forall2 reproduces (savedRegions s) (savedRegions s')).
  { pose proof (importedFrom_reproduces host (uuidCount s) (savedRegions s)) as Hc.
    clear -Hc Hsame. revert Hsame. generalize (savedRegions s').
    induction Hc as [|r a rs l Hra _ IH]; intros l' Hsame.
    - inversion Hsame. constructor.
    - inversion Hsame as [|? b ? l'' Hab Hrest]; subst. constructor; [|by apply IH].
      by eapply reproduces_sameButDecal. }
  split; [by exists (length (savedRegions s)), s'|].
  exists s'. split; [done|].
  rewrite <- (length_fmap exportRegion), <- importedFrom_ids. clear -Hsame.
  induction Hsame as [|a b l l' Hab _ IH]; [done|]. cbn. rewrite IH. f_equal.
  unfold sameButDecal in Hab. apply (f_equal Region.id) in Hab. by destruct a, b.
Qed.

End RoundTrip.

Lemma export_import_reproduces_importable_regions_witness :
  roundTrips sampleHost (js "2026-01-01") twoRegionStore
  ∧ ∃ s', importRegions sampleHost (exportRegions (js "2026-01-01") twoRegionStore) true
            twoRegionStore = (inr 2, s')
          ∧ Region.id <$> savedRegions s' = [js "uuid-2"; js "uuid-3"].
Proof.
  assert (Hok : Forall importable (savedRegions twoRegionStore)).
  { vm_compute. repeat (apply Forall_cons_2; [split; [discriminate|reflexivity]|]).
    apply Forall_nil_2. }
  vm_cast_no_check
    (export_import_reproduces_importable_regions sampleHost (js "2026-01-01")
       twoRegionStore Hok).
Defined.

(** C3 as stated fails: the store [emptyLabelStore], reached by saving a region
    and editing its label to the empty string, exports a payload that
    [importRegions] refuses, so nothing is reproduced. *)
Lemma export_import_rejects_empty_label :
  Region.label <$> savedRegions emptyLabelStore = [[]]
  ∧ importRegions sampleHost (exportRegions (js "2026-01-01") emptyLabelStore) true
      emptyLabelStore = (inl LabelRequired, emptyLabelStore)
  ∧ ¬ roundTrips sampleHost (js "2026-01-01") emptyLabelStore.
Proof.
  assert (Himport :
    importRegions sampleHost (exportRegions (js "2026-01-01") emptyLabelStore) true
      emptyLabelStore = (inl LabelRequired, emptyLabelStore))
    by (vm_compute; reflexivity).
  split; [vm_compute; reflexivity|]. split; [exact Himport|].
  intros (n & s' & Hok & _). rewrite Himport in Hok. discriminate.
Qed.

(** ** Sizes *)

(** The store invariant of the data model: every saved region has a size above
    zero. *)
Definition positiveSizes (s : Model3DViewer) : Prop :=
  Forall (fun r => (0 <? Region.size r)%float = true) (savedRegions s).

(** Scenario B's store after its first region is given the size -1. *)
Definition negativeSizeStore : Model3DViewer :=
  (updateRegion sampleHost (js "uuid-0")
     (Updates.mk None None None (Some (-1)%float) None None None None None None)
     twoRegionStore).2.

Lemma sameButDecal_fields a b :
  sameButDecal a b →
  Region.id b = Region.id a ∧ Region.size b = Region.size a
  ∧ Region.label b = Region.label a.
Proof.
  unfold sameButDecal. destruct a, b. cbn. by intros [= <- <- <- <- <- <- <- <- <- <- <- <- <-].
Qed.

Section UpdateLemmas.
Variable host : Host.

Lemma updateDecalMesh_keeps r s r' s' :
  updateDecalMesh host r s = (r', s') →
  sameButDecal r r' ∧ savedRegions s' = savedRegions s.
Proof.
  intros Heq. destruct (updateDecalMesh_store host r s) as (Hr & Hs & _).
  rewrite Heq in Hr, Hs. done.
Qed.

(** [updateRegion] writes the size it is given into the region, whatever the
    number is. *)
Lemma updateRegion_stores_size id v updates s index region :
  list_find (fun r => Region.id r = id) (savedRegions s) = Some (index, region) →
  Updates.size updates = Some v →
  ∃ region' s',
    updateRegion host id updates s = (true, s')
    ∧ savedRegions s' = <[index := region']> (savedRegions s)
    ∧ Region.size region' = v
    ∧ Region.id region' = id.
Proof.
  intros Hfind Hsize. unfold updateRegion. rewrite Hfind, Hsize. cbv zeta.
  apply list_find_Some in Hfind as (_ & Hid & _).
  set (r3 := Region.set_size v _).
  assert (H3 : Region.id r3 = id ∧ Region.size r3 = v).
  { subst r3. unfold patch. split; [|done].
    by destruct (Updates.type updates), (Updates.severity updates), (Updates.label updates). }
  destruct (match Region.decalMesh r3 with Some _ => _ | None => _ end)
    as [r4 s4] eqn:E4.
  assert (H4 : (Region.id r4 = id ∧ Region.size r4 = v) ∧ savedRegions s4 = savedRegions s).
  { destruct (Region.decalMesh r3); [|destruct (requestsDecal _)].
    - apply updateDecalMesh_keeps in E4 as [(-> & -> & _)%sameButDecal_fields ->]. done.
    - apply updateDecalMesh_keeps in E4 as [(-> & -> & _)%sameButDecal_fields ->]. done.
    - by injection E4 as <- <-. }
  destruct H4 as [H4 Hs4].
  destruct (match Updates.decalTextureId updates with Some _ => _ | None => _ end)
    as [r5 s5] eqn:E5.
  assert (H5 : (Region.id r5 = id ∧ Region.size r5 = v) ∧ savedRegions s5 = savedRegions s).
  { destruct (Updates.decalTextureId updates).
    - apply updateDecalMesh_keeps in E5 as [(-> & -> & _)%sameButDecal_fields ->]. done.
    - by injection E5 as <- <-. }
  destruct H5 as [[Hid5 Hsize5] Hs5].
  eexists _, _. split; [reflexivity|]. cbn [savedRegions invalidateLabelPositions
    set_needsLabelUpdate set_savedRegions]. rewrite Hs5. split; [done|].
  unfold patch.
  by destruct (Updates.evidence updates), (Updates.notes updates),
    (Updates.cameraTarget updates), (Updates.cameraPosition updates),
    (Updates.defectData updates).
Qed.

End UpdateLemmas.

(** C5 at a failing input. The two-region store satisfies the size invariant;
    [updateRegion] with the size -1 answers [true] and leaves a region of size
    -1 in the store, which breaks the invariant. The same holds for every
    number handed to [updateRegion] ([updateRegion_stores_size]), whereas
    [importRegions] refuses the very same size. *)
Theorem updateRegion_accepts_negative_size :
  positiveSizes twoRegionStore
  ∧ (updateRegion sampleHost (js "uuid-0")
       (Updates.mk None None None (Some (-1)%float) None None None None None None)
       twoRegionStore).1 = true
  ∧ Region.size <$> savedRegions negativeSizeStore = [(-1)%float; 0.05%float]
  ∧ ¬ positiveSizes negativeSizeStore
  ∧ (importRegions sampleHost
       {| version := JSNumber 1; exportedAt := [];
          regions := Some [sampleEntry "a" "Crack" "high" "cube" (-1)] |}
       false twoRegionStore).1 = inl InvalidSize.
Proof.
  split; [|split; [|split; [|split]]].
  - vm_compute. repeat (apply Forall_cons_2; [reflexivity|]). apply Forall_nil_2.
  - vm_compute. reflexivity.
  - vm_compute. reflexivity.
  - unfold positiveSizes. intros Hall.
    assert (Hsizes : Forall (fun v => (0 <? v)%float = true)
                       (Region.size <$> savedRegions negativeSizeStore)).
    { by apply Forall_fmap. }
    replace (Region.size <$> savedRegions negativeSizeStore)
      with [(-1)%float; 0.05%float] in Hsizes by (vm_compute; reflexivity).
    apply Forall_cons_1 in Hsizes as [Hneg _]. vm_compute in Hneg. discriminate.
  - vm_compute. reflexivity.
Qed.

(** ** Deleting a region *)

(** Queries exist only on a WebGL 2 context: without one, both occlusion maps
    are empty ([runOcclusionQueries], their only writer, returns at once). *)
Definition queriesNeedContext (s : Model3DViewer) : Prop :=
  gl s = false → occlusionQueries s = ∅ ∧ occlusionResults s = ∅.

(** Scenario D's store: the saved region owns decal mesh 0, and the first
    occlusion query for it has answered. *)
Definition decalStore : Model3DViewer :=
  set_occlusionResults {[0 := true]} (set_occlusionQueries {[0 := 7]} savedScratch.2).

Lemma list_find_split {A} (P : A → Prop) `{∀ x, Decision (P x)} (l : list A) i x :
  list_find P l = Some (i, x) →
  l = take i l ++ x :: drop (S i) l ∧ P x ∧ Forall (fun y => ¬ P y) (take i l).
Proof.
  intros (Hi & HP & Hbefore)%list_find_Some. split; [by rewrite take_drop_middle|].
  split; [done|]. apply Forall_forall. intros y Hy.
  apply list_elem_of_lookup in Hy as [j Hj].
  pose proof (lookup_lt_Some _ _ _ Hj) as Hlt. rewrite length_take in Hlt.
  rewrite lookup_take_lt in Hj by lia. apply (Hbefore j y); [done|lia].
Qed.

Lemma clearOcclusionState_clears s :
  queriesNeedContext s →
  occlusionQueries (clearOcclusionState s) = ∅
  ∧ occlusionResults (clearOcclusionState s) = ∅
  ∧ (∀ i q, occlusionQueries s !! i = Some q → q ∈ deletedQueries (clearOcclusionState s))
  ∧ scene (clearOcclusionState s) = scene s
  ∧ disposed (clearOcclusionState s) = disposed s.
Proof.
  intros Hctx. unfold clearOcclusionState. destruct (gl s) eqn:Hgl.
  - repeat split; try done. intros i q Hq. cbn.
    apply elem_of_union_l, elem_of_list_to_set, list_elem_of_fmap.
    exists (i, q). split; [done|]. by apply elem_of_map_to_list.
  - destruct (Hctx Hgl) as [Hq Hr]. repeat split; try done.
    intros i q. by rewrite Hq, lookup_empty.
Qed.

(** C9. For an id present in the store, [deleteRegion] answers [true]; the
    first region carrying the id is taken out of the store and of the
    [getRegions] output, every other region staying in place (with unique ids
    no entry of that id is left); a decal mesh the region owns is removed from
    the scene and disposed; the occlusion queries are given back to the GPU
    and both occlusion maps are emptied. For an id not in the store it answers
    [false] and the viewer is unchanged. *)
Theorem deleteRegion_removes_region_and_releases (id : jsstring) (s : Model3DViewer) :
  (id ∈ Region.id <$> savedRegions s → queriesNeedContext s →
     ∃ before region after s',
       savedRegions s = before ++ region :: after
       ∧ Region.id region = id
       ∧ (id ∉ Region.id <$> before)
       ∧ deleteRegion id s = (true, s')
       ∧ savedRegions s' = before ++ after
       ∧ (NoDup (Region.id <$> savedRegions s) → id ∉ Info.id <$> getRegions s')
       ∧ (∀ m, Region.decalMesh region = Some m → (m ∉ scene s') ∧ m ∈ disposed s')
       ∧ occlusionQueries s' = ∅
       ∧ occlusionResults s' = ∅
       ∧ (∀ i q, occlusionQueries s !! i = Some q → q ∈ deletedQueries s'))
  ∧ (id ∉ Region.id <$> savedRegions s → deleteRegion id s = (false, s)).
Proof.
  split.
  - intros Hin Hctx. unfold deleteRegion.
    destruct (list_find (fun r => Region.id r = id) (savedRegions s))
      as [[index region]|] eqn:Hfind; cycle 1.
    { apply list_find_None in Hfind. apply list_elem_of_fmap in Hin as (r & -> & Hr).
      rewrite Forall_forall in Hfind. by destruct (Hfind r Hr). }
    apply list_find_split in Hfind as (Hsplit & Hid & Hbefore).
    set (s1 := match Region.decalMesh region with
               | Some m => releaseDecal m s | None => s end).
    assert (Hs1 : savedRegions s1 = savedRegions s ∧ gl s1 = gl s
                  ∧ occlusionQueries s1 = occlusionQueries s
                  ∧ occlusionResults s1 = occlusionResults s
                  ∧ ∀ m, Region.decalMesh region = Some m →
                         (m ∉ scene s1) ∧ m ∈ disposed s1).
    { subst s1. destruct (Region.decalMesh region) as [m|]; [|done].
      do 4 (split; [done|]). intros m' [= <-]. cbn. split.
      - intros [_ Hm]%elem_of_difference. apply Hm. by apply elem_of_singleton.
      - by apply elem_of_union_l, elem_of_singleton. }
    destruct Hs1 as (Hr1 & Hgl1 & Hq1 & Hres1 & Hdecal).
    set (s2 := set_savedRegions (delete index (savedRegions s1)) s1).
    assert (Hctx2 : queriesNeedContext s2).
    { unfold queriesNeedContext. cbn. rewrite Hgl1, Hq1, Hres1. apply Hctx. }
    destruct (clearOcclusionState_clears s2 Hctx2) as (Hq & Hres & Hdel & Hscene & Hdisp).
    exists (take index (savedRegions s)), region, (drop (S index) (savedRegions s)).
    eexists. split; [done|]. split; [done|]. split.
    { intros (r & Hr & Hrin)%list_elem_of_fmap. rewrite Forall_forall in Hbefore.
      by destruct (Hbefore r Hrin). }
    split; [reflexivity|].
    assert (Hstore : savedRegions (invalidateLabelPositions (clearOcclusionState s2))
                     = take index (savedRegions s) ++ drop (S index) (savedRegions s)).
    { cbn. destruct (clearOcclusionState_store s2) as [-> _]. cbn.
      by rewrite Hr1, delete_take_drop. }
    split; [done|]. split.
    { intros Hnodup. unfold getRegions. rewrite <- list_fmap_compose, Hstore.
      change (Info.id ∘ _) with Region.id.
      rewrite Hsplit, fmap_app, fmap_cons in Hnodup.
      apply NoDup_app in Hnodup as (_ & Hdisj & Hnd).
      apply NoDup_cons in Hnd as [Hnotin _]. rewrite Hid in Hnotin.
      rewrite fmap_app. intros [Hl|Hr]%elem_of_app; [|done].
      apply (Hdisj id Hl). rewrite Hid. apply elem_of_cons. by left. }
    split.
    { intros m Hm. cbn. rewrite Hscene, Hdisp. cbn. by apply Hdecal. }
    split; [done|]. split; [done|].
    intros i q Hiq. cbn. apply (Hdel i q). cbn. by rewrite Hq1.
  - intros Hnotin. unfold deleteRegion.
    destruct (list_find (fun r => Region.id r = id) (savedRegions s))
      as [[index region]|] eqn:Hfind; [|done].
    apply list_find_Some in Hfind as (Hlookup & Hid & _). destruct Hnotin.
    apply list_elem_of_fmap. exists region. split; [done|].
    by eapply list_elem_of_lookup_2.
Qed.

Lemma deleteRegion_removes_region_and_releases_witness :
  ∃ before region after s',
    savedRegions decalStore = before ++ region :: after
    ∧ Region.id region = js "uuid-0"
    ∧ (js "uuid-0" ∉ Region.id <$> before)
    ∧ deleteRegion (js "uuid-0") decalStore = (true, s')
    ∧ savedRegions s' = before ++ after
    ∧ (NoDup (Region.id <$> savedRegions decalStore)
       → js "uuid-0" ∉ Info.id <$> getRegions s')
    ∧ (∀ m, Region.decalMesh region = Some m → (m ∉ scene s') ∧ m ∈ disposed s')
    ∧ occlusionQueries s' = ∅
    ∧ occlusionResults s' = ∅
    ∧ (∀ i q, occlusionQueries decalStore !! i = Some q → q ∈ deletedQueries s').
Proof.
  apply (deleteRegion_removes_region_and_releases (js "uuid-0") decalStore).
  - vm_compute. apply elem_of_cons. by left.
  - intros Hgl. vm_compute in Hgl. discriminate.
Defined.

(** Scenario D, evaluated: the region owns decal mesh 0; after the deletion
    [getRegions] is empty, the mesh is out of the scene and disposed, and no
    occlusion state is left. Deleting an unknown id changes nothing. *)
Example scenarioD :
  Region.decalMesh <$> savedRegions decalStore = [Some 0]
  ∧ (deleteRegion (js "uuid-0") decalStore).1 = true
  ∧ getRegions (deleteRegion (js "uuid-0") decalStore).2 = []
  ∧ elements (scene decalStore) = [0]
  ∧ elements (scene (deleteRegion (js "uuid-0") decalStore).2) = []
  ∧ elements (disposed (deleteRegion (js "uuid-0") decalStore).2) = [0]
  ∧ elements (deletedQueries (deleteRegion (js "uuid-0") decalStore).2) = [7]
  ∧ deleteRegion (js "no-such-id") decalStore = (false, decalStore).
Proof. repeat split; vm_compute; reflexivity. Qed.

(** ** Label positions *)

(** A projected point the label projector rejects: behind the camera
    (normalized depth above 1) or outside the [-1,1] viewport range. *)
Definition behindCamera (p : Vector3) : Prop := (1 <? V3.z p)%float = true.

Definition outsideViewport (p : Vector3) : Prop :=
  (V3.x p <? -1)%float = true ∨ (1 <? V3.x p)%float = true
  ∨ (V3.y p <? -1)%float = true ∨ (1 <? V3.y p)%float = true.

(** The regions [getLabelPositions] makes an entry for. *)
Definition shown (s : Model3DViewer) (r : SavedHighlightRegion) : Prop :=
  Region.id r ∉ hiddenRegionIds s.

Global Instance shown_dec s r : Decision (shown s r).
Proof. unfold shown. apply _. Defined.

Lemma labelLoop_entries s i0 rs :
  length (labelLoop s i0 rs).1 = length (filter (shown s) rs)
  ∧ ∀ j region,
      rs !! j = Some region → shown s region →
      (labelLoop s i0 rs).1 !! length (filter (shown s) (take j rs))
      = Some (labelFor (i0 + j) region s).
Proof.
  revert i0. induction rs as [|r rs IH]; intros i0; [by split|].
  cbn [labelLoop]. destruct (IH (S i0)) as [Hlen Hnth].
  destruct (labelLoop s (S i0) rs) as [positions hasChanges]. cbn [fst] in *.
  case_bool_decide as Hhidden; cbn [fst].
  - rewrite filter_cons_False by (by intros Hs; apply Hs).
    split; [done|]. intros [|j] region Hj Hshown.
    + injection Hj as ->. by destruct Hshown.
    + cbn [take]. rewrite filter_cons_False by (by intros Hs; apply Hs).
      etrans; [exact (Hnth j region Hj Hshown)|]. f_equal. f_equal. lia.
  - rewrite filter_cons_True by done. cbn [length].
    split; [by rewrite Hlen|]. intros [|j] region Hj Hshown.
    + injection Hj as ->. cbn. by rewrite Nat.add_0_r.
    + cbn [take]. rewrite filter_cons_True by done. cbn [length].
      etrans; [exact (Hnth j region Hj Hshown)|]. f_equal. f_equal. lia.
Qed.

Lemma project3DToScreen_rejects s cam worldPoint :
  camera s = Some cam →
  (project3DToScreen worldPoint s = None
   ↔ behindCamera (project cam worldPoint) ∨ outsideViewport (project cam worldPoint)).
Proof.
  intros Hcam. unfold project3DToScreen, behindCamera, outsideViewport. rewrite Hcam.
  cbv zeta.
  destruct (_ || _ || _ || _ || _) eqn:Hoff.
  - split; [|done]. intros _. rewrite !orb_true_iff in Hoff. tauto.
  - split; [done|]. rewrite !orb_false_iff in Hoff.
    destruct Hoff as ((((Hz & Hx1) & Hx2) & Hy1) & Hy2).
    intros [?|[?|[?|[?|?]]]]; congruence.
Qed.

(** C6. When [getLabelPositions] produces a label list, the list has one entry
    per non-hidden saved region, in store order. The entry for the region at
    store index [i] carries the region's id and label; if the region's anchor
    projects behind the camera or outside the [-1,1] viewport range the entry
    has [visible = false] and [x = y = 0]; otherwise its [visible] is the
    occlusion result cached for index [i], and [true] when none has been
    recorded for that index. *)
Theorem getLabelPositions_offscreen_or_occlusion
    (s s' : Model3DViewer) (positions : list LabelPosition) (cam : PerspectiveCamera) :
  camera s = Some cam →
  getLabelPositions s = (Some positions, s') →
  length positions = length (filter (shown s) (savedRegions s))
  ∧ ∀ i region,
      savedRegions s !! i = Some region → shown s region →
      ∃ entry,
        positions !! length (filter (shown s) (take i (savedRegions s))) = Some entry
        ∧ Label.id entry = Region.id region
        ∧ Label.text entry = Region.label region
        ∧ (behindCamera (project cam (Region.position region))
           ∨ outsideViewport (project cam (Region.position region)) →
           Label.visible entry = false
           ∧ Label.x entry = 0%float ∧ Label.y entry = 0%float)
        ∧ (¬ (behindCamera (project cam (Region.position region))
              ∨ outsideViewport (project cam (Region.position region))) →
           Label.visible entry
           = match occlusionResults s !! i with
             | Some visible => visible
             | None => true
             end).
Proof.
  intros Hcam Hget. unfold getLabelPositions in Hget.
  destruct (negb (needsLabelUpdate s) && _); [done|].
  destruct (labelLoop_entries s 0 (savedRegions s)) as [Hlen Hnth].
  destruct (labelLoop s 0 (savedRegions s)) as [ps hasChanges]. cbn [fst] in *.
  destruct (hasChanges || _); [|done]. injection Hget as <- _.
  split; [done|]. intros i region Hi Hshown.
  exists (labelFor i region s). split; [by rewrite (Hnth i region Hi Hshown)|].
  split; [done|]. split; [done|].
  pose proof (project3DToScreen_rejects s cam (Region.position region) Hcam) as Hrej.
  unfold labelFor, checkPointVisibility. cbn [Label.visible Label.x Label.y].
  destruct (project3DToScreen (Region.position region) s) as [[x y]|].
  - split; [|done]. intros Hoff. by apply Hrej in Hoff.
  - split; [done|]. intros Hon. destruct Hon. by apply Hrej.
Qed.

(** A store for the label projector: the camera projects every point to
    itself, the first region sits inside the viewport and its occlusion query
    answered "occluded", the second lies above the viewport, the third is
    inside the viewport with no occlusion result yet. *)
Definition labelStore : Model3DViewer :=
  set_occlusionResults {[0 := false]}
    (set_savedRegions
       [Region.mk (js "r0") (V3.mk 0.5 0.5 0.5) 1 Cube High (js "Crack")
          None None None None None None None None;
        Region.mk (js "r1") (V3.mk 0 2 0.5) 1 Sphere Low (js "Rust")
          None None None None None None None None;
        Region.mk (js "r2") (V3.mk 0 0 0) 1 Sphere Medium (js "Mark")
          None None None None None None None None]
       previewViewer).

Lemma getLabelPositions_offscreen_or_occlusion_witness :
  length (default [] (getLabelPositions labelStore).1)
  = length (filter (shown labelStore) (savedRegions labelStore))
  ∧ ∀ i region,
      savedRegions labelStore !! i = Some region → shown labelStore region →
      ∃ entry,
        default [] (getLabelPositions labelStore).1
          !! length (filter (shown labelStore) (take i (savedRegions labelStore)))
        = Some entry
        ∧ Label.id entry = Region.id region
        ∧ Label.text entry = Region.label region
        ∧ (behindCamera (Region.position region)
           ∨ outsideViewport (Region.position region) →
           Label.visible entry = false
           ∧ Label.x entry = 0%float ∧ Label.y entry = 0%float)
        ∧ (¬ (behindCamera (Region.position region)
              ∨ outsideViewport (Region.position region)) →
           Label.visible entry
           = match occlusionResults labelStore !! i with
             | Some visible => visible
             | None => true
             end).
Proof.
  apply (getLabelPositions_offscreen_or_occlusion labelStore
           (getLabelPositions labelStore).2
           (default [] (getLabelPositions labelStore).1)
           {| project := fun p => p |}).
  - reflexivity.
  - vm_compute. reflexivity.
Defined.

(** The label list of [labelStore], evaluated: occluded, off screen (zeroed),
    and visible by default. *)
Example labelStore_labels :
  (fun e => (Label.id e, Label.x e, Label.y e, Label.visible e))
    <$> default [] (getLabelPositions labelStore).1
  = [(js "r0", 375%float, 125%float, false);
     (js "r1", 0%float, 0%float, false);
     (js "r2", 250%float, 250%float, true)].
Proof. vm_compute. reflexivity. Qed.

(** ** The occlusion gate *)

Lemma collectResult_keeps gpu i query s :
  smoothCameraMode (collectResult gpu i query s) = smoothCameraMode s
  ∧ occlusionFrameCounter (collectResult gpu i query s) = occlusionFrameCounter s
  ∧ gl (collectResult gpu i query s) = gl s.
Proof.
  unfold collectResult. destruct (occlusionResults s !! i) as [old|]; [|done].
  by destruct (bool_decide (old = _)).
Qed.

Lemma queryLoop_keeps gpu i rs s :
  smoothCameraMode (queryLoop gpu i rs s).2 = smoothCameraMode s
  ∧ occlusionFrameCounter (queryLoop gpu i rs s).2 = occlusionFrameCounter s
  ∧ gl (queryLoop gpu i rs s).2 = gl s.
Proof.
  revert i s. induction rs as [|r rs IH]; intros i s; [done|].
  cbn [queryLoop].
  set (s1 := if bool_decide (is_Some (occlusionQueries s !! i)) then s else _).
  assert (H1 : smoothCameraMode s1 = smoothCameraMode s
               ∧ occlusionFrameCounter s1 = occlusionFrameCounter s ∧ gl s1 = gl s).
  { subst s1. case_bool_decide; [done|]. by destruct (createQueryOk gpu i). }
  destruct H1 as (Hm & Hc & Hg).
  destruct (occlusionQueries s1 !! i) as [query|]; cycle 1.
  { destruct (IH (S i) s1) as (-> & -> & ->). done. }
  destruct (bool_decide (is_Some (occlusionQueries s !! i)) && negb (resultAvailable gpu query)).
  { destruct (IH (S i) s1) as (-> & -> & ->). done. }
  set (s2 := if bool_decide (is_Some (occlusionQueries s !! i)) then _ else s1).
  assert (H2 : smoothCameraMode s2 = smoothCameraMode s
               ∧ occlusionFrameCounter s2 = occlusionFrameCounter s ∧ gl s2 = gl s).
  { subst s2. case_bool_decide; [|done].
    destruct (collectResult_keeps gpu i query s1) as (-> & -> & ->). done. }
  destruct H2 as (Hm2 & Hc2 & Hg2). destruct (IH (S i) s2) as (Hm3 & Hc3 & Hg3).
  destruct (queryLoop gpu (S i) rs s2) as [started s3]. cbn [snd] in *.
  split; [congruence|]. split; congruence.
Qed.

Lemma cameraEvents_keep events s :
  smoothCameraMode (foldl (fun s e => cameraEvent e s) s events) = smoothCameraMode s
  ∧ occlusionFrameCounter (foldl (fun s e => cameraEvent e s) s events)
    = occlusionFrameCounter s.
Proof.
  revert s. induction events as [|e events IH]; intros s; [done|].
  cbn [foldl]. destruct (IH (cameraEvent e s)) as [-> ->].
  destruct e; cbn [cameraEvent]; [done|].
  by destruct (smoothCameraMode (set_isCameraMoving false s)).
Qed.

(** In real-time mode a call that starts a query is made while the camera is
    moving, on a counter that reaches the throttle, and resets the counter. *)
Lemma runOcclusionQueries_realtime_start gpu s :
  smoothCameraMode s = false → (runOcclusionQueries gpu s).1 ≠ [] →
  isCameraMoving s = true
  ∧ OCCLUSION_THROTTLE_FRAMES ≤ S (occlusionFrameCounter s)
  ∧ occlusionFrameCounter (runOcclusionQueries gpu s).2 = 0
  ∧ smoothCameraMode (runOcclusionQueries gpu s).2 = false.
Proof.
  intros Hmode. unfold runOcclusionQueries. rewrite Hmode.
  destruct (_ || _ || _ || _); [done|].
  destruct (isCameraMoving s); [|done]. cbn [negb].
  case_bool_decide as Hcount; [done|]. cbn in Hcount. intros _.
  destruct (queryLoop_keeps gpu 0
    (savedRegions (set_occlusionFrameCounter (S (occlusionFrameCounter s)) s))
    (set_occlusionFrameCounter 0
       (set_occlusionFrameCounter (S (occlusionFrameCounter s)) s)))
    as (Hm & Hc & _).
  split; [done|]. split; [lia|]. split; [by rewrite Hc|by rewrite Hm].
Qed.

(** In real-time mode a frame whose counter stays below the throttle starts
    no query, whatever the camera did since the previous frame. *)
Lemma frame_realtime_throttled events gpu s :
  smoothCameraMode s = false → S (occlusionFrameCounter s) < OCCLUSION_THROTTLE_FRAMES →
  (frame events gpu s).1 = []
  ∧ smoothCameraMode (frame events gpu s).2 = false
  ∧ occlusionFrameCounter (frame events gpu s).2 ≤ S (occlusionFrameCounter s).
Proof.
  intros Hmode Hcount. unfold frame.
  destruct (cameraEvents_keep events s) as [Hm Hc].
  set (s1 := foldl _ s events) in *. rewrite Hmode in Hm.
  unfold runOcclusionQueries. rewrite Hm.
  destruct (_ || _ || _ || _); [cbn; split; [done|split; [done|lia]]|].
  destruct (isCameraMoving s1); cbn [negb]; [|cbn; split; [done|split; [done|lia]]].
  rewrite bool_decide_eq_true_2 by (cbn; lia). cbn. split; [done|]. split; [done|lia].
Qed.

(** C8. [runOcclusionQueries] starts no query, and changes nothing, in a frame
    of real-time mode (smooth mode off) where the camera is not moving, and in
    a frame of smooth mode where the camera is moving. In real-time mode a
    frame that does start queries is one where the camera moves and the frame
    counter reaches the throttle N = 3; the counter is reset, and the next
    N - 1 frames start no query whatever the camera does in between: queries
    run at most every N-th frame. *)
Theorem runOcclusionQueries_gated_by_camera_state (gpu : GpuFrame) (s : Model3DViewer) :
  (smoothCameraMode s = false → isCameraMoving s = false →
     runOcclusionQueries gpu s = ([], s))
  ∧ (smoothCameraMode s = true → isCameraMoving s = true →
       runOcclusionQueries gpu s = ([], s))
  ∧ (smoothCameraMode s = false → (runOcclusionQueries gpu s).1 ≠ [] →
       isCameraMoving s = true
       ∧ OCCLUSION_THROTTLE_FRAMES ≤ S (occlusionFrameCounter s)
       ∧ occlusionFrameCounter (runOcclusionQueries gpu s).2 = 0
       ∧ ∀ events1 gpu1 events2 gpu2,
           (frame events1 gpu1 (runOcclusionQueries gpu s).2).1 = []
           ∧ (frame events2 gpu2
                (frame events1 gpu1 (runOcclusionQueries gpu s).2).2).1 = []).
Proof.
  split; [|split].
  - intros Hmode Hidle. unfold runOcclusionQueries. rewrite Hmode, Hidle.
    by destruct (_ || _ || _ || _).
  - intros Hmode Hmoving. unfold runOcclusionQueries. rewrite Hmode, Hmoving.
    by destruct (_ || _ || _ || _).
  - intros Hmode Hstart.
    destruct (runOcclusionQueries_realtime_start gpu s Hmode Hstart)
      as (Hmoving & Hcount & Hzero & Hmode').
    split; [done|]. split; [done|]. split; [done|].
    intros events1 gpu1 events2 gpu2.
    destruct (frame_realtime_throttled events1 gpu1 (runOcclusionQueries gpu s).2)
      as (Hnone1 & Hmode1 & Hcount1); [done|rewrite Hzero; unfold OCCLUSION_THROTTLE_FRAMES; lia|].
    split; [done|].
    destruct (frame_realtime_throttled events2 gpu2
                (frame events1 gpu1 (runOcclusionQueries gpu s).2).2)
      as (Hnone2 & _); [done| |done].
    rewrite Hzero in Hcount1. unfold OCCLUSION_THROTTLE_FRAMES. lia.
Qed.

(** A GPU that creates every query, has every result ready and reports one
    sample passed. *)
Definition sampleGpu : GpuFrame :=
  {| createQueryOk := fun _ => true; resultAvailable := fun _ => true;
     queryResult := fun _ => 1 |}.

(** [labelStore] in real-time mode with the camera moving, two frames after
    the last round of queries. *)
Definition movingStore : Model3DViewer :=
  set_isCameraMoving true (set_occlusionFrameCounter 2 labelStore).

Lemma runOcclusionQueries_gated_by_camera_state_witness :
  runOcclusionQueries sampleGpu labelStore = ([], labelStore)
  ∧ (isCameraMoving movingStore = true
     ∧ OCCLUSION_THROTTLE_FRAMES ≤ S (occlusionFrameCounter movingStore)
     ∧ occlusionFrameCounter (runOcclusionQueries sampleGpu movingStore).2 = 0
     ∧ ∀ events1 gpu1 events2 gpu2,
         (frame events1 gpu1 (runOcclusionQueries sampleGpu movingStore).2).1 = []
         ∧ (frame events2 gpu2
              (frame events1 gpu1 (runOcclusionQueries sampleGpu movingStore).2).2).1 = []).
Proof.
  split.
  - apply (proj1 (runOcclusionQueries_gated_by_camera_state sampleGpu labelStore));
      vm_compute; reflexivity.
  - apply (proj2 (proj2 (runOcclusionQueries_gated_by_camera_state sampleGpu movingStore))).
    + vm_compute. reflexivity.
    + vm_compute. discriminate.
Defined.

(** Three frames of continuous camera movement in real-time mode, from a
    counter at zero: the first two start no query, the third starts one query
    per region; with the camera held, or in smooth mode while it moves, no
    frame starts any. *)
Example throttled_frames :
  let s0 := set_occlusionFrameCounter 0 labelStore in
  let f1 := frame [ControlsChange] sampleGpu s0 in
  let f2 := frame [ControlsChange] sampleGpu f1.2 in
  let f3 := frame [ControlsChange] sampleGpu f2.2 in
  f1.1 = [] ∧ f2.1 = []
  ∧ qs_index <$> f3.1 = [0; 1; 2]
  ∧ (frame [ControlsChange; StopTimeout] sampleGpu f2.2).1 = [].
Proof. repeat split; vm_compute; reflexivity. Qed.

Lemma runOcclusionQueries_gl gpu s : gl (runOcclusionQueries gpu s).2 = gl s.
Proof.
  unfold runOcclusionQueries. destruct (_ || _ || _ || _); [done|].
  destruct (smoothCameraMode s), (isCameraMoving s); cbn [negb]; try done.
  - by destruct (queryLoop_keeps gpu 0 (savedRegions s) s) as (_ & _ & ->).
  - case_bool_decide; [done|].
    match goal with
    | |- gl (queryLoop ?g ?i ?rs ?st).2 = _ =>
      destruct (queryLoop_keeps g i rs st) as (_ & _ & ->)
    end. done.
Qed.

(** The context invariant assumed for [deleteRegion] holds in a fresh viewer
    and is kept by the only writer of the occlusion maps. *)
Lemma queriesNeedContext_invariant (webgl2 : bool) (gpu : GpuFrame) (s : Model3DViewer) :
  queriesNeedContext (newViewer webgl2)
  ∧ (queriesNeedContext s → queriesNeedContext (runOcclusionQueries gpu s).2).
Proof.
  split; [done|]. intros Hctx. unfold queriesNeedContext.
  rewrite runOcclusionQueries_gl. intros Hgl.
  unfold runOcclusionQueries. rewrite Hgl. cbn [negb orb fst snd]. by apply Hctx.
Qed.

(** * Further operations of the viewer *)

(** ** Lookups and position updates *)

Definition set_hiddenRegionIds (v : gset jsstring) (s : Model3DViewer) :=
  mkViewer (camera s) (dims s) (highlightShape s) (shapeVisible s) (shapeType s)
    (shapeBaseSize s) (shapeSizePercent s) (currentSeverity s) (savedRegions s)
    v (isCameraMoving s) (smoothCameraMode s)
    (occlusionFrameCounter s) (needsLabelUpdate s) (cachedLabelPositions s)
    (gl s) (occlusionProgram s) (occlusionQueries s) (occlusionResults s)
    (scene s) (disposed s) (deletedQueries s) (uuidCount s) (objectCount s).

Definition set_smoothCameraMode (v : bool) (s : Model3DViewer) :=
  mkViewer (camera s) (dims s) (highlightShape s) (shapeVisible s) (shapeType s)
    (shapeBaseSize s) (shapeSizePercent s) (currentSeverity s) (savedRegions s)
    (hiddenRegionIds s) (isCameraMoving s) v
    (occlusionFrameCounter s) (needsLabelUpdate s) (cachedLabelPositions s)
    (gl s) (occlusionProgram s) (occlusionQueries s) (occlusionResults s)
    (scene s) (disposed s) (deletedQueries s) (uuidCount s) (objectCount s).

Definition set_shapeSizePercent (v : float) (s : Model3DViewer) :=
  mkViewer (camera s) (dims s) (highlightShape s) (shapeVisible s) (shapeType s)
    (shapeBaseSize s) v (currentSeverity s) (savedRegions s)
    (hiddenRegionIds s) (isCameraMoving s) (smoothCameraMode s)
    (occlusionFrameCounter s) (needsLabelUpdate s) (cachedLabelPositions s)
    (gl s) (occlusionProgram s) (occlusionQueries s) (occlusionResults s)
    (scene s) (disposed s) (deletedQueries s) (uuidCount s) (objectCount s).

Definition set_preview (shape : option Vector3) (visible : bool) (s : Model3DViewer) :=
  mkViewer (camera s) (dims s) shape visible (shapeType s)
    (shapeBaseSize s) (shapeSizePercent s) (currentSeverity s) (savedRegions s)
    (hiddenRegionIds s) (isCameraMoving s) (smoothCameraMode s)
    (occlusionFrameCounter s) (needsLabelUpdate s) (cachedLabelPositions s)
    (gl s) (occlusionProgram s) (occlusionQueries s) (occlusionResults s)
    (scene s) (disposed s) (deletedQueries s) (uuidCount s) (objectCount s).

(** [region.position.copy(position)]. *)
Definition withPosition (p : Vector3) (r : SavedHighlightRegion) : SavedHighlightRegion :=
  Region.mk (Region.id r) p (Region.size r) (Region.type r) (Region.severity r)
    (Region.label r) (Region.defectData r) (Region.cameraPosition r)
    (Region.cameraTarget r) (Region.normal r) (Region.decalTextureId r)
    (Region.decalMesh r) (Region.notes r) (Region.evidence r).

(** [this.savedRegions.find((r) => r.id === id)], with the index
    [findIndex] gives. *)
Definition findRegion (id : jsstring) (s : Model3DViewer)
  : option (nat * SavedHighlightRegion) :=
  list_find (fun r => Region.id r = id) (savedRegions s).

(** [getSavedRegionsCount()]. *)
Definition getSavedRegionsCount (s : Model3DViewer) : nat := length (savedRegions s).

(** [updateRegionPosition(id, position)]. *)
Definition updateRegionPosition (id : jsstring) (position : Vector3) (s : Model3DViewer)
  : bool * Model3DViewer :=
  match findRegion id s with
  | None => (false, s)
  | Some (index, region) =>
    let s :=
      set_savedRegions (<[index := withPosition position region]> (savedRegions s)) s in
    (true, invalidateLabelPositions s)
  end.

(** [getRegionPosition(id)]. *)
Definition getRegionPosition (id : jsstring) (s : Model3DViewer) : option Vector3 :=
  match findRegion id s with
  | Some (_, region) => Some (Region.position region)
  | None => None
  end.

(** [getRegionCameraState(id)]: the saved camera position and target. *)
Definition getRegionCameraState (id : jsstring) (s : Model3DViewer)
  : option (Vector3 * Vector3) :=
  match findRegion id s with
  | Some (_, region) =>
    match Region.cameraPosition region, Region.cameraTarget region with
    | Some position, Some target => Some (position, target)
    | _, _ => None
    end
  | None => None
  end.

(** [updateShapePosition(point)] on the preview: it follows the pointer, or
    hides. The dynamic shader uniforms the method refreshes afterwards are
    written from the preview and read by no method of the store. *)
Definition updateShapePosition (point : option Vector3) (s : Model3DViewer)
  : Model3DViewer :=
  match highlightShape s with
  | None => s
  | Some shapePosition =>
    match point with
    | Some p => set_preview (Some p) true s
    | None => set_preview (Some shapePosition) false s
    end
  end.

(** [setSmoothCameraMode(enabled)]. *)
Definition setSmoothCameraMode (enabled : bool) (s : Model3DViewer) : Model3DViewer :=
  let s := set_occlusionFrameCounter 0 (set_smoothCameraMode enabled s) in
  if enabled && negb (isCameraMoving s) then set_needsLabelUpdate true s else s.

(** [Math.min] and [Math.max] on two numbers: NaN if either is NaN, and -0
    below +0. *)
Definition Math_min (a b : float) : float :=
  if PrimFloat.is_nan a || PrimFloat.is_nan b then nan
  else if (a <? b)%float then a
  else if (b <? a)%float then b
  else if PrimFloat.get_sign a then a else b.

Definition Math_max (a b : float) : float :=
  if PrimFloat.is_nan a || PrimFloat.is_nan b then nan
  else if (a <? b)%float then b
  else if (b <? a)%float then a
  else if PrimFloat.get_sign a then b else a.

(** The size percentage [setShapeSizePercent(percent)] stores:
    [Math.max(1, Math.min(300, percent))]. *)
Definition clampSizePercent (percent : float) : float :=
  Math_max 1 (Math_min 300 percent).

(** [setShapeSizePercent(percent)], as far as the store sees it (the preview
    geometry and the dynamic uniforms are rebuilt from the stored value). *)
Definition setShapeSizePercent (percent : float) (s : Model3DViewer) : Model3DViewer :=
  set_shapeSizePercent (clampSizePercent percent) s.

(** The change a successful [updateRegion] makes to the region it finds:
    every field of the patch that is present replaces the region's, every
    other field is kept. *)
Definition merged (updates : RegionUpdates) (old new : SavedHighlightRegion) : Prop :=
  Region.id new = Region.id old
  ∧ Region.position new = Region.position old
  ∧ Region.normal new = Region.normal old
  ∧ Region.label new = default (Region.label old) (Updates.label updates)
  ∧ Region.severity new = default (Region.severity old) (Updates.severity updates)
  ∧ Region.type new = default (Region.type old) (Updates.type updates)
  ∧ Region.size new = default (Region.size old) (Updates.size updates)
  ∧ Region.decalTextureId new
    = from_option Some (Region.decalTextureId old) (Updates.decalTextureId updates)
  ∧ Region.defectData new
    = from_option Some (Region.defectData old) (Updates.defectData updates)
  ∧ Region.cameraPosition new
    = from_option Some (Region.cameraPosition old) (Updates.cameraPosition updates)
  ∧ Region.cameraTarget new
    = from_option Some (Region.cameraTarget old) (Updates.cameraTarget updates)
  ∧ Region.notes new = from_option Some (Region.notes old) (Updates.notes updates)
  ∧ Region.evidence new
    = from_option Some (Region.evidence old) (Updates.evidence updates).

(** ** The shader uniforms of the saved regions *)

(** A [THREE.Color], by the arguments of its constructor: three channels, or
    a CSS colour string. *)
Inductive Color := ColorRGB (r g b : float) | ColorCSS (css : jsstring).

Definition severityToThreeColor (severity : Severity) : Color :=
  ColorCSS (SEVERITY_COLORS severity).

Definition MAX_REGIONS : nat := 100.

Module Uniforms.
Record RegionUniforms := mk {
  uDynamicPosition : Vector3; uDynamicSize : float; uDynamicVisible : bool;
  uDynamicType : Z; uDynamicColor : Color;
  uRegionPositions : list Vector3; uRegionSizes : list float;
  uRegionTypes : list Z; uRegionColors : list Color;
  uRegionCount : Z; uHighlightedRegionIndex : Z; uHoveredRegionIndex : Z }.
End Uniforms.
Export Uniforms (RegionUniforms).

(** The fields of the viewer that steer how the saved regions are drawn:
    [showRegionsDefault], [highlightedRegionId], [hoveredRegionId] (with
    [None] for [null]), [regionUniforms] ([None] until a model is loaded),
    and the decal meshes whose [visible] flag is off. *)
Record Shading := mkShading {
  showRegionsDefault : bool;
  highlightedRegionId : option jsstring;
  hoveredRegionId : option jsstring;
  regionUniforms : option RegionUniforms;
  invisibleMeshes : gset Mesh }.

Definition set_regionUniforms (v : option RegionUniforms) (d : Shading) : Shading :=
  mkShading (showRegionsDefault d) (highlightedRegionId d) (hoveredRegionId d) v
    (invisibleMeshes d).

(** The field initialisers of the class. *)
Definition newShading : Shading :=
  {| showRegionsDefault := true; highlightedRegionId := None; hoveredRegionId := None;
     regionUniforms := None; invisibleMeshes := ∅ |}.

(** The uniforms object [createRegionUniforms()] builds: every array gets
    [MAX_REGIONS] slots. *)
Definition freshUniforms (s : Model3DViewer) : RegionUniforms :=
  {| Uniforms.uDynamicPosition := V3.mk 0 0 0;
     Uniforms.uDynamicSize := getCurrentShapeSize s;
     Uniforms.uDynamicVisible := false;
     Uniforms.uDynamicType := if bool_decide (shapeType s = Cube) then 0 else 1;
     Uniforms.uDynamicColor := ColorRGB 1.0 0.5 0.0;
     Uniforms.uRegionPositions := replicate MAX_REGIONS (V3.mk 0 0 0);
     Uniforms.uRegionSizes := replicate MAX_REGIONS 0%float;
     Uniforms.uRegionTypes := replicate MAX_REGIONS 0%Z;
     Uniforms.uRegionColors := replicate MAX_REGIONS (ColorRGB 0 0 0);
     Uniforms.uRegionCount := 0;
     Uniforms.uHighlightedRegionIndex := -1;
     Uniforms.uHoveredRegionIndex := -1 |}.

(** [createRegionUniforms()]. *)
Definition createRegionUniforms (s : Model3DViewer) (d : Shading) : Shading :=
  set_regionUniforms (Some (freshUniforms s)) d.

(** Type mapping: cube=0, sphere=1, none=2. *)
Definition typeValue (t : ShapeType) : Z :=
  match t with Cube => 0 | Sphere => 1 | NoneShape => 2 end.

(** The four writes of one loop turn of [updateRegionUniforms] at slot
    [visibleIndex]. The arrays have [MAX_REGIONS] slots and the loop stops at
    [MAX_REGIONS], so the slot exists (see [uniformsShaped] below). *)
Definition writeRegion (visibleIndex : nat) (region : SavedHighlightRegion)
    (u : RegionUniforms) : RegionUniforms :=
  {| Uniforms.uDynamicPosition := Uniforms.uDynamicPosition u;
     Uniforms.uDynamicSize := Uniforms.uDynamicSize u;
     Uniforms.uDynamicVisible := Uniforms.uDynamicVisible u;
     Uniforms.uDynamicType := Uniforms.uDynamicType u;
     Uniforms.uDynamicColor := Uniforms.uDynamicColor u;
     Uniforms.uRegionPositions :=
       <[visibleIndex := Region.position region]> (Uniforms.uRegionPositions u);
     Uniforms.uRegionSizes :=
       <[visibleIndex := Region.size region]> (Uniforms.uRegionSizes u);
     Uniforms.uRegionTypes :=
       <[visibleIndex := typeValue (Region.type region)]> (Uniforms.uRegionTypes u);
     Uniforms.uRegionColors :=
       <[visibleIndex := severityToThreeColor (Region.severity region)]>
         (Uniforms.uRegionColors u);
     Uniforms.uRegionCount := Uniforms.uRegionCount u;
     Uniforms.uHighlightedRegionIndex := Uniforms.uHighlightedRegionIndex u;
     Uniforms.uHoveredRegionIndex := Uniforms.uHoveredRegionIndex u |}.

(** The loop of [updateRegionUniforms] over the remaining regions; it ends
    with the list or when [visibleIndex] reaches [MAX_REGIONS]. *)
Fixpoint uniformLoop (s : Model3DViewer) (d : Shading) (rs : list SavedHighlightRegion)
    (visibleIndex : nat) (highlightedIndex hoveredIndex : Z) (u : RegionUniforms)
  : nat * Z * Z * RegionUniforms :=
  match rs with
  | [] => (visibleIndex, highlightedIndex, hoveredIndex, u)
  | region :: rest =>
    if bool_decide (MAX_REGIONS ≤ visibleIndex)
    then (visibleIndex, highlightedIndex, hoveredIndex, u)
    else if bool_decide (Region.id region ∈ hiddenRegionIds s)
    then uniformLoop s d rest visibleIndex highlightedIndex hoveredIndex u
    else if negb (showRegionsDefault d)
            && negb (bool_decide (Some (Region.id region) = highlightedRegionId d))
            && negb (bool_decide (Some (Region.id region) = hoveredRegionId d))
    then uniformLoop s d rest visibleIndex highlightedIndex hoveredIndex u
    else
      let highlightedIndex :=
        if bool_decide (Some (Region.id region) = highlightedRegionId d)
        then Z.of_nat visibleIndex else highlightedIndex in
      let hoveredIndex :=
        if bool_decide (Some (Region.id region) = hoveredRegionId d)
        then Z.of_nat visibleIndex else hoveredIndex in
      uniformLoop s d rest (S visibleIndex) highlightedIndex hoveredIndex
        (writeRegion visibleIndex region u)
  end.

(** [updateRegionUniforms()]. *)
Definition updateRegionUniforms (s : Model3DViewer) (d : Shading) : Shading :=
  match regionUniforms d with
  | None => d
  | Some u =>
    let '(visibleIndex, highlightedIndex, hoveredIndex, u) :=
      uniformLoop s d (savedRegions s) 0 (-1) (-1) u in
    set_regionUniforms
      (Some
         {| Uniforms.uDynamicPosition := Uniforms.uDynamicPosition u;
            Uniforms.uDynamicSize := Uniforms.uDynamicSize u;
            Uniforms.uDynamicVisible := Uniforms.uDynamicVisible u;
            Uniforms.uDynamicType := Uniforms.uDynamicType u;
            Uniforms.uDynamicColor := Uniforms.uDynamicColor u;
            Uniforms.uRegionPositions := Uniforms.uRegionPositions u;
            Uniforms.uRegionSizes := Uniforms.uRegionSizes u;
            Uniforms.uRegionTypes := Uniforms.uRegionTypes u;
            Uniforms.uRegionColors := Uniforms.uRegionColors u;
            Uniforms.uRegionCount := Z.of_nat visibleIndex;
            Uniforms.uHighlightedRegionIndex := highlightedIndex;
            Uniforms.uHoveredRegionIndex := hoveredIndex |}) d
  end.

(** ** Hiding regions, highlighting and hovering *)





(** [setShowRegionsDefault(show)]. *)
Definition setShowRegionsDefault (show : bool) (s : Model3DViewer) (d : Shading)
  : Shading :=
  updateRegionUniforms s
    (mkShading show (highlightedRegionId d) (hoveredRegionId d) (regionUniforms d)
       (invisibleMeshes d)).

(** [setHighlightedRegion(id)]. *)
Definition setHighlightedRegion (id : option jsstring) (s : Model3DViewer) (d : Shading)
  : Shading :=
  updateRegionUniforms s
    (mkShading (showRegionsDefault d) id (hoveredRegionId d) (regionUniforms d)
       (invisibleMeshes d)).

(** [setHoveredRegion(id)]. *)
Definition setHoveredRegion (id : option jsstring) (s : Model3DViewer) (d : Shading)
  : Shading :=
  updateRegionUniforms s
    (mkShading (showRegionsDefault d) (highlightedRegionId d) id (regionUniforms d)
       (invisibleMeshes d)).

(** ** Disposal *)

Definition set_occlusionProgram (v : bool) (s : Model3DViewer) :=
  mkViewer (camera s) (dims s) (highlightShape s) (shapeVisible s) (shapeType s)
    (shapeBaseSize s) (shapeSizePercent s) (currentSeverity s) (savedRegions s)
    (hiddenRegionIds s) (isCameraMoving s) (smoothCameraMode s)
    (occlusionFrameCounter s) (needsLabelUpdate s) (cachedLabelPositions s)
    (gl s) v (occlusionQueries s) (occlusionResults s)
    (scene s) (disposed s) (deletedQueries s) (uuidCount s) (objectCount s).

(** The decal loop of [dispose()]: [for (const region of this.savedRegions)
    if (region.decalMesh) { scene.remove; geometry.dispose; material.dispose }]. *)
Definition releaseDecals (rs : list SavedHighlightRegion) (s : Model3DViewer)
  : Model3DViewer :=
  foldl (fun s region =>
           match Region.decalMesh region with
           | Some m => releaseDecal m s
           | None => s
           end) s rs.

(** [dispose()], on the fields of the two records, in the order of the
    source: the preview shape is dropped; the decals of the saved regions are
    released; uniforms, regions, hidden ids and cached labels are cleared;
    with a WebGL 2 context the occlusion queries are deleted, both occlusion
    maps emptied and the program deleted; the traversal of the scene disposes
    every mesh still attached, and the scene is cleared. (The controls, the
    loaded model, the renderer, the loaders and the environment maps, which
    the method releases as well, have no counterpart in the records.) *)
Definition dispose (s : Model3DViewer) (d : Shading) : Model3DViewer * Shading :=
  let s := set_preview None (shapeVisible s) s in
  let s := releaseDecals (savedRegions s) s in
  let d := set_regionUniforms None d in
  let s := set_cachedLabelPositions [] (set_hiddenRegionIds ∅ (set_savedRegions [] s)) in
  let s := if gl s then set_occlusionProgram false (clearOcclusionState s) else s in
  let s := set_disposed (scene s ∪ disposed s) s in
  (set_scene ∅ s, d).

(** * Further properties *)

(** ** Finding a region by id *)

Lemma findRegion_Some id s i r :
  findRegion id s = Some (i, r) ↔
  ∃ before after,
    savedRegions s = before ++ r :: after ∧ i = length before
    ∧ Region.id r = id ∧ (id ∉ Region.id <$> before).
Proof.
  unfold findRegion. split.
  - intros (Hsplit & Hid & Hbefore)%list_find_split.
    pose proof (list_find_Some (fun r => Region.id r = id) (savedRegions s) i r) as _.
    exists (take i (savedRegions s)), (drop (S i) (savedRegions s)).
    split; [done|]. split.
    + rewrite length_take. apply (f_equal length) in Hsplit.
      rewrite length_app, length_take in Hsplit. cbn in Hsplit. lia.
    + split; [done|]. intros (r' & Hr' & Hin)%list_elem_of_fmap.
      rewrite Forall_forall in Hbefore. by destruct (Hbefore r' Hin).
  - intros (before & after & Hsplit & -> & Hid & Hbefore). rewrite Hsplit.
    apply list_find_app_Some. right. split; [lia|]. split.
    + apply list_find_None, Forall_forall. intros r' Hin Hr'. apply Hbefore.
      apply list_elem_of_fmap. by exists r'.
    + rewrite Nat.sub_diag. cbn. by rewrite decide_True.
Qed.

Lemma findRegion_None id s :
  findRegion id s = None ↔ id ∉ Region.id <$> savedRegions s.
Proof.
  unfold findRegion. rewrite list_find_None, Forall_forall. split.
  - intros Hall (r & Hr & Hin)%list_elem_of_fmap. by destruct (Hall r Hin).
  - intros Hnot r Hin Hr. apply Hnot. apply list_elem_of_fmap. by exists r.
Qed.

Lemma insert_middle {A} (before after : list A) (x y : A) :
  <[length before := y]> (before ++ x :: after) = before ++ y :: after.
Proof.
  rewrite insert_app_r_alt by lia. by rewrite Nat.sub_diag.
Qed.

(** ** Moving a region *)

(** X1. [updateRegionPosition] on an id of the store answers [true] and moves
    the first region carrying the id, and nothing else: the regions before and
    after it, its other fields, its decal mesh and the scene stay as they were;
    [getRegionPosition] then returns the new position. On an unknown id it
    answers [false], the viewer is unchanged and [getRegionPosition] has
    nothing to return. *)
Theorem updateRegionPosition_moves_first_match
    (id : jsstring) (p : Vector3) (s : Model3DViewer) :
  (id ∈ Region.id <$> savedRegions s →
     ∃ before region after s',
       savedRegions s = before ++ region :: after
       ∧ Region.id region = id
       ∧ (id ∉ Region.id <$> before)
       ∧ updateRegionPosition id p s = (true, s')
       ∧ savedRegions s' = before ++ withPosition p region :: after
       ∧ getRegionPosition id s' = Some p
       ∧ scene s' = scene s
       ∧ needsLabelUpdate s' = true)
  ∧ ((id ∉ Region.id <$> savedRegions s) →
       updateRegionPosition id p s = (false, s) ∧ getRegionPosition id s = None).
Proof.
  split.
  - intros Hin. destruct (findRegion id s) as [[i region]|] eqn:Hfind; cycle 1.
    { by apply findRegion_None in Hfind. }
    pose proof Hfind as (before & after & Hsplit & -> & Hid & Hbefore)%findRegion_Some.
    exists before, region, after. eexists. split; [done|]. split; [done|]. split; [done|].
    unfold updateRegionPosition. rewrite Hfind. split; [reflexivity|].
    cbn [savedRegions invalidateLabelPositions set_needsLabelUpdate set_savedRegions].
    rewrite Hsplit, insert_middle. split; [done|]. split; [|done].
    unfold getRegionPosition.
    assert (Hfind' : findRegion id
      (invalidateLabelPositions (set_savedRegions (before ++ withPosition p region :: after) s))
      = Some (length before, withPosition p region)).
    { apply findRegion_Some. by exists before, after. }
    by rewrite Hfind'.
  - intros Hnot%findRegion_None. unfold updateRegionPosition, getRegionPosition.
    by rewrite Hnot.
Qed.

Lemma updateRegionPosition_moves_first_match_witness :
  ∃ before region after s',
    savedRegions twoRegionStore = before ++ region :: after
    ∧ Region.id region = js "uuid-1"
    ∧ (js "uuid-1" ∉ Region.id <$> before)
    ∧ updateRegionPosition (js "uuid-1") (V3.mk 4 5 6) twoRegionStore = (true, s')
    ∧ savedRegions s' = before ++ withPosition (V3.mk 4 5 6) region :: after
    ∧ getRegionPosition (js "uuid-1") s' = Some (V3.mk 4 5 6)
    ∧ scene s' = scene twoRegionStore
    ∧ needsLabelUpdate s' = true.
Proof.
  apply (proj1 (updateRegionPosition_moves_first_match (js "uuid-1") (V3.mk 4 5 6)
                  twoRegionStore)).
  vm_compute. apply elem_of_cons. right. apply elem_of_cons. by left.
Defined.

(** ** Patching a region *)

(** Two patches applied one after the other, as one patch. *)
Definition overlay (u1 u2 : RegionUpdates) : RegionUpdates :=
  Updates.mk
    (from_option Some (Updates.label u1) (Updates.label u2))
    (from_option Some (Updates.severity u1) (Updates.severity u2))
    (from_option Some (Updates.type u1) (Updates.type u2))
    (from_option Some (Updates.size u1) (Updates.size u2))
    (from_option Some (Updates.defectData u1) (Updates.defectData u2))
    (from_option Some (Updates.cameraPosition u1) (Updates.cameraPosition u2))
    (from_option Some (Updates.cameraTarget u1) (Updates.cameraTarget u2))
    (from_option Some (Updates.decalTextureId u1) (Updates.decalTextureId u2))
    (from_option Some (Updates.notes u1) (Updates.notes u2))
    (from_option Some (Updates.evidence u1) (Updates.evidence u2)).

Lemma merged_overlay u1 u2 a b c :
  merged u1 a b → merged u2 b c → merged (overlay u1 u2) a c.
Proof.
  unfold merged, overlay.
  intros (A1 & A2 & A3 & A4 & A5 & A6 & A7 & A8 & A9 & A10 & A11 & A12 & A13)
         (B1 & B2 & B3 & B4 & B5 & B6 & B7 & B8 & B9 & B10 & B11 & B12 & B13).
  cbn [Updates.label Updates.severity Updates.type Updates.size Updates.defectData
       Updates.cameraPosition Updates.cameraTarget Updates.decalTextureId
       Updates.notes Updates.evidence].
  rewrite B1, B2, B3, B4, B5, B6, B7, B8, B9, B10, B11, B12, B13.
  rewrite A1, A2, A3, A4, A5, A6, A7, A8, A9, A10, A11, A12, A13.
  repeat split; try done.
  - by destruct (Updates.label u2), (Updates.label u1).
  - by destruct (Updates.severity u2), (Updates.severity u1).
  - by destruct (Updates.type u2), (Updates.type u1).
  - by destruct (Updates.size u2), (Updates.size u1).
  - by destruct (Updates.decalTextureId u2), (Updates.decalTextureId u1).
  - by destruct (Updates.defectData u2), (Updates.defectData u1).
  - by destruct (Updates.cameraPosition u2), (Updates.cameraPosition u1).
  - by destruct (Updates.cameraTarget u2), (Updates.cameraTarget u1).
  - by destruct (Updates.notes u2), (Updates.notes u1).
  - by destruct (Updates.evidence u2), (Updates.evidence u1).
Qed.

Lemma merged_sameButDecal a b : sameButDecal a b → merged Updates.none a b.
Proof.
  unfold sameButDecal, merged. destruct a, b. cbn.
  intros [= <- <- <- <- <- <- <- <- <- <- <- <- <-]. by repeat split.
Qed.

Section UpdateMerge.
Variable host : Host.

(** The decal step of [updateRegion] for a new size. *)
Lemma updateRegion_size_step region s (v : float) r' s' :
  match Region.decalMesh (Region.set_size v region),
        requestsDecal (Region.decalTextureId (Region.set_size v region)) with
  | None, None => (Region.set_size v region, s)
  | _, _ => updateDecalMesh host (Region.set_size v region) s
  end = (r', s') →
  merged (Updates.mk None None None (Some v) None None None None None None) region r'
  ∧ savedRegions s' = savedRegions s.
Proof.
  intros Hstep.
  assert (Hsame : sameButDecal (Region.set_size v region) r'
                  ∧ savedRegions s' = savedRegions s).
  { destruct (Region.decalMesh (Region.set_size v region));
      [|destruct (requestsDecal _)];
      first [by apply updateDecalMesh_keeps in Hstep|by injection Hstep as <- <-]. }
  destruct Hsame as [Hsame Hs]. split; [|done].
  apply (merged_overlay
           (Updates.mk None None None (Some v) None None None None None None)
           Updates.none region (Region.set_size v region) r').
  - by repeat split.
  - by apply merged_sameButDecal.
Qed.

Lemma updateRegion_decal_step region s (v : DecalTextureId) r' s' :
  updateDecalMesh host (Region.set_decalTextureId (Some v) region) s = (r', s') →
  merged (Updates.mk None None None None None None None (Some v) None None) region r'
  ∧ savedRegions s' = savedRegions s.
Proof.
  intros [Hsame Hs]%updateDecalMesh_keeps. split; [|done].
  apply (merged_overlay
           (Updates.mk None None None None None None None (Some v) None None)
           Updates.none region (Region.set_decalTextureId (Some v) region) r').
  - by repeat split.
  - by apply merged_sameButDecal.
Qed.

(** X2. [updateRegion] is a field-by-field merge on the first region carrying
    the id: a field present in the patch replaces the region's, an absent field
    keeps it; id, position and normal are never changed; the other regions,
    their order and their number are kept. On an unknown id it answers [false]
    and changes nothing. *)
Theorem updateRegion_merges_present_fields
    (id : jsstring) (updates : RegionUpdates) (s : Model3DViewer) :
  (id ∈ Region.id <$> savedRegions s →
     ∃ before region after region' s',
       savedRegions s = before ++ region :: after
       ∧ Region.id region = id
       ∧ (id ∉ Region.id <$> before)
       ∧ updateRegion host id updates s = (true, s')
       ∧ savedRegions s' = before ++ region' :: after
       ∧ merged updates region region'
       ∧ needsLabelUpdate s' = true)
  ∧ ((id ∉ Region.id <$> savedRegions s) → updateRegion host id updates s = (false, s)).
Proof.
  split; cycle 1.
  { intros Hnot%findRegion_None. unfold updateRegion. unfold findRegion in Hnot.
    by rewrite Hnot. }
  intros Hin. destruct (findRegion id s) as [[i region]|] eqn:Hfind; cycle 1.
  { by apply findRegion_None in Hfind. }
  pose proof Hfind as (before & after & Hsplit & -> & Hid & Hbefore)%findRegion_Some.
  exists before, region, after. unfold updateRegion. unfold findRegion in Hfind.
  rewrite Hfind. cbv zeta.
  set (r3 := patch (Updates.type updates) Region.set_type _).
  assert (H3 : merged (Updates.mk (Updates.label updates) (Updates.severity updates)
                         (Updates.type updates) None None None None None None None)
                 region r3).
  { subst r3. unfold patch, merged.
    by destruct (Updates.type updates), (Updates.severity updates), (Updates.label updates). }
  destruct (match Updates.size updates with Some _ => _ | None => _ end)
    as [r4 s4] eqn:E4.
  assert (H4 : merged (Updates.mk None None None (Updates.size updates)
                         None None None None None None) r3 r4
               ∧ savedRegions s4 = savedRegions s).
  { destruct (Updates.size updates) as [v|].
    - by apply updateRegion_size_step in E4.
    - injection E4 as <- <-. by repeat split. }
  destruct H4 as [H4 Hs4].
  destruct (match Updates.decalTextureId updates with Some _ => _ | None => _ end)
    as [r5 s5] eqn:E5.
  assert (H5 : merged (Updates.mk None None None None None None None
                         (Updates.decalTextureId updates) None None) r4 r5
               ∧ savedRegions s5 = savedRegions s).
  { destruct (Updates.decalTextureId updates) as [v|].
    - apply updateRegion_decal_step in E5 as [? ->]. done.
    - injection E5 as <- <-. by repeat split. }
  destruct H5 as [H5 Hs5].
  set (r10 := patch (Updates.evidence updates) _ _).
  assert (H10 : merged (Updates.mk None None None None (Updates.defectData updates)
                          (Updates.cameraPosition updates) (Updates.cameraTarget updates)
                          None (Updates.notes updates) (Updates.evidence updates))
                  r5 r10).
  { subst r10. unfold patch, merged.
    by destruct (Updates.evidence updates), (Updates.notes updates),
      (Updates.cameraTarget updates), (Updates.cameraPosition updates),
      (Updates.defectData updates). }
  exists r10. eexists. split; [done|]. split; [done|]. split; [done|].
  split; [reflexivity|].
  cbn [savedRegions invalidateLabelPositions set_needsLabelUpdate set_savedRegions
       needsLabelUpdate].
  rewrite Hs5, Hsplit, insert_middle. split; [done|]. split; [|done].
  pose proof (merged_overlay _ _ _ _ _ (merged_overlay _ _ _ _ _
                (merged_overlay _ _ _ _ _ H3 H4) H5) H10) as Hall.
  clear -Hall. destruct updates. unfold overlay in Hall. cbn in Hall.
  unfold merged in *. cbn.
  repeat match goal with
         | H : context [from_option Some ?a ?b] |- _ =>
           is_var b; destruct b; cbn in H
         end.
  all: exact Hall.
Qed.

End UpdateMerge.

Lemma updateRegion_merges_present_fields_witness :
  ∃ before region after region' s',
    savedRegions twoRegionStore = before ++ region :: after
    ∧ Region.id region = js "uuid-1"
    ∧ (js "uuid-1" ∉ Region.id <$> before)
    ∧ updateRegion sampleHost (js "uuid-1")
        (Updates.mk (Some (js "Gouge")) None None (Some 0.5%float) None None None
           (Some Light) None None) twoRegionStore = (true, s')
    ∧ savedRegions s' = before ++ region' :: after
    ∧ merged (Updates.mk (Some (js "Gouge")) None None (Some 0.5%float) None None None
                (Some Light) None None) region region'
    ∧ needsLabelUpdate s' = true.
Proof.
  apply (proj1 (updateRegion_merges_present_fields sampleHost (js "uuid-1")
                  (Updates.mk (Some (js "Gouge")) None None (Some 0.5%float) None None
                     None (Some Light) None None) twoRegionStore)).
  vm_compute. apply elem_of_cons. right. apply elem_of_cons. by left.
Defined.

(** ** Placing and saving *)

Section Placement.
Variable host : Host.

(** X3. The placement flow. Once the preview mesh exists, [updateShapePosition]
    with a point followed by [saveCurrentRegion] under a label that is not
    blank stores one more region; looked up under the returned id (a UUID no
    stored region carries), the region sits at the hovered point and its camera
    state is the pair handed to the save, or nothing when the position or the
    target was left out. After [updateShapePosition(null)] the save fails.
    Without a preview mesh [updateShapePosition] does nothing. *)
Theorem hover_then_save_round_trip
    (p : Vector3) (label : jsstring) (dd : option DefectEntry)
    (cp ct n : option Vector3) (dt : option DecalTextureId) (target : option Object3D)
    (s : Model3DViewer) :
  (is_Some (highlightShape s) → trim label ≠ [] →
   (randomUUID host (uuidCount s) ∉ Region.id <$> savedRegions s) →
     ∃ id s',
       saveCurrentRegion host label dd cp ct n dt target (updateShapePosition (Some p) s)
         = (Some id, s')
       ∧ getRegionPosition id s' = Some p
       ∧ getRegionCameraState id s'
         = match cp, ct with
           | Some position, Some target => Some (position, target)
           | _, _ => None
           end
       ∧ getSavedRegionsCount s' = S (getSavedRegionsCount s))
  ∧ saveCurrentRegion host label dd cp ct n dt target (updateShapePosition None s)
    = (None, updateShapePosition None s)
  ∧ (highlightShape s = None → ∀ point, updateShapePosition point s = s).
Proof.
  split; [|split].
  - intros [shapePosition Hshape] Hlabel Hfresh.
    set (s1 := updateShapePosition (Some p) s).
    assert (Hs1 : highlightShape s1 = Some p ∧ shapeVisible s1 = true
                  ∧ savedRegions s1 = savedRegions s ∧ uuidCount s1 = uuidCount s).
    { subst s1. unfold updateShapePosition. by rewrite Hshape. }
    destruct Hs1 as (Hp & Hv & Hr & Hu).
    destruct (saveCurrentRegion_accepts host label dd cp ct n dt target s1 p Hp Hv Hlabel)
      as (region & s' & Hsave & Hregions & Hsame & _).
    rewrite Hu in Hsave. rewrite Hr in Hregions.
    exists (randomUUID host (uuidCount s)), s'. split; [done|].
    apply merged_sameButDecal in Hsame.
    destruct Hsame as (Hid & Hpos & _ & _ & _ & _ & _ & _ & _ & Hcp & Hct & _).
    cbn in Hid, Hpos, Hcp, Hct. rewrite Hu in Hid.
    assert (Hfind : findRegion (randomUUID host (uuidCount s)) s'
                    = Some (length (savedRegions s), region)).
    { apply findRegion_Some. exists (savedRegions s), []. by rewrite <- Hid. }
    unfold getRegionPosition, getRegionCameraState, getSavedRegionsCount.
    rewrite Hfind, Hregions, length_app. cbn. split; [by rewrite <- Hpos|].
    split; [|lia]. by rewrite <- Hcp, <- Hct.
  - apply saveCurrentRegion_rejects. unfold updateShapePosition.
    destruct (highlightShape s) eqn:Hshape; [right; by left|by left].
  - intros Hnone point. unfold updateShapePosition. by rewrite Hnone.
Qed.

End Placement.

Lemma hover_then_save_round_trip_witness :
  ∃ id s',
    saveCurrentRegion sampleHost (js "Chip") None (Some (V3.mk 9 9 9))
      (Some (V3.mk 0 0 0)) None None None
      (updateShapePosition (Some (V3.mk 7 8 9)) twoRegionStore) = (Some id, s')
    ∧ getRegionPosition id s' = Some (V3.mk 7 8 9)
    ∧ getRegionCameraState id s' = Some (V3.mk 9 9 9, V3.mk 0 0 0)
    ∧ getSavedRegionsCount s' = S (getSavedRegionsCount twoRegionStore).
Proof.
  apply (proj1 (hover_then_save_round_trip sampleHost (V3.mk 7 8 9) (js "Chip") None
                  (Some (V3.mk 9 9 9)) (Some (V3.mk 0 0 0)) None None None
                  twoRegionStore)).
  - by eexists.
  - vm_compute. discriminate.
  - vm_compute. intros Hin. repeat (apply elem_of_cons in Hin as [Hin|Hin]; [discriminate|]).
    by apply elem_of_nil in Hin.
Defined.

(** ** Import in merge mode *)

Section ImportMerge.
Variable host : Host.

(** X4. A valid payload imported with [replace = false] is appended: every
    region stored before is still there, at the same index, under the same id
    and with the same field values (only its decal renderable may have been
    rebuilt); after them come the payload's regions, one per entry and in
    payload order, under newly drawn ids. *)
Theorem importRegions_merge_keeps_existing_and_appends
    (data : RegionsExportData) (rs : list ExportedRegion) (s : Model3DViewer) :
  version data = JSNumber 1 → regions data = Some rs → Forall wellFormedRegion rs →
  ∃ s' kept added,
    importRegions host data false s = (inr (length rs), s')
    ∧ savedRegions s' = kept ++ added
    ∧ Forall2 (merged Updates.none) (savedRegions s) kept
    ∧ Forall2 carries rs added
    ∧ Region.id <$> added = randomUUID host <$> seq (uuidCount s) (length rs)
    ∧ getSavedRegionsCount s' = getSavedRegionsCount s + length rs.
Proof.
  intros Hversion Hregions Hvalid.
  destruct (importRegions_accepts host data false s rs) as (s' & Himport & Hsame & Hu).
  { by rewrite Hversion. }
  { done. }
  { by apply validateRegions_wellFormed. }
  apply Forall2_app_inv_l in Hsame as (kept & added & Hkept & Hadded & Hstore).
  exists s', kept, added. split; [done|]. split; [done|]. split.
  { clear -Hkept. induction Hkept; constructor; [by apply merged_sameButDecal|done]. }
  assert (Hlen : length added = length rs).
  { apply Forall2_length in Hadded. by rewrite <- Hadded, importedFrom_length. }
  split.
  { pose proof (importedFrom_carries host (uuidCount s) rs Hvalid) as Hc.
    clear -Hc Hadded. revert Hadded. generalize added.
    induction Hc as [|region a rs' l Hra _ IH]; intros l' Hsame.
    - inversion Hsame. constructor.
    - inversion Hsame as [|? b ? l'' Hab Hrest]; subst. constructor; [|by apply IH].
      by eapply carries_sameButDecal. }
  split.
  { rewrite <- importedFrom_ids. clear -Hadded.
    induction Hadded as [|a b l l' Hab _ IH]; [done|]. cbn. rewrite IH. f_equal.
    by apply sameButDecal_fields in Hab as (-> & _). }
  unfold getSavedRegionsCount. rewrite Hstore, length_app, Hlen.
  apply Forall2_length in Hkept. lia.
Qed.

End ImportMerge.

Lemma importRegions_merge_keeps_existing_and_appends_witness :
  ∃ s' kept added,
    importRegions sampleHost threeRegions false twoRegionStore = (inr 3, s')
    ∧ savedRegions s' = kept ++ added
    ∧ Forall2 (merged Updates.none) (savedRegions twoRegionStore) kept
    ∧ Forall2 carries
        [sampleEntry "a" "Crack" "high" "cube" 0.5;
         sampleEntry "b" "Rust" "medium" "sphere" 0.25;
         sampleEntry "c" "Mark" "low" "none" 1] added
    ∧ Region.id <$> added = [js "uuid-2"; js "uuid-3"; js "uuid-4"]
    ∧ getSavedRegionsCount s' = getSavedRegionsCount twoRegionStore + 3.
Proof.
  apply (importRegions_merge_keeps_existing_and_appends sampleHost threeRegions
           [sampleEntry "a" "Crack" "high" "cube" 0.5;
            sampleEntry "b" "Rust" "medium" "sphere" 0.25;
            sampleEntry "c" "Mark" "low" "none" 1] twoRegionStore).
  - reflexivity.
  - reflexivity.
  - apply Forall_cons_2;
      [apply sampleEntry_wellFormed; [done|by exists High|by exists Cube|reflexivity]|].
    apply Forall_cons_2;
      [apply sampleEntry_wellFormed; [done|by exists Medium|by exists Sphere|reflexivity]|].
    apply Forall_cons_2;
      [apply sampleEntry_wellFormed; [done|by exists Low|by exists NoneShape|reflexivity]|].
    apply Forall_nil_2.
Defined.

(** ** Decal resources *)

(** The meshes a list of regions owns, in list order. *)
Definition ownedDecals (rs : list SavedHighlightRegion) : list Mesh :=
  omap Region.decalMesh rs.

(** A region that owns a decal has what the decal was projected from: a
    surface normal and a decal texture other than "none". *)
Definition decalJustified (r : SavedHighlightRegion) : Prop :=
  is_Some (Region.decalMesh r) →
  is_Some (Region.normal r) ∧ is_Some (requestsDecal (Region.decalTextureId r)).

(** The decal meshes of the regions [rs] are live in the viewer [s]: no two
    regions share a mesh, every owned mesh is attached to the scene and not
    disposed, and every mesh handle in use was handed out by the viewer. *)
Definition decalsLive (rs : list SavedHighlightRegion) (s : Model3DViewer) : Prop :=
  NoDup (ownedDecals rs)
  ∧ (∀ m, m ∈ ownedDecals rs → m ∈ scene s ∧ (m ∉ disposed s) ∧ m < objectCount s)
  ∧ (∀ m, m ∈ disposed s → m < objectCount s).

(** The decal invariant of the store. *)
Definition decalsSound (s : Model3DViewer) : Prop :=
  Forall decalJustified (savedRegions s) ∧ decalsLive (savedRegions s) s.

(** The singleton of an optional mesh. *)
Definition meshSet (m : option Mesh) : gset Mesh :=
  match m with Some m => {[m]} | None => ∅ end.

Section DecalResources.
Variable host : Host.

Lemma createDecalMesh_effect p n sz t o s :
  let built := createDecalMesh host p n sz t o s in
  (built.1 = None ∧ built.2 = s)
  ∨ (built.1 = Some (objectCount s) ∧ built.2 = set_objectCount (S (objectCount s)) s).
Proof.
  unfold createDecalMesh. destruct t; cbn; try (by left);
    destruct (decalBuilds host _ _ _ _ _); cbn; first [by left|by right].
Qed.

(** What [updateDecalMesh] does to the region and to the scene: the mesh the
    region owned is detached and disposed; the mesh it owns afterwards, if
    any, is a new one, attached to the scene, and the region has a normal and
    a decal texture. *)
Lemma updateDecalMesh_effect r s :
  let r' := (updateDecalMesh host r s).1 in
  let s' := (updateDecalMesh host r s).2 in
  sameButDecal r r'
  ∧ (Region.decalMesh r' = None ∨ Region.decalMesh r' = Some (objectCount s))
  ∧ scene s' = meshSet (Region.decalMesh r') ∪ (scene s ∖ meshSet (Region.decalMesh r))
  ∧ disposed s' = meshSet (Region.decalMesh r) ∪ disposed s
  ∧ objectCount s ≤ objectCount s'
  ∧ (is_Some (Region.decalMesh r') → objectCount s' = S (objectCount s))
  ∧ decalJustified r'.
Proof.
  cbv zeta. unfold updateDecalMesh.
  set (cleared := match Region.decalMesh r with
                  | Some m => (Region.set_decalMesh None r, releaseDecal m s)
                  | None => (r, s) end).
  assert (Hc : sameButDecal r cleared.1 ∧ Region.decalMesh cleared.1 = None
               ∧ scene cleared.2 = scene s ∖ meshSet (Region.decalMesh r)
               ∧ disposed cleared.2 = meshSet (Region.decalMesh r) ∪ disposed s
               ∧ objectCount cleared.2 = objectCount s).
  { subst cleared. destruct (Region.decalMesh r) as [m|] eqn:Hm; cbn.
    - done.
    - split; [done|]. split; [done|]. split; [by rewrite difference_empty_L|].
      split; [by rewrite union_empty_l_L|done]. }
  destruct cleared as [r1 s1]. cbn [fst snd] in Hc.
  destruct Hc as (Hsame & Hnone & Hscene & Hdisp & Hcount).
  assert (Hplain :
    sameButDecal r r1
    ∧ (Region.decalMesh r1 = None ∨ Region.decalMesh r1 = Some (objectCount s))
    ∧ scene s1 = meshSet (Region.decalMesh r1) ∪ (scene s ∖ meshSet (Region.decalMesh r))
    ∧ disposed s1 = meshSet (Region.decalMesh r) ∪ disposed s
    ∧ objectCount s ≤ objectCount s1
    ∧ (is_Some (Region.decalMesh r1) → objectCount s1 = S (objectCount s))
    ∧ decalJustified r1).
  { rewrite Hnone, Hscene, Hdisp, Hcount. cbn [meshSet].
    split; [done|]. split; [by left|]. split; [by rewrite union_empty_l_L|].
    split; [done|]. split; [done|]. split; [by intros [? ?]|].
    unfold decalJustified. rewrite Hnone. by intros [? ?]. }
  destruct (requestsDecal (Region.decalTextureId r1)) as [t|] eqn:Ht; [|exact Hplain].
  destruct (Region.normal r1) as [nv|] eqn:Hn; [|exact Hplain].
  destruct (findMeshAtPosition host (Region.position r1)) as [o|]; [|exact Hplain].
  destruct (createDecalMesh_effect (Region.position r1) nv (Region.size r1) t o s1)
    as [[Hb1 Hb2]|[Hb1 Hb2]];
    destruct (createDecalMesh host (Region.position r1) nv (Region.size r1) t o s1)
      as [built s2]; cbn [fst snd] in Hb1, Hb2; subst built s2; cbn [attachDecal fst snd].
  - exact Hplain.
  - cbn. rewrite Hscene, Hdisp, Hcount.
    split; [by etrans; [exact Hsame|]|]. split; [by right|]. split; [done|].
    split; [done|]. split; [lia|]. split; [done|].
    intros _. cbn. by rewrite Hn, Ht.
Qed.

End DecalResources.

(** [decalsLive] on the list of owned meshes. *)
Definition live (owned : list Mesh) (s : Model3DViewer) : Prop :=
  NoDup owned
  ∧ (∀ m, m ∈ owned → m ∈ scene s ∧ (m ∉ disposed s) ∧ m < objectCount s)
  ∧ (∀ m, m ∈ disposed s → m < objectCount s).

Lemma ownedDecals_middle before r after :
  ownedDecals (before ++ r :: after)
  = ownedDecals before ++ option_list (Region.decalMesh r) ++ ownedDecals after.
Proof.
  unfold ownedDecals. rewrite omap_app. cbn. by destruct (Region.decalMesh r).
Qed.

Lemma elem_of_meshSet m (o : option Mesh) : m ∈ meshSet o ↔ o = Some m.
Proof.
  destruct o as [m'|]; cbn.
  - rewrite elem_of_singleton. split; [by intros ->|by intros [= ->]].
  - split; [by intros ?%not_elem_of_empty|done].
Qed.

(** One region trades the mesh it owns for a new one (or for none). *)
Lemma live_swap (l1 l2 : list Mesh) (old new : option Mesh) s s' :
  live (l1 ++ option_list old ++ l2) s →
  new = None ∨ new = Some (objectCount s) →
  scene s' = meshSet new ∪ (scene s ∖ meshSet old) →
  disposed s' = meshSet old ∪ disposed s →
  objectCount s ≤ objectCount s' →
  (is_Some new → objectCount s' = S (objectCount s)) →
  live (l1 ++ option_list new ++ l2) s'.
Proof.
  intros (Hnodup & Hlive & Hdisp) Hnew Hscene' Hdisp' Hle Hnext.
  assert (Hrest : ∀ m, m ∈ l1 ++ l2 →
            m ∈ scene s ∧ (m ∉ disposed s) ∧ m < objectCount s ∧ old ≠ Some m).
  { intros m Hm. assert (Hin : m ∈ l1 ++ option_list old ++ l2).
    { rewrite !elem_of_app in *. tauto. }
    destruct (Hlive m Hin) as (? & ? & ?). repeat split; try done.
    intros ->. cbn in Hnodup. apply NoDup_app in Hnodup as (_ & Hsep & Hnd).
    apply NoDup_cons in Hnd as [Hnotin _]. apply elem_of_app in Hm as [Hm|Hm]; [|done].
    apply (Hsep m Hm). by left. }
  assert (Hold : ∀ m, old = Some m → m < objectCount s).
  { intros m ->. apply Hlive. rewrite !elem_of_app. right. left. by left. }
  assert (Hnd12 : NoDup (l1 ++ l2)).
  { apply NoDup_app in Hnodup as (H1 & Hsep & H2). apply NoDup_app in H2 as (_ & _ & H2).
    apply NoDup_app. split; [done|]. split; [|done].
    intros m Hm1 Hm2. apply (Hsep m Hm1). rewrite elem_of_app. by right. }
  split; [|split].
  - destruct Hnew as [->| ->]; [done|]. cbn.
    apply NoDup_app in Hnd12 as (H1 & Hsep & H2). apply NoDup_app.
    split; [done|]. split.
    + intros m Hm1 [->|Hm2]%elem_of_cons; [|by apply (Hsep m Hm1)].
      destruct (Hrest (objectCount s)) as (_ & _ & ? & _); [|lia].
      apply elem_of_app. by left.
    + apply NoDup_cons. split; [|done]. intros Hin.
      destruct (Hrest (objectCount s)) as (_ & _ & ? & _); [|lia].
      apply elem_of_app. by right.
  - intros m Hm. rewrite Hscene', Hdisp'.
    rewrite elem_of_union, elem_of_difference, not_elem_of_union, !elem_of_meshSet.
    assert (Hcases : m ∈ l1 ++ l2 ∨ new = Some m).
    { rewrite !elem_of_app in Hm. rewrite elem_of_app.
      destruct Hm as [?|[Hm|?]]; [tauto| |tauto]. right.
      destruct new; cbn in Hm; [|by apply elem_of_nil in Hm].
      apply elem_of_cons in Hm as [->|Hm]; [done|by apply elem_of_nil in Hm]. }
    destruct Hcases as [Hm'|Hm'].
    + destruct (Hrest m Hm') as (? & ? & ? & ?). repeat split; try tauto. lia.
    + split; [by left|]. destruct Hnew as [->|Hnew]; [done|].
      rewrite Hnew in Hm'. injection Hm' as <-.
      specialize (Hnext (ltac:(by rewrite Hnew))). split; [|lia]. split.
      * intros Hold'. apply Hold in Hold'. lia.
      * intros Hd. apply Hdisp in Hd. lia.
  - intros m. rewrite Hdisp', elem_of_union, elem_of_meshSet.
    intros [Hm|Hm]; [apply Hold in Hm|apply Hdisp in Hm]; lia.
Qed.

(** [live] looks at the scene, the disposed meshes and the handle counter only. *)
Lemma live_ext owned s s' :
  scene s' = scene s → disposed s' = disposed s → objectCount s ≤ objectCount s' →
  live owned s → live owned s'.
Proof.
  intros Hs Hd Hc (Hnodup & Hlive & Hdisp). split; [done|]. split.
  - intros m Hm. rewrite Hs, Hd. destruct (Hlive m Hm) as (? & ? & ?).
    repeat split; try done. lia.
  - intros m. rewrite Hd. intros Hm%Hdisp. lia.
Qed.

Section DecalLive.
Variable host : Host.

Lemma updateDecalMesh_live before r after s :
  live (ownedDecals (before ++ r :: after)) s →
  live (ownedDecals (before ++ (updateDecalMesh host r s).1 :: after))
       (updateDecalMesh host r s).2.
Proof.
  rewrite !ownedDecals_middle. intros Hlive.
  destruct (updateDecalMesh_effect host r s) as (_ & Hnew & Hscene & Hdisp & Hle & Hnext & _).
  by eapply live_swap.
Qed.

Lemma recreateDecals_live processed rs s :
  Forall decalJustified (processed ++ rs) → live (ownedDecals (processed ++ rs)) s →
  Forall decalJustified (processed ++ (recreateDecals host rs s).1)
  ∧ live (ownedDecals (processed ++ (recreateDecals host rs s).1))
         (recreateDecals host rs s).2.
Proof.
  revert processed s. induction rs as [|r rs IH]; intros processed s Hj Hlive; [done|].
  cbn [recreateDecals].
  set (step := match requestsDecal (Region.decalTextureId r) with
               | Some _ => _ | None => _ end).
  assert (Hstep : decalJustified step.1
                  ∧ live (ownedDecals (processed ++ step.1 :: rs)) step.2).
  { subst step. apply Forall_app in Hj as [_ Hj]. apply Forall_cons in Hj as [Hr _].
    destruct (requestsDecal (Region.decalTextureId r)); [|done].
    destruct (Region.normal r); [|done].
    split; [apply (updateDecalMesh_effect host r s)|by apply updateDecalMesh_live]. }
  destruct step as [r' s1]. cbn [fst snd] in Hstep. destruct Hstep as [Hr' Hlive'].
  specialize (IH (processed ++ [r']) s1). rewrite <- !app_assoc in IH. cbn [app] in IH.
  destruct IH as [Hj2 Hlive2]; [|done|].
  { apply Forall_app in Hj as [Hd Hj]. apply Forall_cons in Hj as [_ Hrs].
    apply Forall_app. split; [done|]. by apply Forall_cons. }
  by destruct (recreateDecals host rs s1) as [rs' s2].
Qed.

End DecalLive.

(** Two region objects with the same decal mesh, normal and decal texture. *)
Definition sameDecalFields (a b : SavedHighlightRegion) : Prop :=
  Region.decalMesh b = Region.decalMesh a
  ∧ Region.normal b = Region.normal a
  ∧ Region.decalTextureId b = Region.decalTextureId a.

Lemma sameDecalFields_justified a b :
  sameDecalFields a b → decalJustified a → decalJustified b.
Proof. unfold decalJustified. by intros (-> & -> & ->). Qed.

Lemma sameDecalFields_owned before a b after :
  sameDecalFields a b →
  ownedDecals (before ++ b :: after) = ownedDecals (before ++ a :: after).
Proof. intros (Hm & _). by rewrite !ownedDecals_middle, Hm. Qed.

Lemma patch_sameDecalFields {A} (u : option A) set r :
  (∀ v r', sameDecalFields r' (set v r')) → sameDecalFields r (patch u set r).
Proof. intros Hset. unfold patch. by destruct u. Qed.

Lemma sameDecalFields_trans a b c :
  sameDecalFields a b → sameDecalFields b c → sameDecalFields a c.
Proof. unfold sameDecalFields. intros (-> & -> & ->) (-> & -> & ->). done. Qed.

Lemma decalsSound_middle before r after s :
  decalsSound (set_savedRegions (before ++ r :: after) s) ↔
  (Forall decalJustified before ∧ decalJustified r ∧ Forall decalJustified after)
  ∧ live (ownedDecals (before ++ r :: after)) s.
Proof.
  unfold decalsSound, decalsLive, live. cbn [savedRegions set_savedRegions scene disposed
    objectCount]. by rewrite Forall_app, Forall_cons.
Qed.

Section DecalsSound.
Variable host : Host.

Lemma saveCurrentRegion_sound label dd cp ct n dt target s :
  decalsSound s → decalsSound (saveCurrentRegion host label dd cp ct n dt target s).2.
Proof.
  intros [Hj Hlive]. unfold saveCurrentRegion.
  destruct (highlightShape s) as [shapePosition|]; [|done].
  destruct (negb (shapeVisible s)); [done|].
  destruct (_ || _); [done|].
  unfold generateId.
  set (s1 := set_uuidCount (S (uuidCount s)) s).
  set (region0 := Region.mk _ _ _ _ _ _ _ _ _ _ _ _ _ _).
  set (step := match requestsDecal dt with Some _ => _ | None => _ end).
  assert (Hstep :
    decalJustified step.1 ∧ savedRegions step.2 = savedRegions s
    ∧ (Region.decalMesh step.1 = None ∨ Region.decalMesh step.1 = Some (objectCount s))
    ∧ scene step.2 = meshSet (Region.decalMesh step.1) ∪ (scene s ∖ meshSet None)
    ∧ disposed step.2 = meshSet None ∪ disposed s
    ∧ objectCount s ≤ objectCount step.2
    ∧ (is_Some (Region.decalMesh step.1) → objectCount step.2 = S (objectCount s))).
  { assert (Hplain :
      decalJustified region0 ∧ savedRegions s1 = savedRegions s
      ∧ (Region.decalMesh region0 = None ∨ Region.decalMesh region0 = Some (objectCount s))
      ∧ scene s1 = meshSet (Region.decalMesh region0) ∪ (scene s ∖ meshSet None)
      ∧ disposed s1 = meshSet None ∪ disposed s
      ∧ objectCount s ≤ objectCount s1
      ∧ (is_Some (Region.decalMesh region0) → objectCount s1 = S (objectCount s))).
    { cbn. split; [by intros [? ?]|]. split; [done|]. split; [by left|].
      split; [by rewrite difference_empty_L, union_empty_l_L|].
      split; [by rewrite union_empty_l_L|]. split; [done|]. by intros [? ?]. }
    subst step. destruct (requestsDecal dt) as [t|] eqn:Ht; [|exact Hplain].
    destruct n as [nv|]; [|exact Hplain]. destruct target as [o|]; [|exact Hplain].
    destruct (createDecalMesh_effect host (Region.position region0) nv
                (Region.size region0) t o s1) as [[Hb1 Hb2]|[Hb1 Hb2]];
      destruct (createDecalMesh host (Region.position region0) nv
                  (Region.size region0) t o s1) as [built s2];
      cbn [fst snd] in Hb1, Hb2; subst built s2; cbn [attachDecal fst snd].
    - exact Hplain.
    - cbn. split; [intros _; cbn; by rewrite Ht|]. split; [done|]. split; [by right|].
      split; [by rewrite difference_empty_L|]. split; [by rewrite union_empty_l_L|].
      split; [lia|done]. }
  destruct step as [region s2]. cbn [fst snd] in Hstep.
  destruct Hstep as (Hjr & Hregions & Hnew & Hscene & Hdisp & Hle & Hnext).
  cbn [snd]. unfold decalsSound, decalsLive.
  cbn [savedRegions invalidateLabelPositions set_needsLabelUpdate set_savedRegions
       scene disposed objectCount].
  rewrite Hregions. split; [apply Forall_app; split; [done|by apply Forall_cons]|].
  change (live (ownedDecals (savedRegions s ++ [region])) s2).
  rewrite ownedDecals_middle. apply (live_swap _ _ None _ s); try done.
  cbn [option_list ownedDecals omap]. by rewrite !app_nil_r.
Qed.

Lemma updateRegion_sound id updates s :
  decalsSound s → decalsSound (updateRegion host id updates s).2.
Proof.
  intros Hsound. unfold updateRegion.
  destruct (list_find (fun r => Region.id r = id) (savedRegions s))
    as [[i region]|] eqn:Hfind; [|done].
  pose proof Hfind as (before & after & Hsplit & -> & _)%findRegion_Some.
  assert (Hs0 : (Forall decalJustified before ∧ decalJustified region
                 ∧ Forall decalJustified after)
                ∧ live (ownedDecals (before ++ region :: after)) s).
  { destruct Hsound as [Hj Hlive]. unfold decalsLive in Hlive. rewrite Hsplit in Hj, Hlive.
    apply Forall_app in Hj as [? Hj]. apply Forall_cons in Hj as [? ?]. done. }
  destruct Hs0 as [(Hjb & Hjr & Hja) Hlive]. cbv zeta.
  set (r3 := patch (Updates.type updates) Region.set_type _).
  assert (H3 : sameDecalFields region r3).
  { subst r3. unfold patch.
    by destruct (Updates.type updates), (Updates.severity updates), (Updates.label updates). }
  destruct (match Updates.size updates with Some _ => _ | None => _ end)
    as [r4 s4] eqn:E4.
  assert (H4 : decalJustified r4 ∧ live (ownedDecals (before ++ r4 :: after)) s4
               ∧ savedRegions s4 = savedRegions s).
  { assert (Hplain : decalJustified r3 ∧ live (ownedDecals (before ++ r3 :: after)) s).
    { split; [by eapply sameDecalFields_justified|].
      by rewrite (sameDecalFields_owned before region r3 after). }
    destruct Hplain as [Hj3 Hl3].
    destruct (Updates.size updates) as [v|]; [|by injection E4 as <- <-].
    assert (Hsized : sameDecalFields r3 (Region.set_size v r3)) by done.
    assert (Hcall : ∀ r' s',
      updateDecalMesh host (Region.set_size v r3) s = (r', s') →
      decalJustified r' ∧ live (ownedDecals (before ++ r' :: after)) s'
      ∧ savedRegions s' = savedRegions s).
    { intros r' s' Hcall.
      pose proof (updateDecalMesh_effect host (Region.set_size v r3) s) as Heff.
      pose proof (updateDecalMesh_live host before (Region.set_size v r3) after s) as Hl.
      pose proof (updateDecalMesh_keeps host _ _ _ _ Hcall) as [_ Hkeep].
      rewrite Hcall in Heff, Hl. cbn [fst snd] in Heff, Hl.
      split; [apply Heff|]. split; [|done]. apply Hl.
      by rewrite (sameDecalFields_owned before r3 _ after). }
    destruct (Region.decalMesh (Region.set_size v r3)) eqn:Hm;
      [by apply Hcall|].
    destruct (requestsDecal (Region.decalTextureId (Region.set_size v r3)));
      [by apply Hcall|].
    injection E4 as <- <-. split; [by eapply sameDecalFields_justified|].
    split; [|done]. by rewrite (sameDecalFields_owned before r3 _ after). }
  destruct H4 as (Hj4 & Hl4 & Hs4).
  destruct (match Updates.decalTextureId updates with Some _ => _ | None => _ end)
    as [r5 s5] eqn:E5.
  assert (H5 : decalJustified r5 ∧ live (ownedDecals (before ++ r5 :: after)) s5
               ∧ savedRegions s5 = savedRegions s).
  { destruct (Updates.decalTextureId updates) as [v|]; [|by injection E5 as <- <-].
    pose proof (updateDecalMesh_effect host (Region.set_decalTextureId (Some v) r4) s4)
      as Heff.
    pose proof (updateDecalMesh_live host before
                  (Region.set_decalTextureId (Some v) r4) after s4) as Hl.
    pose proof (updateDecalMesh_keeps host _ _ _ _ E5) as [_ Hkeep].
    rewrite E5 in Heff, Hl. cbn [fst snd] in Heff, Hl.
    split; [apply Heff|]. split; [|congruence]. apply Hl.
    by rewrite !ownedDecals_middle in *. }
  destruct H5 as (Hj5 & Hl5 & Hs5).
  set (r10 := patch (Updates.evidence updates) _ _).
  assert (H10 : sameDecalFields r5 r10).
  { subst r10. unfold patch.
    by destruct (Updates.evidence updates), (Updates.notes updates),
      (Updates.cameraTarget updates), (Updates.cameraPosition updates),
      (Updates.defectData updates). }
  cbn [snd]. unfold invalidateLabelPositions.
  rewrite Hs5, Hsplit, insert_middle.
  assert (Hfinal : decalsSound (set_savedRegions (before ++ r10 :: after) s5)).
  { apply decalsSound_middle. split.
    - split; [done|]. split; [by eapply sameDecalFields_justified|done].
    - by rewrite (sameDecalFields_owned before r5 r10 after). }
  exact Hfinal.
Qed.

End DecalsSound.

Lemma decalsSound_ext s s' :
  savedRegions s' = savedRegions s → scene s' = scene s → disposed s' = disposed s →
  objectCount s ≤ objectCount s' → decalsSound s → decalsSound s'.
Proof.
  intros Hr Hsc Hdi Hoc [Hj Hlive]. unfold decalsSound, decalsLive. rewrite Hr.
  split; [done|]. by apply (live_ext _ s).
Qed.

Lemma clearOcclusionState_resources s :
  scene (clearOcclusionState s) = scene s
  ∧ disposed (clearOcclusionState s) = disposed s
  ∧ objectCount (clearOcclusionState s) = objectCount s.
Proof. unfold clearOcclusionState. by destruct (gl s). Qed.

Lemma deleteRegion_sound id s : decalsSound s → decalsSound (deleteRegion id s).2.
Proof.
  intros [Hj Hlive]. unfold deleteRegion.
  destruct (list_find (fun r => Region.id r = id) (savedRegions s))
    as [[i region]|] eqn:Hfind; [|done].
  pose proof Hfind as (before & after & Hsplit & -> & _)%findRegion_Some.
  unfold decalsLive in Hlive. rewrite Hsplit in Hj, Hlive.
  set (s1 := match Region.decalMesh region with
             | Some m => releaseDecal m s | None => s end).
  assert (Hs1 : savedRegions s1 = savedRegions s
                ∧ live (ownedDecals before ++ option_list None ++ ownedDecals after) s1).
  { rewrite ownedDecals_middle in Hlive.
    split; [subst s1; by destruct (Region.decalMesh region)|].
    apply (live_swap _ _ (Region.decalMesh region) None s); try done; [by left|..].
    - subst s1. destruct (Region.decalMesh region); cbn.
      + by rewrite union_empty_l_L.
      + by rewrite difference_empty_L, union_empty_l_L.
    - subst s1. destruct (Region.decalMesh region); cbn; [done|by rewrite union_empty_l_L].
    - subst s1. by destruct (Region.decalMesh region). }
  destruct Hs1 as [Hr1 Hl1]. cbn [option_list app] in Hl1.
  cbn [snd].
  apply (decalsSound_ext (set_savedRegions (before ++ after) s1)).
  - cbn [savedRegions invalidateLabelPositions set_needsLabelUpdate].
    destruct (clearOcclusionState_store
                (set_savedRegions (delete (length before) (savedRegions s1)) s1)) as [-> _].
    cbn [savedRegions set_savedRegions]. by rewrite Hr1, Hsplit, delete_middle.
  - cbn [scene invalidateLabelPositions set_needsLabelUpdate].
    by destruct (clearOcclusionState_resources
                   (set_savedRegions (delete (length before) (savedRegions s1)) s1))
      as (-> & _ & _).
  - cbn [disposed invalidateLabelPositions set_needsLabelUpdate].
    by destruct (clearOcclusionState_resources
                   (set_savedRegions (delete (length before) (savedRegions s1)) s1))
      as (_ & -> & _).
  - cbn [objectCount invalidateLabelPositions set_needsLabelUpdate].
    by destruct (clearOcclusionState_resources
                   (set_savedRegions (delete (length before) (savedRegions s1)) s1))
      as (_ & _ & ->).
  - apply Forall_app in Hj as [Hjb Hj]. apply Forall_cons in Hj as [_ Hja].
    split; [by apply Forall_app|]. unfold decalsLive. cbn [savedRegions set_savedRegions].
    unfold ownedDecals. rewrite omap_app. exact Hl1.
Qed.

Lemma updateRegionPosition_sound id p s :
  decalsSound s → decalsSound (updateRegionPosition id p s).2.
Proof.
  intros [Hj Hlive]. unfold updateRegionPosition.
  destruct (findRegion id s) as [[i region]|] eqn:Hfind; [|done].
  pose proof Hfind as (before & after & Hsplit & -> & _)%findRegion_Some.
  unfold decalsLive in Hlive. rewrite Hsplit in Hj, Hlive.
  cbn [snd]. unfold invalidateLabelPositions. rewrite Hsplit, insert_middle.
  assert (Hfinal : decalsSound
            (set_savedRegions (before ++ withPosition p region :: after) s)).
  { apply decalsSound_middle.
    apply Forall_app in Hj as [Hjb Hj]. apply Forall_cons in Hj as [Hjr Hja].
    split; [done|]. by rewrite (sameDecalFields_owned before region _ after). }
  exact Hfinal.
Qed.

Lemma ownedDecals_importedFrom host k rs : ownedDecals (importedFrom host k rs) = [].
Proof. revert k. induction rs as [|r rs IH]; intros k; [done|]. cbn. apply IH. Qed.

Lemma importedFrom_justified host k rs : Forall decalJustified (importedFrom host k rs).
Proof.
  revert k. induction rs as [|r rs IH]; intros k; constructor; [|apply IH].
  by intros [? ?].
Qed.

Section DecalsSoundImport.
Variable host : Host.

Lemma importLoop_resources rs s :
  scene (importLoop host rs s) = scene s
  ∧ disposed (importLoop host rs s) = disposed s
  ∧ objectCount (importLoop host rs s) = objectCount s.
Proof.
  revert s. induction rs as [|r rs IH]; intros s; [done|].
  cbn [importLoop generateId]. by destruct (IH
    (set_savedRegions
       (savedRegions (set_uuidCount (S (uuidCount s)) s)
          ++ [importedRegion (randomUUID host (uuidCount s)) r])
       (set_uuidCount (S (uuidCount s)) s))) as (-> & -> & ->).
Qed.

Lemma importRegions_sound data replace s :
  decalsSound s → decalsSound (importRegions host data replace s).2.
Proof.
  intros [Hj Hlive]. unfold importRegions.
  destruct (strictNeNumber (version data) 1); [done|].
  destruct (regions data) as [rs|]; [|done].
  destruct (validateRegions rs); [done|].
  set (s1 := if replace then clearOcclusionState (set_savedRegions [] s) else s).
  assert (Hs1 : Forall decalJustified (savedRegions s1)
                ∧ live (ownedDecals (savedRegions s1)) s1).
  { subst s1. destruct replace; [|done].
    destruct (clearOcclusionState_store (set_savedRegions [] s)) as [-> _].
    destruct (clearOcclusionState_resources (set_savedRegions [] s)) as (Hsc & Hdi & Hoc).
    split; [constructor|]. destruct Hlive as (_ & _ & Hdisp).
    split; [constructor|]. split; [by intros m ?%elem_of_nil|].
    intros m. rewrite Hdi, Hoc. apply Hdisp. }
  destruct Hs1 as [Hj1 Hl1].
  destruct (importLoop_spec host rs s1) as [Hr2 _].
  destruct (importLoop_resources rs s1) as (Hsc2 & Hdi2 & Hoc2).
  set (s2 := importLoop host rs s1) in *.
  assert (Hs2 : Forall decalJustified (savedRegions s2)
                ∧ live (ownedDecals (savedRegions s2)) s2).
  { rewrite Hr2. split; [apply Forall_app; split; [done|apply importedFrom_justified]|].
    unfold ownedDecals. rewrite omap_app. fold (ownedDecals (importedFrom host (uuidCount s1) rs)).
    rewrite ownedDecals_importedFrom, app_nil_r.
    apply (live_ext _ s1); [done|done|lia|done]. }
  destruct Hs2 as [Hj2 Hl2].
  destruct (recreateDecals_live host [] (savedRegions s2) s2 Hj2 Hl2) as [Hj3 Hl3].
  destruct (recreateDecals host (savedRegions s2) s2) as [updated s3].
  cbn [fst snd app] in *. split; [done|]. exact Hl3.
Qed.

End DecalsSoundImport.

Lemma collectResult_resources gpu i query s :
  savedRegions (collectResult gpu i query s) = savedRegions s
  ∧ scene (collectResult gpu i query s) = scene s
  ∧ disposed (collectResult gpu i query s) = disposed s
  ∧ objectCount (collectResult gpu i query s) = objectCount s.
Proof.
  unfold collectResult. destruct (occlusionResults s !! i) as [old|]; [|done].
  by destruct (bool_decide (old = _)).
Qed.

Lemma queryLoop_resources gpu i rs s :
  savedRegions (queryLoop gpu i rs s).2 = savedRegions s
  ∧ scene (queryLoop gpu i rs s).2 = scene s
  ∧ disposed (queryLoop gpu i rs s).2 = disposed s
  ∧ objectCount s ≤ objectCount (queryLoop gpu i rs s).2.
Proof.
  revert i s. induction rs as [|r rs IH]; intros i s; [done|].
  cbn [queryLoop].
  set (s1 := if bool_decide (is_Some (occlusionQueries s !! i)) then s else _).
  assert (H1 : savedRegions s1 = savedRegions s ∧ scene s1 = scene s
               ∧ disposed s1 = disposed s ∧ objectCount s ≤ objectCount s1).
  { subst s1. case_bool_decide; [done|]. destruct (createQueryOk gpu i); [|done].
    cbn. repeat split; lia. }
  destruct H1 as (Hr & Hsc & Hdi & Hoc).
  destruct (occlusionQueries s1 !! i) as [query|]; cycle 1.
  { destruct (IH (S i) s1) as (-> & -> & -> & ?). repeat split; try done. lia. }
  destruct (bool_decide (is_Some (occlusionQueries s !! i)) && negb (resultAvailable gpu query)).
  { destruct (IH (S i) s1) as (-> & -> & -> & ?). repeat split; try done. lia. }
  set (s2 := if bool_decide (is_Some (occlusionQueries s !! i)) then _ else s1).
  assert (H2 : savedRegions s2 = savedRegions s ∧ scene s2 = scene s
               ∧ disposed s2 = disposed s ∧ objectCount s ≤ objectCount s2).
  { subst s2. case_bool_decide; [|done].
    destruct (collectResult_resources gpu i query s1) as (-> & -> & -> & ->). done. }
  destruct H2 as (Hr2 & Hsc2 & Hdi2 & Hoc2). destruct (IH (S i) s2) as (Hr3 & Hsc3 & Hdi3 & Hoc3).
  destruct (queryLoop gpu (S i) rs s2) as [started s3]. cbn [snd] in *.
  repeat split; try congruence. lia.
Qed.

Lemma runOcclusionQueries_sound gpu s :
  decalsSound s → decalsSound (runOcclusionQueries gpu s).2.
Proof.
  intros [Hj Hlive].
  assert (Hloop : ∀ rs s0, savedRegions s0 = savedRegions s → scene s0 = scene s →
            disposed s0 = disposed s → objectCount s0 = objectCount s →
            decalsSound (queryLoop gpu 0 rs s0).2).
  { intros rs s0 Hr Hsc Hdi Hoc.
    destruct (queryLoop_resources gpu 0 rs s0) as (Hr' & Hsc' & Hdi' & Hoc').
    apply (decalsSound_ext s); [congruence|congruence|congruence|lia|done]. }
  unfold runOcclusionQueries. destruct (_ || _ || _ || _); [done|].
  destruct (smoothCameraMode s), (isCameraMoving s); cbn [negb]; try done.
  - by apply Hloop.
  - case_bool_decide; [done|]. by apply Hloop.
Qed.

Section DecalTheorems.
Variable host : Host.

(** X5. The decal invariant of the store is kept by every operation that
    touches regions or hands out object handles. Suppose that no two regions
    share a decal mesh, that every mesh a region owns is attached to the scene,
    not disposed and was handed out by the viewer, and that every region owning
    a mesh has a surface normal and a decal texture other than "none". Then the
    same holds after [saveCurrentRegion], [updateRegion],
    [updateRegionPosition], [deleteRegion], [importRegions] (in either mode,
    accepted or refused) and [runOcclusionQueries]. *)
Theorem decal_invariant_kept_by_every_operation
    (s : Model3DViewer) (label id : jsstring) (dd : option DefectEntry)
    (cp ct n : option Vector3) (dt : option DecalTextureId) (target : option Object3D)
    (updates : RegionUpdates) (p : Vector3) (data : RegionsExportData) (replace : bool)
    (gpu : GpuFrame) :
  decalsSound s →
  decalsSound (saveCurrentRegion host label dd cp ct n dt target s).2
  ∧ decalsSound (updateRegion host id updates s).2
  ∧ decalsSound (updateRegionPosition id p s).2
  ∧ decalsSound (deleteRegion id s).2
  ∧ decalsSound (importRegions host data replace s).2
  ∧ decalsSound (runOcclusionQueries gpu s).2.
Proof.
  intros Hsound. split; [by apply saveCurrentRegion_sound|].
  split; [by apply updateRegion_sound|]. split; [by apply updateRegionPosition_sound|].
  split; [by apply deleteRegion_sound|]. split; [by apply importRegions_sound|].
  by apply runOcclusionQueries_sound.
Qed.

Lemma recreateDecals_no_release rs s :
  Forall (fun r => Region.decalMesh r = None) rs →
  scene s ⊆ scene (recreateDecals host rs s).2
  ∧ disposed (recreateDecals host rs s).2 = disposed s
  ∧ objectCount s ≤ objectCount (recreateDecals host rs s).2
  ∧ ∀ m, m ∈ ownedDecals (recreateDecals host rs s).1 → objectCount s ≤ m.
Proof.
  intros Hnone. revert s. induction Hnone as [|r rs Hr _ IH]; intros s.
  { repeat split; try done. by intros m ?%elem_of_nil. }
  cbn [recreateDecals].
  set (step := match requestsDecal (Region.decalTextureId r) with
               | Some _ => _ | None => _ end).
  assert (Hstep : scene s ⊆ scene step.2 ∧ disposed step.2 = disposed s
                  ∧ objectCount s ≤ objectCount step.2
                  ∧ ∀ m, Region.decalMesh step.1 = Some m → m = objectCount s).
  { assert (Hkeep : scene s ⊆ scene (r, s).2 ∧ disposed (r, s).2 = disposed s
                     ∧ objectCount s ≤ objectCount (r, s).2
                     ∧ ∀ m, Region.decalMesh (r, s).1 = Some m → m = objectCount s).
    { cbn [fst snd]. rewrite Hr. done. }
    subst step. destruct (requestsDecal (Region.decalTextureId r)); [|exact Hkeep].
    destruct (Region.normal r); [|exact Hkeep].
    destruct (updateDecalMesh_effect host r s) as (_ & Hnew & Hscene & Hdisp & Hle & _).
    rewrite Hr in Hscene, Hdisp. cbn [meshSet] in Hscene, Hdisp.
    rewrite difference_empty_L in Hscene. rewrite union_empty_l_L in Hdisp.
    split; [rewrite Hscene; apply union_subseteq_r|]. split; [done|]. split; [done|].
    intros m Hm. destruct Hnew as [Hnew|Hnew]; rewrite Hnew in Hm; congruence. }
  destruct step as [r' s1]. cbn [fst snd] in Hstep.
  destruct Hstep as (Hsc & Hdi & Hoc & Hm). destruct (IH s1) as (Hsc2 & Hdi2 & Hoc2 & Hm2).
  destruct (recreateDecals host rs s1) as [rs' s2]. cbn [fst snd] in *.
  split; [by etrans|]. split; [congruence|]. split; [lia|].
  intros m. change (r' :: rs') with ([] ++ r' :: rs'). rewrite ownedDecals_middle.
  rewrite !elem_of_app. intros [Hin|[Hin|Hin]].
  - by apply elem_of_nil in Hin.
  - destruct (Region.decalMesh r') as [m'|] eqn:Hm'; cbn in Hin.
    + apply elem_of_cons in Hin as [->|Hin]; [|by apply elem_of_nil in Hin].
      by rewrite (Hm m').
    + by apply elem_of_nil in Hin.
  - specialize (Hm2 m Hin). lia.
Qed.

(** X6. [importRegions] in replace mode drops the stored regions without
    releasing their decals: after a successful import every decal mesh that a
    replaced region owned is still attached to the scene, is not disposed, and
    belongs to no region of the store. *)
Theorem importRegions_replace_orphans_decals
    (data : RegionsExportData) (rs : list ExportedRegion) (s : Model3DViewer) :
  decalsSound s →
  version data = JSNumber 1 → regions data = Some rs → Forall wellFormedRegion rs →
  ∀ m, m ∈ ownedDecals (savedRegions s) →
    m ∈ scene (importRegions host data true s).2
    ∧ (m ∉ disposed (importRegions host data true s).2)
    ∧ (m ∉ ownedDecals (savedRegions (importRegions host data true s).2)).
Proof.
  intros [_ (_ & Hlive & _)] Hversion Hregions Hvalid m Hm.
  destruct (Hlive m Hm) as (Hscene & Hdisp & Hcount).
  unfold importRegions. rewrite Hversion, Hregions.
  change (strictNeNumber (JSNumber 1) 1) with false. cbv iota.
  rewrite (validateRegions_wellFormed rs Hvalid).
  set (s1 := clearOcclusionState (set_savedRegions [] s)).
  destruct (clearOcclusionState_store (set_savedRegions [] s)) as [Hr1 _].
  destruct (clearOcclusionState_resources (set_savedRegions [] s)) as (Hsc1 & Hdi1 & Hoc1).
  fold s1 in Hr1, Hsc1, Hdi1, Hoc1. cbn in Hr1, Hsc1, Hdi1, Hoc1.
  destruct (importLoop_spec host rs s1) as [Hr2 _].
  destruct (importLoop_resources host rs s1) as (Hsc2 & Hdi2 & Hoc2).
  rewrite Hr1 in Hr2. cbn [app] in Hr2.
  destruct (recreateDecals_no_release (savedRegions (importLoop host rs s1))
              (importLoop host rs s1)) as (Hsc3 & Hdi3 & Hoc3 & Hnew).
  { rewrite Hr2. clear. generalize (uuidCount s1).
    induction rs as [|r rs IH]; intros k; constructor; [done|apply IH]. }
  destruct (recreateDecals host _ _) as [updated s3]. cbn [fst snd] in *.
  change (m ∈ scene s3 ∧ (m ∉ disposed s3) ∧ (m ∉ ownedDecals updated)).
  split; [apply Hsc3; by rewrite Hsc2, Hsc1|].
  split; [by rewrite Hdi3, Hdi2, Hdi1|].
  intros Hin. apply Hnew in Hin. lia.
Qed.

End DecalTheorems.

Lemma decalsSound_savedScratch : decalsSound savedScratch.2.
Proof.
  apply saveCurrentRegion_sound. split; [constructor|]. split; [constructor|].
  split; [by intros m ?%elem_of_nil|]. by intros m ?%not_elem_of_empty.
Qed.

Lemma decal_invariant_kept_by_every_operation_witness :
  decalsSound
    (saveCurrentRegion sampleHost (js "Dent") None None None (Some (V3.mk 0 1 0))
       (Some Light) (Some 0) savedScratch.2).2
  ∧ decalsSound
      (updateRegion sampleHost (js "uuid-0")
         (Updates.mk None None None (Some 0.5%float) None None None None None None)
         savedScratch.2).2
  ∧ decalsSound (updateRegionPosition (js "uuid-0") (V3.mk 4 5 6) savedScratch.2).2
  ∧ decalsSound (deleteRegion (js "uuid-0") savedScratch.2).2
  ∧ decalsSound (importRegions sampleHost threeRegions true savedScratch.2).2
  ∧ decalsSound (runOcclusionQueries sampleGpu savedScratch.2).2.
Proof.
  exact (decal_invariant_kept_by_every_operation sampleHost savedScratch.2
           (js "Dent") (js "uuid-0") None None None (Some (V3.mk 0 1 0)) (Some Light)
           (Some 0) (Updates.mk None None None (Some 0.5%float) None None None None None None)
           (V3.mk 4 5 6) threeRegions true sampleGpu decalsSound_savedScratch).
Defined.

Lemma importRegions_replace_orphans_decals_witness :
  0 ∈ scene (importRegions sampleHost threeRegions true savedScratch.2).2
  ∧ (0 ∉ disposed (importRegions sampleHost threeRegions true savedScratch.2).2)
  ∧ (0 ∉ ownedDecals
           (savedRegions (importRegions sampleHost threeRegions true savedScratch.2).2)).
Proof.
  apply (importRegions_replace_orphans_decals sampleHost threeRegions
           [sampleEntry "a" "Crack" "high" "cube" 0.5;
            sampleEntry "b" "Rust" "medium" "sphere" 0.25;
            sampleEntry "c" "Mark" "low" "none" 1] savedScratch.2
           decalsSound_savedScratch).
  - reflexivity.
  - reflexivity.
  - apply Forall_cons_2;
      [apply sampleEntry_wellFormed; [done|by exists High|by exists Cube|reflexivity]|].
    apply Forall_cons_2;
      [apply sampleEntry_wellFormed; [done|by exists Medium|by exists Sphere|reflexivity]|].
    apply Forall_cons_2;
      [apply sampleEntry_wellFormed; [done|by exists Low|by exists NoneShape|reflexivity]|].
    apply Forall_nil_2.
  - vm_compute. left.
Defined.

(** The orphaned decal, evaluated: the saved region owns mesh 0; after the
    import in replace mode mesh 0 is in the scene and undisposed, while the
    store holds three regions none of which owns a mesh. *)
Example orphaned_decal :
  ownedDecals (savedRegions savedScratch.2) = [0]
  ∧ elements (scene (importRegions sampleHost threeRegions true savedScratch.2).2) = [0]
  ∧ elements (disposed (importRegions sampleHost threeRegions true savedScratch.2).2) = []
  ∧ Region.decalMesh
      <$> savedRegions (importRegions sampleHost threeRegions true savedScratch.2).2
    = [None; None; None].
Proof. repeat split; vm_compute; reflexivity. Qed.

(** ** The size percentage *)

Lemma SFcompare_antisym a b : SFcompare b a = option_map CompOpp (SFcompare a b).
Proof.
  destruct a as [[]|[]| |[] m1 e1], b as [[]|[]| |[] m2 e2]; try reflexivity; cbn;
    rewrite (Z.compare_antisym e1 e2); destruct (e1 ?= e2)%Z; cbn; try reflexivity;
    rewrite (Pos.compare_cont_antisym m1 m2 Eq); cbn;
    destruct (Pos.compare_cont Eq m1 m2); reflexivity.
Qed.

Lemma SFcompare_None a b : SFcompare a b = None → a = S754_nan ∨ b = S754_nan.
Proof.
  destruct a as [[]|[]| |[] m1 e1], b as [[]|[]| |[] m2 e2]; cbn; try discriminate;
    first [by left|by right].
Qed.

Lemma SFcompare_Eq_finite a s m e :
  SFcompare a (S754_finite s m e) = Some Eq → a = S754_finite s m e.
Proof.
  destruct a as [[]|[]| |[] m1 e1], s; cbn; try discriminate;
    destruct (e1 ?= e)%Z eqn:He; try discriminate;
    destruct (Pos.compare_cont Eq m1 m) eqn:Hm; try discriminate; intros _;
    apply Z.compare_eq in He; apply Pcompare_Eq_eq in Hm; congruence.
Qed.

Lemma SFltb_finite_apart x m1 e1 m2 e2 :
  (e1 < e2)%Z →
  SFltb x (S754_finite false m1 e1) = true → SFltb (S754_finite false m2 e2) x = false.
Proof.
  intros He. unfold SFltb. destruct x as [[]|[]| |[] m e]; cbn; try congruence.
  destruct (Z.compare_spec e e1), (Z.compare_spec e2 e); try congruence; lia.
Qed.

Lemma is_nan_Prim2SF (a : float) : PrimFloat.is_nan a = false → Prim2SF a ≠ S754_nan.
Proof.
  unfold PrimFloat.is_nan. rewrite FloatAxioms.eqb_spec. intros Hnan Heq.
  rewrite Heq in Hnan. discriminate.
Qed.

Lemma ltb_not_gtb (a b : float) : (a <? b)%float = true → (b <? a)%float = false.
Proof.
  rewrite !FloatAxioms.ltb_spec. unfold SFltb.
  rewrite (SFcompare_antisym (Prim2SF a) (Prim2SF b)).
  by destruct (SFcompare (Prim2SF a) (Prim2SF b)) as [[]|].
Qed.

Lemma leb_not_gtb (a b : float) : (a <=? b)%float = true → (b <? a)%float = false.
Proof.
  rewrite FloatAxioms.ltb_spec, FloatAxioms.leb_spec. unfold SFltb, SFleb.
  rewrite (SFcompare_antisym (Prim2SF a) (Prim2SF b)).
  by destruct (SFcompare (Prim2SF a) (Prim2SF b)) as [[]|].
Qed.

Lemma ltb_leb (a b : float) : (a <? b)%float = true → (a <=? b)%float = true.
Proof.
  rewrite FloatAxioms.ltb_spec, FloatAxioms.leb_spec. unfold SFltb, SFleb.
  by destruct (SFcompare (Prim2SF a) (Prim2SF b)) as [[]|].
Qed.

Lemma not_gtb_leb (a b : float) :
  PrimFloat.is_nan a = false → PrimFloat.is_nan b = false →
  (b <? a)%float = false → (a <=? b)%float = true.
Proof.
  intros Ha%is_nan_Prim2SF Hb%is_nan_Prim2SF.
  rewrite FloatAxioms.ltb_spec, FloatAxioms.leb_spec. unfold SFltb, SFleb.
  rewrite (SFcompare_antisym (Prim2SF a) (Prim2SF b)).
  destruct (SFcompare (Prim2SF a) (Prim2SF b)) as [[]|] eqn:Hc; try done.
  by destruct (SFcompare_None _ _ Hc).
Qed.

(** Two numbers neither of which is below the other are the same number when
    one of them is finite and not zero. *)
Lemma neither_below_eq (a b : float) s m e :
  Prim2SF b = S754_finite s m e → PrimFloat.is_nan a = false →
  (a <? b)%float = false → (b <? a)%float = false → a = b.
Proof.
  intros Hb Ha%is_nan_Prim2SF. rewrite !FloatAxioms.ltb_spec. unfold SFltb.
  rewrite (SFcompare_antisym (Prim2SF a) (Prim2SF b)).
  destruct (SFcompare (Prim2SF a) (Prim2SF b)) as [[]|] eqn:Hc; try done.
  - intros _ _. rewrite Hb in Hc. apply SFcompare_Eq_finite in Hc.
    apply Prim2SF_inj. by rewrite Hc, Hb.
  - destruct (SFcompare_None _ _ Hc) as [?|Hnan]; [done|]. by rewrite Hb in Hnan.
Qed.

Lemma below_1_not_above_300 (p : float) :
  (p <? 1)%float = true → (300 <? p)%float = false.
Proof.
  rewrite !FloatAxioms.ltb_spec.
  replace (Prim2SF 1) with (S754_finite false 4503599627370496 (-52))
    by (vm_compute; reflexivity).
  replace (Prim2SF 300) with (S754_finite false 5277655813324800 (-44))
    by (vm_compute; reflexivity).
  by apply SFltb_finite_apart.
Qed.

(** [Math.min(300, p)] when [p] is not above 300 and is a number. *)
Lemma Math_min_300_keeps (p : float) :
  PrimFloat.is_nan p = false → (300 <? p)%float = false → Math_min 300 p = p.
Proof.
  intros Hnan Hle. unfold Math_min. rewrite Hnan, Hle.
  change (PrimFloat.is_nan 300 || false) with false. cbv iota.
  destruct (p <? 300)%float; [done|]. by change (PrimFloat.get_sign 300) with false.
Qed.

(** X7. The percentage [setShapeSizePercent] stores lies between 1 and 300
    whenever its argument is a number: an argument below 1 is stored as 1, one
    above 300 as 300, and one from 1 to 300 as itself. NaN is stored as NaN. *)
Theorem setShapeSizePercent_clamps_to_1_300 (percent : float) (s : Model3DViewer) :
  let stored := shapeSizePercent (setShapeSizePercent percent s) in
  (PrimFloat.is_nan percent = true → PrimFloat.is_nan stored = true)
  ∧ (PrimFloat.is_nan percent = false →
       (1 <=? stored)%float = true ∧ (stored <=? 300)%float = true
       ∧ ((percent <? 1)%float = true → stored = 1%float)
       ∧ ((300 <? percent)%float = true → stored = 300%float)
       ∧ ((1 <=? percent)%float = true → (percent <=? 300)%float = true
          → stored = percent)).
Proof.
  cbv zeta. change (shapeSizePercent (setShapeSizePercent percent s))
    with (clampSizePercent percent).
  unfold clampSizePercent. split.
  { intros Hnan. unfold Math_min. rewrite Hnan, orb_true_r. reflexivity. }
  intros Hnan.
  assert (Hlow : (percent <? 1)%float = true → Math_max 1 (Math_min 300 percent) = 1%float).
  { intros Hlt. rewrite (Math_min_300_keeps percent Hnan (below_1_not_above_300 _ Hlt)).
    unfold Math_max. rewrite Hnan, (ltb_not_gtb _ _ Hlt), Hlt. reflexivity. }
  assert (Hhigh : (300 <? percent)%float = true → Math_max 1 (Math_min 300 percent) = 300%float).
  { intros Hgt. unfold Math_min at 1. rewrite Hnan, Hgt. reflexivity. }
  assert (Hmid : (1 <? percent)%float = true → (300 <? percent)%float = false →
                 Math_max 1 (Math_min 300 percent) = percent).
  { intros Hgt Hle. rewrite (Math_min_300_keeps percent Hnan Hle).
    unfold Math_max. by rewrite Hnan, Hgt. }
  assert (Hone : (1 <? percent)%float = false → (percent <? 1)%float = false →
                 Math_max 1 (Math_min 300 percent) = percent ∧ percent = 1%float).
  { intros Hgt Hlt.
    assert (Heq : percent = 1%float).
    { apply (neither_below_eq percent 1 false 4503599627370496 (-52));
        [vm_compute; reflexivity|done|done|done]. }
    split; [|done]. rewrite Heq. reflexivity. }
  split; [|split; [|split; [exact Hlow|split; [exact Hhigh|]]]].
  - destruct (percent <? 1)%float eqn:Hlt; [by rewrite (Hlow eq_refl)|].
    destruct (300 <? percent)%float eqn:Hgt; [by rewrite (Hhigh eq_refl)|].
    destruct (1 <? percent)%float eqn:H1.
    + rewrite (Hmid eq_refl eq_refl). by apply ltb_leb.
    + destruct (Hone eq_refl eq_refl) as [-> ->]. reflexivity.
  - destruct (percent <? 1)%float eqn:Hlt; [by rewrite (Hlow eq_refl)|].
    destruct (300 <? percent)%float eqn:Hgt; [by rewrite (Hhigh eq_refl)|].
    destruct (1 <? percent)%float eqn:H1.
    + rewrite (Hmid eq_refl eq_refl). by apply not_gtb_leb.
    + destruct (Hone eq_refl eq_refl) as [-> ->]. reflexivity.
  - intros Hge Hle. apply leb_not_gtb in Hge, Hle.
    destruct (1 <? percent)%float eqn:H1; [by apply Hmid|].
    by destruct (Hone eq_refl Hge) as [-> _].
Qed.

(** ** Saving, then deleting *)

Section SaveDelete.
Variable host : Host.

(** X8. Deleting a region by the id [saveCurrentRegion] just returned undoes
    the save as far as the store goes: [deleteRegion] answers [true], the list
    of saved regions is the list there was before the save, and the decal mesh
    built for the region, if any, is out of the scene and disposed. This needs
    the id handed out to differ from the ids already in the store, since
    [deleteRegion] removes the first region carrying the id. *)
Theorem save_then_delete_restores_regions
    (label : jsstring) (dd : option DefectEntry) (cp ct n : option Vector3)
    (dt : option DecalTextureId) (target : option Object3D)
    (s s1 : Model3DViewer) (id : jsstring) :
  saveCurrentRegion host label dd cp ct n dt target s = (Some id, s1) →
  (id ∉ Region.id <$> savedRegions s) →
  ∃ region,
    savedRegions s1 = savedRegions s ++ [region]
    ∧ (deleteRegion id s1).1 = true
    ∧ savedRegions (deleteRegion id s1).2 = savedRegions s
    ∧ ∀ m, Region.decalMesh region = Some m →
        (m ∉ scene (deleteRegion id s1).2) ∧ m ∈ disposed (deleteRegion id s1).2.
Proof.
  intros Hsave Hfresh.
  destruct (highlightShape s) as [p|] eqn:Hshape;
    [|rewrite saveCurrentRegion_rejects in Hsave by (by left); done].
  destruct (shapeVisible s) eqn:Hvisible;
    [|rewrite saveCurrentRegion_rejects in Hsave by (right; by left); done].
  destruct (decide (trim label = [])) as [Hempty|Hlabel];
    [rewrite saveCurrentRegion_rejects in Hsave by (right; by right); done|].
  destruct (saveCurrentRegion_accepts host label dd cp ct n dt target s p
              Hshape Hvisible Hlabel) as (region & s' & Heq & Hregions & Hsame & _).
  rewrite Heq in Hsave. injection Hsave as <- <-.
  assert (Hid : Region.id region = randomUUID host (uuidCount s)).
  { by apply (f_equal Region.id) in Hsame. }
  assert (Hfind : list_find (fun r => Region.id r = randomUUID host (uuidCount s))
                    (savedRegions s') = Some (length (savedRegions s), region)).
  { apply (findRegion_Some (randomUUID host (uuidCount s)) s').
    by exists (savedRegions s), []. }
  exists region. split; [done|]. unfold deleteRegion. rewrite Hfind. cbn [fst snd].
  split; [done|].
  set (s2 := match Region.decalMesh region with
             | Some m => releaseDecal m s' | None => s' end).
  assert (Hs2 : savedRegions s2 = savedRegions s') by (subst s2; by destruct (Region.decalMesh _)).
  set (s3 := set_savedRegions (delete (length (savedRegions s)) (savedRegions s2)) s2).
  destruct (clearOcclusionState_store s3) as [Hr3 _].
  destruct (clearOcclusionState_resources s3) as (Hsc3 & Hdi3 & _).
  split.
  - change (savedRegions (clearOcclusionState s3) = savedRegions s). rewrite Hr3.
    subst s3. cbn [savedRegions set_savedRegions]. rewrite Hs2, Hregions.
    by rewrite delete_middle, app_nil_r.
  - intros m Hm.
    change ((m ∉ scene (clearOcclusionState s3)) ∧ m ∈ disposed (clearOcclusionState s3)).
    rewrite Hsc3, Hdi3. subst s3 s2. rewrite Hm. cbn. set_solver.
Qed.

End SaveDelete.

Lemma save_then_delete_restores_regions_witness :
  ∃ region,
    savedRegions savedScratch.2 = savedRegions previewViewer ++ [region]
    ∧ (deleteRegion (js "uuid-0") savedScratch.2).1 = true
    ∧ savedRegions (deleteRegion (js "uuid-0") savedScratch.2).2 = savedRegions previewViewer
    ∧ ∀ m, Region.decalMesh region = Some m →
        (m ∉ scene (deleteRegion (js "uuid-0") savedScratch.2).2)
        ∧ m ∈ disposed (deleteRegion (js "uuid-0") savedScratch.2).2.
Proof.
  apply (save_then_delete_restores_regions sampleHost (js "  Scratch ") None None None
           (Some (V3.mk 0 0 1)) (Some Heavy) (Some 0) previewViewer).
  - vm_compute. reflexivity.
  - vm_compute. by intros ?%elem_of_nil.
Defined.

(** ** The shader uniforms *)

(** The regions the shader is to draw: not hidden, and, when regions are not
    shown by default, the highlighted or hovered one only. *)
Definition inShader (s : Model3DViewer) (d : Shading) (r : SavedHighlightRegion) : Prop :=
  (Region.id r ∉ hiddenRegionIds s)
  ∧ (showRegionsDefault d = true
     ∨ Some (Region.id r) = highlightedRegionId d
     ∨ Some (Region.id r) = hoveredRegionId d).

Global Instance inShader_dec s d r : Decision (inShader s d r).
Proof. unfold inShader. apply _. Defined.

(** The first [MAX_REGIONS] of them, in store order. *)
Definition shaderRegions (s : Model3DViewer) (d : Shading) : list SavedHighlightRegion :=
  take MAX_REGIONS (filter (inShader s d) (savedRegions s)).

(** Slot [i] of the four arrays, read together. *)
Definition slot (u : RegionUniforms) (i : nat) : option (Vector3 * float * Z * Color) :=
  match Uniforms.uRegionPositions u !! i, Uniforms.uRegionSizes u !! i,
        Uniforms.uRegionTypes u !! i, Uniforms.uRegionColors u !! i with
  | Some p, Some sz, Some t, Some c => Some (p, sz, t, c)
  | _, _, _, _ => None
  end.

(** What a slot describing region [r] holds. *)
Definition slotOf (r : SavedHighlightRegion) : Vector3 * float * Z * Color :=
  (Region.position r, Region.size r, typeValue (Region.type r),
   severityToThreeColor (Region.severity r)).

(** The arrays have the [MAX_REGIONS] slots [createRegionUniforms] gives them. *)
Definition uniformsShaped (u : RegionUniforms) : Prop :=
  length (Uniforms.uRegionPositions u) = MAX_REGIONS
  ∧ length (Uniforms.uRegionSizes u) = MAX_REGIONS
  ∧ length (Uniforms.uRegionTypes u) = MAX_REGIONS
  ∧ length (Uniforms.uRegionColors u) = MAX_REGIONS.

(** The dynamic (preview) uniforms of two uniform sets agree. *)
Definition sameDynamic (u u' : RegionUniforms) : Prop :=
  Uniforms.uDynamicPosition u' = Uniforms.uDynamicPosition u
  ∧ Uniforms.uDynamicSize u' = Uniforms.uDynamicSize u
  ∧ Uniforms.uDynamicVisible u' = Uniforms.uDynamicVisible u
  ∧ Uniforms.uDynamicType u' = Uniforms.uDynamicType u
  ∧ Uniforms.uDynamicColor u' = Uniforms.uDynamicColor u.

(** [index] is the position in [rs] of the last region whose id is [target],
    or -1 when there is none. *)
Definition indexOfLast (target : option jsstring) (rs : list SavedHighlightRegion)
    (index : Z) : Prop :=
  (index = (-1)%Z ∧ ∀ r, r ∈ rs → Some (Region.id r) ≠ target)
  ∨ (∃ i r, index = Z.of_nat i ∧ rs !! i = Some r ∧ Some (Region.id r) = target
       ∧ ∀ j r', i < j → rs !! j = Some r' → Some (Region.id r') ≠ target).

(** The same for a loop that enters at slot [k] with the index [before]. *)
Definition tracks (target : option jsstring) (k : nat) (rs : list SavedHighlightRegion)
    (before after : Z) : Prop :=
  (after = before ∧ ∀ r, r ∈ rs → Some (Region.id r) ≠ target)
  ∨ (∃ i r, after = Z.of_nat (k + i) ∧ rs !! i = Some r ∧ Some (Region.id r) = target
       ∧ ∀ j r', i < j → rs !! j = Some r' → Some (Region.id r') ≠ target).

Lemma tracks_nil target k index : tracks target k [] index index.
Proof. left. split; [done|]. by intros r ?%elem_of_nil. Qed.

Lemma tracks_cons target k r rs before after :
  tracks target (S k) rs
    (if bool_decide (Some (Region.id r) = target) then Z.of_nat k else before) after →
  tracks target k (r :: rs) before after.
Proof.
  intros [[-> Hnone]|(i & r' & -> & Hi & Hr' & Hlater)].
  - case_bool_decide as Hr.
    + right. exists 0, r. rewrite Nat.add_0_r. split; [done|]. split; [done|].
      split; [done|]. intros [|j] r' Hj Hin; [lia|]. apply Hnone.
      cbn in Hin. by eapply list_elem_of_lookup_2.
    + left. split; [done|]. intros r' [->|Hin]%elem_of_cons; [done|by apply Hnone].
  - right. exists (S i), r'. split; [f_equal; lia|]. split; [done|]. split; [done|].
    intros [|j] r'' Hj Hin; [lia|]. apply (Hlater j r''); [lia|done].
Qed.

Lemma slot_writeRegion_same k r u :
  uniformsShaped u → k < MAX_REGIONS → slot (writeRegion k r u) k = Some (slotOf r).
Proof.
  intros (Hp & Hs & Ht & Hc) Hk. unfold slot, writeRegion, slotOf.
  cbn [Uniforms.uRegionPositions Uniforms.uRegionSizes Uniforms.uRegionTypes
       Uniforms.uRegionColors].
  by rewrite !list_lookup_insert_eq by lia.
Qed.

Lemma slot_writeRegion_other k j r u : j ≠ k → slot (writeRegion k r u) j = slot u j.
Proof.
  intros Hj. unfold slot, writeRegion.
  cbn [Uniforms.uRegionPositions Uniforms.uRegionSizes Uniforms.uRegionTypes
       Uniforms.uRegionColors].
  by rewrite !list_lookup_insert_ne by done.
Qed.

Lemma writeRegion_shaped k r u : uniformsShaped u → uniformsShaped (writeRegion k r u).
Proof.
  intros (Hp & Hs & Ht & Hc). unfold uniformsShaped, writeRegion.
  cbn [Uniforms.uRegionPositions Uniforms.uRegionSizes Uniforms.uRegionTypes
       Uniforms.uRegionColors].
  by rewrite !length_insert.
Qed.

(** The loop, entered at slot [k]: it fills the slots from [k] on with the
    regions to draw, as many as fit, and touches no other slot. *)
Lemma uniformLoop_spec s d rs k hi ho u :
  uniformsShaped u →
  let packed := take (MAX_REGIONS - k) (filter (inShader s d) rs) in
  let '(k', hi', ho', u') := uniformLoop s d rs k hi ho u in
  k' = k + length packed
  ∧ uniformsShaped u'
  ∧ sameDynamic u u'
  ∧ (∀ i r, packed !! i = Some r → slot u' (k + i) = Some (slotOf r))
  ∧ (∀ j, j < k ∨ k' ≤ j → slot u' j = slot u j)
  ∧ tracks (highlightedRegionId d) k packed hi hi'
  ∧ tracks (hoveredRegionId d) k packed ho ho'.
Proof.
  revert k hi ho u. induction rs as [|r rs IH]; intros k hi ho u Hshaped.
  { cbn. rewrite take_nil. cbn. split; [lia|]. split; [done|]. split; [done|].
    split; [by intros i r ?|]. split; [done|]. split; apply tracks_nil. }
  cbn [uniformLoop]. case_bool_decide as Hfull.
  { replace (MAX_REGIONS - k) with 0 by lia. rewrite take_0. cbn [length].
    split; [lia|]. split; [done|]. split; [done|].
    split; [by intros i r' ?|]. split; [done|]. split; apply tracks_nil. }
  assert (Hskip : ¬ inShader s d r →
    let packed := take (MAX_REGIONS - k) (filter (inShader s d) (r :: rs)) in
    let '(k', hi', ho', u') := uniformLoop s d rs k hi ho u in
    k' = k + length packed ∧ uniformsShaped u' ∧ sameDynamic u u'
    ∧ (∀ i r, packed !! i = Some r → slot u' (k + i) = Some (slotOf r))
    ∧ (∀ j, j < k ∨ k' ≤ j → slot u' j = slot u j)
    ∧ tracks (highlightedRegionId d) k packed hi hi'
    ∧ tracks (hoveredRegionId d) k packed ho ho').
  { intros Hnot. rewrite filter_cons_False by done. by apply IH. }
  case_bool_decide as Hhidden; [apply Hskip; by intros [? _]|].
  destruct (showRegionsDefault d) eqn:Hshow; cbn [negb andb].
  - rewrite filter_cons_True by (split; [done|by left]).
    replace (MAX_REGIONS - k) with (S (MAX_REGIONS - S k)) by lia. cbn [firstn].
    specialize (IH (S k)
      (if bool_decide (Some (Region.id r) = highlightedRegionId d)
       then Z.of_nat k else hi)
      (if bool_decide (Some (Region.id r) = hoveredRegionId d)
       then Z.of_nat k else ho)
      (writeRegion k r u) (writeRegion_shaped k r u Hshaped)).
    cbv zeta in IH.
    destruct (uniformLoop s d rs (S k) _ _ (writeRegion k r u)) as [[[k' hi'] ho'] u'].
    destruct IH as (Hk' & Hshaped' & Hdyn & Hslots & Hrest & Hhi & Hho).
    split; [cbn [length]; lia|]. split; [done|]. split; [done|].
    split; [|split; [|split; by apply tracks_cons]].
    + intros [|i] r' Hi.
      * injection Hi as <-. rewrite Nat.add_0_r, Hrest by lia.
        apply slot_writeRegion_same; [done|lia].
      * replace (k + S i) with (S k + i) by lia. by apply Hslots.
    + intros j Hj. rewrite Hrest by lia. apply slot_writeRegion_other. lia.
  - destruct (bool_decide (Some (Region.id r) = highlightedRegionId d)) eqn:Hh;
      destruct (bool_decide (Some (Region.id r) = hoveredRegionId d)) eqn:Ho;
      cbn [negb andb];
      [| | |apply Hskip; apply bool_decide_eq_false_1 in Hh, Ho;
            intros [_ [?|[?|?]]]; [congruence|done|done]];
      (rewrite filter_cons_True
         by (split; [done|];
             first [right; left; by apply bool_decide_eq_true_1 in Hh
                   |right; right; by apply bool_decide_eq_true_1 in Ho]));
      (replace (MAX_REGIONS - k) with (S (MAX_REGIONS - S k)) by lia); cbn [firstn];
      (match goal with
       | |- context [uniformLoop _ _ _ (S _) ?a ?b (writeRegion _ _ _)] =>
         specialize (IH (S k) a b (writeRegion k r u) (writeRegion_shaped k r u Hshaped))
       end);
      cbv zeta in IH;
      destruct (uniformLoop s d rs (S k) _ _ (writeRegion k r u)) as [[[k' hi'] ho'] u'];
      destruct IH as (Hk' & Hshaped' & Hdyn & Hslots & Hrest & Hhi & Hho);
      (split; [cbn [length]; lia|]); (split; [done|]); (split; [done|]);
      (split;
        [intros [|i] r' Hi;
           [injection Hi as <-; rewrite Nat.add_0_r, Hrest by lia;
            apply slot_writeRegion_same; [done|lia]
           |replace (k + S i) with (S k + i) by lia; by apply Hslots]
        |split; [intros j Hj; rewrite Hrest by lia; apply slot_writeRegion_other; lia|]]);
      split; apply tracks_cons; by rewrite ?Hh, ?Ho.
Qed.

(** X9. [updateRegionUniforms] packs the regions to draw into the front of the
    uniform arrays. With the arrays [createRegionUniforms] makes, afterwards
    [uRegionCount] is the number of regions that are not hidden (and, when
    regions are not shown by default, are the highlighted or hovered one),
    capped at [MAX_REGIONS]; slot [i] holds position, size, type code and
    severity colour of the [i]-th such region in store order; every slot from
    [uRegionCount] on keeps what it held; [uHighlightedRegionIndex] and
    [uHoveredRegionIndex] are the slot of the last drawn region with the
    highlighted or hovered id, or -1; the dynamic uniforms are untouched. *)
Theorem updateRegionUniforms_packs_shown_regions
    (s : Model3DViewer) (d : Shading) (u : RegionUniforms) :
  regionUniforms d = Some u → uniformsShaped u →
  ∃ u',
    updateRegionUniforms s d = set_regionUniforms (Some u') d
    ∧ uniformsShaped u' ∧ sameDynamic u u'
    ∧ Uniforms.uRegionCount u' = Z.of_nat (length (shaderRegions s d))
    ∧ length (shaderRegions s d) ≤ MAX_REGIONS
    ∧ (∀ i r, shaderRegions s d !! i = Some r → slot u' i = Some (slotOf r))
    ∧ (∀ j, length (shaderRegions s d) ≤ j → slot u' j = slot u j)
    ∧ indexOfLast (highlightedRegionId d) (shaderRegions s d)
        (Uniforms.uHighlightedRegionIndex u')
    ∧ indexOfLast (hoveredRegionId d) (shaderRegions s d)
        (Uniforms.uHoveredRegionIndex u').
Proof.
  intros Hu Hshaped. unfold updateRegionUniforms. rewrite Hu.
  pose proof (uniformLoop_spec s d (savedRegions s) 0 (-1) (-1) u Hshaped) as Hloop.
  cbv zeta in Hloop. rewrite Nat.sub_0_r in Hloop. fold (shaderRegions s d) in Hloop.
  destruct (uniformLoop s d (savedRegions s) 0 (-1) (-1) u) as [[[k' hi'] ho'] u'].
  destruct Hloop as (Hk' & Hshaped' & Hdyn & Hslots & Hrest & Hhi & Hho).
  cbn [Nat.add] in Hk', Hslots. subst k'.
  eexists. split; [reflexivity|].
  split; [exact Hshaped'|]. split; [exact Hdyn|]. split; [reflexivity|].
  split; [unfold shaderRegions; rewrite length_take; lia|].
  split; [exact Hslots|]. split.
  { intros j Hj. apply (Hrest j). by right. }
  split.
  - destruct Hhi as [[-> Hnone]|(i & r & -> & Hi & Hr & Hlater)];
      [by left|right; by exists i, r].
  - destruct Hho as [[-> Hnone]|(i & r & -> & Hi & Hr & Hlater)];
      [by left|right; by exists i, r].
Qed.

(** The uniforms [createRegionUniforms] makes have [MAX_REGIONS] slots. *)
Lemma freshUniforms_shaped s : uniformsShaped (freshUniforms s).
Proof. by repeat split. Qed.

(** Two saved regions, the first one hidden and highlighted, the second one
    hovered, with regions not shown by default. *)
Definition hoverStore : Model3DViewer :=
  set_hiddenRegionIds {[js "uuid-0"]} twoRegionStore.

Definition hoverShading : Shading :=
  createRegionUniforms hoverStore
    {| showRegionsDefault := false; highlightedRegionId := Some (js "uuid-0");
       hoveredRegionId := Some (js "uuid-1"); regionUniforms := None;
       invisibleMeshes := ∅ |}.

Lemma updateRegionUniforms_packs_shown_regions_witness :
  ∃ u',
    updateRegionUniforms hoverStore hoverShading = set_regionUniforms (Some u') hoverShading
    ∧ uniformsShaped u' ∧ sameDynamic (freshUniforms hoverStore) u'
    ∧ Uniforms.uRegionCount u' = Z.of_nat (length (shaderRegions hoverStore hoverShading))
    ∧ length (shaderRegions hoverStore hoverShading) ≤ MAX_REGIONS
    ∧ (∀ i r, shaderRegions hoverStore hoverShading !! i = Some r →
         slot u' i = Some (slotOf r))
    ∧ (∀ j, length (shaderRegions hoverStore hoverShading) ≤ j →
         slot u' j = slot (freshUniforms hoverStore) j)
    ∧ indexOfLast (highlightedRegionId hoverShading)
        (shaderRegions hoverStore hoverShading) (Uniforms.uHighlightedRegionIndex u')
    ∧ indexOfLast (hoveredRegionId hoverShading)
        (shaderRegions hoverStore hoverShading) (Uniforms.uHoveredRegionIndex u').
Proof.
  apply (updateRegionUniforms_packs_shown_regions hoverStore hoverShading
           (freshUniforms hoverStore)); [reflexivity|by repeat split].
Defined.

(** The same store, evaluated: one region is drawn, in slot 0; it is the
    hovered one, and the hidden region is not the highlighted slot. *)
Example hoverShading_uniforms :
  (fun u => (Uniforms.uRegionCount u, Uniforms.uHighlightedRegionIndex u,
             Uniforms.uHoveredRegionIndex u, slot u 0))
    <$> regionUniforms (updateRegionUniforms hoverStore hoverShading)
  = Some (1%Z, (-1)%Z, 0%Z,
          Some (V3.mk 1 2 3, 0.05%float, 1%Z, ColorCSS (js "#e53935"))).
Proof. vm_compute. reflexivity. Qed.

(** ** Hidden regions *)




(** ** Label positions settle *)

Lemma labelFor_ext i r s s' :
  camera s' = camera s → dims s' = dims s → occlusionResults s' = occlusionResults s →
  labelFor i r s' = labelFor i r s.
Proof.
  intros Hc Hd Ho. unfold labelFor, project3DToScreen, checkPointVisibility.
  by rewrite Hc, Hd, Ho.
Qed.

Lemma labelLoop_cons s i r rs :
  labelLoop s i (r :: rs)
  = if bool_decide (Region.id r ∈ hiddenRegionIds s) then labelLoop s (S i) rs
    else (labelFor i r s :: (labelLoop s (S i) rs).1,
          labelChanged
            (snd <$> list_find (fun p => Label.id p = Region.id r) (cachedLabelPositions s))
            (labelFor i r s)
          || (labelLoop s (S i) rs).2).
Proof.
  cbn [labelLoop]. case_bool_decide; [done|]. by destruct (labelLoop s (S i) rs).
Qed.

Lemma labelLoop_ext s s' i rs :
  camera s' = camera s → dims s' = dims s → occlusionResults s' = occlusionResults s →
  hiddenRegionIds s' = hiddenRegionIds s →
  (labelLoop s' i rs).1 = (labelLoop s i rs).1
  ∧ (cachedLabelPositions s' = cachedLabelPositions s →
       labelLoop s' i rs = labelLoop s i rs).
Proof.
  intros Hc Hd Ho Hh. revert i. induction rs as [|r rs IH]; intros i; [done|].
  rewrite !labelLoop_cons, Hh. destruct (IH (S i)) as [IH1 IH2].
  case_bool_decide; [done|]. cbn [fst].
  rewrite (labelFor_ext i r s s') by done. split; [by rewrite IH1|].
  intros Hcache. by rewrite Hcache, (IH2 Hcache).
Qed.

Lemma labelChanged_same p :
  PrimFloat.is_nan (Label.x p) = false → PrimFloat.is_nan (Label.y p) = false →
  labelChanged (Some p) p = false.
Proof.
  unfold PrimFloat.is_nan, labelChanged. intros Hx Hy.
  destruct (Label.x p =? Label.x p)%float; [|done].
  destruct (Label.y p =? Label.y p)%float; [|done].
  by rewrite !bool_decide_eq_true_2.
Qed.

(** With the entries of the previous round in the cache, a round over the
    same regions sees no change. *)
Lemma labelLoop_settled s s' i rs prefix :
  camera s' = camera s → dims s' = dims s → occlusionResults s' = occlusionResults s →
  hiddenRegionIds s' = hiddenRegionIds s →
  cachedLabelPositions s' = prefix ++ (labelLoop s i rs).1 →
  (∀ p r, p ∈ prefix → r ∈ rs → shown s r → Label.id p ≠ Region.id r) →
  NoDup (Region.id <$> filter (shown s) rs) →
  (∀ p, p ∈ (labelLoop s i rs).1 →
     PrimFloat.is_nan (Label.x p) = false ∧ PrimFloat.is_nan (Label.y p) = false) →
  (labelLoop s' i rs).2 = false.
Proof.
  intros Hc Hd Ho Hh. revert i prefix.
  induction rs as [|r rs IH]; intros i prefix Hcache Hprefix Hnodup Hnan; [done|].
  rewrite labelLoop_cons in Hcache, Hnan. rewrite labelLoop_cons, Hh.
  case_bool_decide as Hhidden.
  - rewrite filter_cons_False in Hnodup by (by intros Hs; apply Hs).
    apply (IH (S i) prefix); [done| |done|done].
    intros p r' Hp Hr'. apply Hprefix; [done|by right].
  - rewrite filter_cons_True in Hnodup by done. cbn [fst snd] in *.
    rewrite fmap_cons in Hnodup. apply NoDup_cons in Hnodup as [Hfresh Hnodup].
    rewrite (labelFor_ext i r s s') by done.
    set (newPos := labelFor i r s) in *.
    assert (Hfind : list_find (fun p => Label.id p = Region.id r) (cachedLabelPositions s')
                    = Some (length prefix, newPos)).
    { rewrite Hcache. apply list_find_app_Some. right. split; [lia|]. split.
      - apply list_find_None, Forall_forall. intros p Hp Hid.
        apply (Hprefix p r Hp); [by left|done|done].
      - rewrite Nat.sub_diag. cbn. by rewrite decide_True. }
    rewrite Hfind. cbn [fmap option_fmap option_map snd].
    destruct (Hnan newPos) as [Hx Hy]; [by left|].
    rewrite (labelChanged_same newPos Hx Hy). cbn [orb].
    apply (IH (S i) (prefix ++ [newPos])).
    + by rewrite <- app_assoc.
    + intros p r' [Hp| ->%list_elem_of_singleton]%elem_of_app Hr' Hshown.
      * apply Hprefix; [done|by right|done].
      * intros Hid. apply Hfresh. apply list_elem_of_fmap. exists r'.
        split; [done|]. by apply list_elem_of_filter.
    + done.
    + intros p Hp. apply Hnan. by right.
Qed.

(** X11. [getLabelPositions] settles: called twice in a row, the second call
    returns [null] and changes nothing, provided that the regions that are not
    hidden have pairwise different ids and that no label the first call
    returned has NaN for a coordinate. (An entry is compared with the cached
    entry found by its id, and NaN differs from itself.) *)
Theorem getLabelPositions_second_call_returns_null (s : Model3DViewer) :
  NoDup (Region.id <$> filter (shown s) (savedRegions s)) →
  (∀ labels p, (getLabelPositions s).1 = Some labels → p ∈ labels →
     PrimFloat.is_nan (Label.x p) = false ∧ PrimFloat.is_nan (Label.y p) = false) →
  getLabelPositions (getLabelPositions s).2 = (None, (getLabelPositions s).2).
Proof.
  intros Hnodup Hnan.
  assert (Hsecond : ∀ s1 : Model3DViewer,
    needsLabelUpdate s1 = false → savedRegions s1 = savedRegions s →
    set_needsLabelUpdate false s1 = s1 →
    (labelLoop s1 0 (savedRegions s)).2 = false →
    length (labelLoop s1 0 (savedRegions s)).1 = length (cachedLabelPositions s1) →
    getLabelPositions s1 = (None, s1)).
  { intros s1 Hflag Hregions Hsame Hquiet Hlen. unfold getLabelPositions.
    rewrite Hflag, Hregions. cbn [negb andb]. case_bool_decide; [done|].
    destruct (labelLoop s1 0 (savedRegions s)) as [positions hasChanges].
    cbn [fst snd] in Hquiet, Hlen. subst hasChanges. cbn [orb].
    change (cachedLabelPositions (set_needsLabelUpdate false s1))
      with (cachedLabelPositions s1).
    rewrite bool_decide_eq_true_2 by done. cbn [negb]. by rewrite Hsame. }
  unfold getLabelPositions in Hnan |- * at 2 3.
  destruct (negb (needsLabelUpdate s) && _) eqn:Hearly.
  { cbn [snd]. unfold getLabelPositions. by rewrite Hearly. }
  destruct (labelLoop s 0 (savedRegions s)) as [positions hasChanges] eqn:Hloop.
  change (cachedLabelPositions (set_needsLabelUpdate false s))
    with (cachedLabelPositions s) in *.
  destruct (hasChanges || _) eqn:Hchanged; cbn [fst snd] in *.
  - apply Hsecond; try done.
    + apply (labelLoop_settled s _ 0 (savedRegions s) []); try done.
      * by rewrite Hloop.
      * by intros p r ?%elem_of_nil.
      * rewrite Hloop. intros p Hp. by apply (Hnan positions).
    + destruct (labelLoop_ext s
                  (set_cachedLabelPositions positions (set_needsLabelUpdate false s))
                  0 (savedRegions s)) as [-> _]; try done.
      by rewrite Hloop.
  - apply orb_false_iff in Hchanged as [-> Hlen].
    apply negb_false_iff, bool_decide_eq_true_1 in Hlen.
    destruct (labelLoop_ext s (set_needsLabelUpdate false s) 0 (savedRegions s))
      as [_ Heq]; try done.
    apply Hsecond; try done; rewrite Heq, Hloop by done; done.
Qed.

Lemma getLabelPositions_second_call_returns_null_witness :
  getLabelPositions (getLabelPositions labelStore).2
  = (None, (getLabelPositions labelStore).2).
Proof.
  apply (getLabelPositions_second_call_returns_null labelStore).
  - apply (bool_decide_unpack _). vm_compute. reflexivity.
  - intros labels p Hlabels Hp. vm_compute in Hlabels. injection Hlabels as <-.
    repeat (apply elem_of_cons in Hp as [->|Hp]; [by vm_compute|]).
    by apply elem_of_nil in Hp.
Defined.

(** ** Switching the camera mode *)

(** X12. [setSmoothCameraMode] restarts the occlusion schedule. After switching
    to real-time mode the next two frames start no query, whatever the camera
    does; after switching to smooth mode with the camera at rest a label update
    is due, and the next call of [runOcclusionQueries] runs the per-region loop
    at once when there is a context, a program, a camera and a region. *)
Theorem setSmoothCameraMode_restarts_schedule (s : Model3DViewer) :
  (∀ events1 gpu1 events2 gpu2,
     (frame events1 gpu1 (setSmoothCameraMode false s)).1 = []
     ∧ (frame events2 gpu2 (frame events1 gpu1 (setSmoothCameraMode false s)).2).1 = [])
  ∧ (isCameraMoving s = false →
       needsLabelUpdate (setSmoothCameraMode true s) = true
       ∧ (gl s = true → occlusionProgram s = true → is_Some (camera s) →
          savedRegions s ≠ [] →
          ∀ gpu, runOcclusionQueries gpu (setSmoothCameraMode true s)
                 = queryLoop gpu 0 (savedRegions s) (setSmoothCameraMode true s)))
  ∧ (isCameraMoving s = true → ∀ enabled,
       needsLabelUpdate (setSmoothCameraMode enabled s) = needsLabelUpdate s).
Proof.
  split; [|split].
  - intros events1 gpu1 events2 gpu2.
    destruct (frame_realtime_throttled events1 gpu1 (setSmoothCameraMode false s))
      as (Hnone1 & Hmode1 & Hcount1); [done|cbn; unfold OCCLUSION_THROTTLE_FRAMES; lia|].
    split; [done|].
    destruct (frame_realtime_throttled events2 gpu2
                (frame events1 gpu1 (setSmoothCameraMode false s)).2)
      as (Hnone2 & _); [done| |done].
    change (occlusionFrameCounter (setSmoothCameraMode false s)) with 0 in Hcount1.
    unfold OCCLUSION_THROTTLE_FRAMES. lia.
  - intros Hidle. unfold setSmoothCameraMode. cbn [andb].
    change (isCameraMoving (set_occlusionFrameCounter 0 (set_smoothCameraMode true s)))
      with (isCameraMoving s). rewrite Hidle. cbn [negb].
    split; [done|]. intros Hgl Hprogram Hcamera Hregions gpu.
    unfold runOcclusionQueries. cbn [gl occlusionProgram camera savedRegions
      smoothCameraMode isCameraMoving set_needsLabelUpdate set_occlusionFrameCounter
      set_smoothCameraMode].
    rewrite Hgl, Hprogram, Hidle. rewrite (bool_decide_eq_true_2 _ Hcamera).
    rewrite bool_decide_eq_false_2; [done|].
    intros Hlen. by apply length_zero_iff_nil in Hlen.
  - intros Hmoving enabled. unfold setSmoothCameraMode.
    change (isCameraMoving (set_occlusionFrameCounter 0 (set_smoothCameraMode enabled s)))
      with (isCameraMoving s). rewrite Hmoving, andb_false_r. done.
Qed.

(** ** Disposal *)

Lemma releaseDecals_effect rs s :
  savedRegions (releaseDecals rs s) = savedRegions s
  ∧ gl (releaseDecals rs s) = gl s
  ∧ occlusionQueries (releaseDecals rs s) = occlusionQueries s
  ∧ occlusionResults (releaseDecals rs s) = occlusionResults s
  ∧ deletedQueries (releaseDecals rs s) = deletedQueries s
  ∧ highlightShape (releaseDecals rs s) = highlightShape s
  ∧ scene (releaseDecals rs s) = scene s ∖ list_to_set (ownedDecals rs)
  ∧ disposed (releaseDecals rs s) = list_to_set (ownedDecals rs) ∪ disposed s.
Proof.
  revert s. induction rs as [|r rs IH]; intros s.
  { cbn. repeat split; try done; set_solver. }
  change (releaseDecals (r :: rs) s)
    with (releaseDecals rs (match Region.decalMesh r with
                            | Some m => releaseDecal m s | None => s end)).
  change (r :: rs) with ([] ++ r :: rs). rewrite ownedDecals_middle. cbn [ownedDecals omap app].
  destruct (Region.decalMesh r) as [m|]; cbn [option_list app].
  - destruct (IH (releaseDecal m s)) as (-> & -> & -> & -> & -> & -> & -> & ->).
    cbn. repeat split; try done; set_solver.
  - apply IH.
Qed.

(** X13. [dispose] leaves nothing behind. Afterwards the store, the hidden ids,
    the cached labels, the uniforms, both occlusion maps and the scene are
    empty and the preview shape is gone; every decal mesh that a region owned
    or that was still attached to the scene (the meshes orphaned by an import
    in replace mode among them) is disposed, and every occlusion query is given
    back to the GPU. The disposed viewer is inert: [saveCurrentRegion] saves
    nothing, [findRegionAtPoint] finds nothing and [runOcclusionQueries] starts
    nothing. This uses that there are occlusion queries only with a WebGL 2
    context. *)
Theorem dispose_releases_everything (s : Model3DViewer) (d : Shading) :
  queriesNeedContext s →
  let s' := (dispose s d).1 in
  savedRegions s' = [] ∧ hiddenRegionIds s' = ∅ ∧ cachedLabelPositions s' = []
  ∧ highlightShape s' = None ∧ regionUniforms (dispose s d).2 = None
  ∧ occlusionQueries s' = ∅ ∧ occlusionResults s' = ∅ ∧ scene s' = ∅
  ∧ (∀ m, m ∈ ownedDecals (savedRegions s) ∨ m ∈ scene s ∨ m ∈ disposed s →
       m ∈ disposed s')
  ∧ (∀ i q, occlusionQueries s !! i = Some q → q ∈ deletedQueries s')
  ∧ (∀ host label dd cp ct n dt target,
       saveCurrentRegion host label dd cp ct n dt target s' = (None, s'))
  ∧ (∀ point, findRegionAtPoint point s' = None)
  ∧ (∀ gpu, runOcclusionQueries gpu s' = ([], s')).
Proof.
  intros Hctx. cbv zeta. unfold dispose. cbn [fst snd].
  set (s1 := set_preview None (shapeVisible s) s).
  destruct (releaseDecals_effect (savedRegions s1) s1)
    as (Hr2 & Hgl2 & Hq2 & Ho2 & Hd2 & Hh2 & Hsc2 & Hdi2).
  set (s2 := releaseDecals (savedRegions s1) s1) in *.
  set (s3 := set_cachedLabelPositions [] (set_hiddenRegionIds ∅ (set_savedRegions [] s2))).
  assert (Hctx3 : queriesNeedContext s3).
  { intros Hgl. change (gl s3) with (gl s2) in Hgl. rewrite Hgl2 in Hgl.
    destruct (Hctx Hgl) as [Hq Ho].
    change (occlusionQueries s3) with (occlusionQueries s2).
    change (occlusionResults s3) with (occlusionResults s2).
    by rewrite Hq2, Ho2. }
  destruct (clearOcclusionState_clears s3 Hctx3) as (Hq4 & Ho4 & Hdel4 & Hsc4 & Hdi4).
  destruct (clearOcclusionState_store s3) as [Hr4 _].
  set (s4 := if gl s3 then set_occlusionProgram false (clearOcclusionState s3) else s3).
  assert (H4 : savedRegions s4 = [] ∧ hiddenRegionIds s4 = ∅ ∧ cachedLabelPositions s4 = []
               ∧ highlightShape s4 = None
               ∧ occlusionQueries s4 = ∅ ∧ occlusionResults s4 = ∅
               ∧ scene s4 = scene s2 ∧ disposed s4 = disposed s2
               ∧ ∀ i q, occlusionQueries s !! i = Some q → q ∈ deletedQueries s4).
  { assert (Hkeep : hiddenRegionIds (clearOcclusionState s3) = ∅
                    ∧ cachedLabelPositions (clearOcclusionState s3) = []
                    ∧ highlightShape (clearOcclusionState s3) = highlightShape s2).
    { unfold clearOcclusionState. by destruct (gl s3). }
    destruct Hkeep as (Hh4 & Hc4 & Hp4).
    assert (Hshape : highlightShape s2 = None) by (by rewrite Hh2).
    assert (Hqs : occlusionQueries s3 = occlusionQueries s).
    { change (occlusionQueries s3) with (occlusionQueries s2). by rewrite Hq2. }
    subst s4. destruct (gl s3) eqn:Hgl.
    - cbn [savedRegions hiddenRegionIds cachedLabelPositions highlightShape occlusionQueries
           occlusionResults scene disposed deletedQueries set_occlusionProgram].
      rewrite Hr4, Hq4, Ho4, Hsc4, Hdi4, Hh4, Hc4, Hp4.
      split; [done|]. split; [done|]. split; [done|]. split; [done|].
      split; [done|]. split; [done|]. split; [done|]. split; [done|].
      intros i q Hq. apply (Hdel4 i). by rewrite Hqs.
    - destruct (Hctx3 Hgl) as [Hq3 Ho3].
      split; [done|]. split; [done|]. split; [done|]. split; [done|].
      split; [done|]. split; [done|]. split; [done|]. split; [done|].
      intros i q Hq. rewrite <- Hqs, Hq3 in Hq. by rewrite lookup_empty in Hq. }
  destruct H4 as (Hr & Hh & Hc & Hp & Hq & Ho & Hsc & Hdi & Hdel).
  cbn [savedRegions hiddenRegionIds cachedLabelPositions highlightShape occlusionQueries
       occlusionResults scene disposed deletedQueries set_scene set_disposed].
  split; [done|]. split; [done|]. split; [done|]. split; [done|]. split; [done|].
  split; [done|]. split; [done|]. split; [done|]. split.
  { intros m Hm. rewrite Hsc, Hdi, Hsc2, Hdi2.
    change (savedRegions s1) with (savedRegions s). change (scene s1) with (scene s).
    change (disposed s1) with (disposed s).
    destruct (decide (m ∈ ownedDecals (savedRegions s))); set_solver. }
  split; [done|]. split.
  { intros host label dd cp ct n dt target. apply saveCurrentRegion_rejects. by left. }
  split.
  { intros point. unfold findRegionAtPoint. cbn [savedRegions hiddenRegionIds set_scene
      set_disposed]. by rewrite Hr. }
  intros gpu. unfold runOcclusionQueries.
  cbn [savedRegions gl occlusionProgram camera set_scene set_disposed].
  rewrite Hr. cbn [length]. rewrite (bool_decide_eq_true_2 (0 = 0) eq_refl).
  by rewrite !orb_true_r.
Qed.

Lemma dispose_releases_everything_witness :
  let s' := (dispose decalStore hoverShading).1 in
  savedRegions s' = [] ∧ hiddenRegionIds s' = ∅ ∧ cachedLabelPositions s' = []
  ∧ highlightShape s' = None ∧ regionUniforms (dispose decalStore hoverShading).2 = None
  ∧ occlusionQueries s' = ∅ ∧ occlusionResults s' = ∅ ∧ scene s' = ∅
  ∧ (∀ m, m ∈ ownedDecals (savedRegions decalStore) ∨ m ∈ scene decalStore
          ∨ m ∈ disposed decalStore → m ∈ disposed s')
  ∧ (∀ i q, occlusionQueries decalStore !! i = Some q → q ∈ deletedQueries s')
  ∧ (∀ host label dd cp ct n dt target,
       saveCurrentRegion host label dd cp ct n dt target s' = (None, s'))
  ∧ (∀ point, findRegionAtPoint point s' = None)
  ∧ (∀ gpu, runOcclusionQueries gpu s' = ([], s')).
Proof.
  apply (dispose_releases_everything decalStore hoverShading).
  intros Hgl. vm_compute in Hgl. discriminate.
Defined.

(** ** The discipline of the occlusion queries *)

(** What one run of the per-region loop, entered at index [i] over the
    regions [rs], may do to the query map [Q], the result map [R] and the
    label flag: [started] are the queries begun, [Q'], [R'] and [flag'] the
    maps and the flag afterwards. *)
Definition queryDiscipline (gpu : GpuFrame) (i : nat) (rs : list SavedHighlightRegion)
    (Q : gmap nat WebGLQuery) (R : gmap nat bool) (flag : bool)
    (started : list QueryStart)
    (Q' : gmap nat WebGLQuery) (R' : gmap nat bool) (flag' : bool) : Prop :=
  (∀ j q, Q !! j = Some q → Q' !! j = Some q)
  ∧ (∀ st, st ∈ started →
       ∃ k r, qs_index st = i + k ∧ rs !! k = Some r
         ∧ qs_position st = Region.position r
         ∧ Q' !! qs_index st = Some (qs_query st)
         ∧ (Q !! qs_index st = None ∨ resultAvailable gpu (qs_query st) = true))
  ∧ (∀ j q, Q !! j = Some q → resultAvailable gpu q = false →
       R' !! j = R !! j ∧ (j ∉ qs_index <$> started))
  ∧ (∀ j, R' !! j ≠ R !! j →
       ∃ q, Q !! j = Some q ∧ resultAvailable gpu q = true
         ∧ R' !! j = Some (bool_decide (0 < queryResult gpu q)) ∧ flag' = true)
  ∧ (flag = true → flag' = true).

Lemma queryDiscipline_idle gpu i rs Q R flag : queryDiscipline gpu i rs Q R flag [] Q R flag.
Proof.
  split; [done|]. split; [by intros st ?%elem_of_nil|]. split.
  - intros j q _ _. split; [done|]. by intros ?%elem_of_nil.
  - split; [by intros j ?|done].
Qed.

(** Skipping the region at index [i]. *)
Lemma queryDiscipline_skip gpu i r rs Q R flag started Q' R' flag' :
  queryDiscipline gpu (S i) rs Q R flag started Q' R' flag' →
  queryDiscipline gpu i (r :: rs) Q R flag started Q' R' flag'.
Proof.
  intros (H1 & H2 & H3 & H4 & H5). split; [done|]. split; [|done].
  intros st (k & r' & Hk & Hr' & Hrest)%H2. exists (S k), r'. split; [lia|done].
Qed.

Lemma collectResult_effect gpu i query s :
  occlusionQueries (collectResult gpu i query s) = occlusionQueries s
  ∧ occlusionResults (collectResult gpu i query s)
    = <[i := bool_decide (0 < queryResult gpu query)]> (occlusionResults s)
  ∧ (needsLabelUpdate s = true → needsLabelUpdate (collectResult gpu i query s) = true)
  ∧ (occlusionResults s !! i ≠ Some (bool_decide (0 < queryResult gpu query)) →
       needsLabelUpdate (collectResult gpu i query s) = true).
Proof.
  unfold collectResult. destruct (occlusionResults s !! i) as [old|] eqn:Hold.
  - destruct (bool_decide (old = bool_decide (0 < queryResult gpu query))) eqn:Hsame.
    + apply bool_decide_eq_true_1 in Hsame. subst old.
      split; [done|]. split; [done|]. split; [done|]. by intros [].
    + by cbn.
  - by cbn.
Qed.

Lemma queryLoop_discipline gpu i rs s :
  queryDiscipline gpu i rs (occlusionQueries s) (occlusionResults s) (needsLabelUpdate s)
    (queryLoop gpu i rs s).1
    (occlusionQueries (queryLoop gpu i rs s).2) (occlusionResults (queryLoop gpu i rs s).2)
    (needsLabelUpdate (queryLoop gpu i rs s).2)
  ∧ ∀ j, j < i →
      occlusionQueries (queryLoop gpu i rs s).2 !! j = occlusionQueries s !! j
      ∧ occlusionResults (queryLoop gpu i rs s).2 !! j = occlusionResults s !! j.
Proof.
  revert i s. induction rs as [|r rs IH]; intros i s.
  { split; [apply queryDiscipline_idle|done]. }
  cbn [queryLoop]. destruct (occlusionQueries s !! i) as [q|] eqn:Hq.
  - rewrite (bool_decide_eq_true_2 (is_Some (Some q))) by done. rewrite Hq. cbn [andb].
    destruct (resultAvailable gpu q) eqn:Hready; cbn [negb].
    + destruct (collectResult_effect gpu i q s) as (HQ & HR & Hflag & Hnew).
      set (s2 := collectResult gpu i q s) in *.
      destruct (IH (S i) s2) as [(H1 & H2 & H3 & H4 & H5) Hframe].
      destruct (queryLoop gpu (S i) rs s2) as [started s3]. cbn [fst snd] in *.
      rewrite HQ in H1, H2, H3, H4.
      assert (Hat : occlusionQueries s3 !! i = Some q
                    ∧ occlusionResults s3 !! i
                      = Some (bool_decide (0 < queryResult gpu q))).
      { destruct (Hframe i) as [-> ->]; [lia|].
        by rewrite HQ, HR, Hq, lookup_insert_eq. }
      destruct Hat as [HatQ HatR].
      split; [split; [done|split; [|split; [|split]]]|].
      * intros st [->|Hst]%elem_of_cons.
        -- exists 0, r. cbn. split; [lia|]. split; [done|]. split; [done|].
           split; [done|by right].
        -- destruct (H2 st Hst) as (k & r' & Hk & Hr' & Hrest).
           exists (S k), r'. split; [lia|done].
      * intros j q' Hq' Hpending.
        assert (j ≠ i) by (intros ->; congruence).
        destruct (H3 j q' Hq' Hpending) as [Hsame Hnot].
        split; [by rewrite Hsame, HR, lookup_insert_ne|].
        rewrite fmap_cons. cbn. intros [?|?]%elem_of_cons; [done|by apply Hnot].
      * intros j Hchanged. destruct (decide (j = i)) as [->|Hj].
        -- exists q. split; [done|]. split; [done|]. split; [done|].
           apply H5, Hnew. intros Hold. apply Hchanged. by rewrite HatR.
        -- apply H4. by rewrite HR, lookup_insert_ne.
      * intros Hset. by apply H5, Hflag.
      * intros j Hj. destruct (Hframe j) as [-> ->]; [lia|].
        rewrite HQ, HR, lookup_insert_ne by lia. done.
    + destruct (IH (S i) s) as [Hspec Hframe].
      split; [by apply queryDiscipline_skip|]. intros j Hj. apply Hframe. lia.
  - rewrite (bool_decide_eq_false_2 (is_Some None)) by (by intros [? ?]).
    destruct (createQueryOk gpu i) eqn:Hcreate.
    + set (s1 := set_objectCount _ _).
      assert (HQ : occlusionQueries s1 = <[i := objectCount s]> (occlusionQueries s)) by done.
      rewrite HQ, lookup_insert_eq. cbn [andb].
      destruct (IH (S i) s1) as [(H1 & H2 & H3 & H4 & H5) Hframe].
      destruct (queryLoop gpu (S i) rs s1) as [started s3]. cbn [fst snd] in *.
      rewrite HQ in H1, H2, H3, H4.
      change (occlusionResults s1) with (occlusionResults s) in *.
      change (needsLabelUpdate s1) with (needsLabelUpdate s) in *.
      assert (Hat : occlusionQueries s3 !! i = Some (objectCount s)
                    ∧ occlusionResults s3 !! i = occlusionResults s !! i).
      { destruct (Hframe i) as [-> ->]; [lia|]. by rewrite HQ, lookup_insert_eq. }
      destruct Hat as [HatQ HatR].
      split; [split; [|split; [|split; [|split]]]|].
      * intros j q' Hq'. apply H1. rewrite lookup_insert_ne; [done|congruence].
      * intros st [->|Hst]%elem_of_cons.
        -- exists 0, r. cbn. split; [lia|]. split; [done|]. split; [done|].
           split; [done|by left].
        -- destruct (H2 st Hst) as (k & r' & Hk & Hr' & Hpos & Hquery & Hwhy).
           exists (S k), r'. split; [lia|]. split; [done|]. split; [done|].
           split; [done|]. destruct Hwhy as [Hnone|?]; [left|by right].
           rewrite lookup_insert_ne in Hnone by lia. done.
      * intros j q' Hq' Hpending.
        assert (j ≠ i) by (intros ->; congruence).
        destruct (H3 j q') as [Hsame Hnot]; [by rewrite lookup_insert_ne|done|].
        split; [done|].
        rewrite fmap_cons. cbn. intros [?|?]%elem_of_cons; [done|by apply Hnot].
      * intros j Hchanged.
        assert (j ≠ i) by (intros ->; by apply Hchanged).
        destruct (H4 j Hchanged) as (q' & Hq' & Hrest).
        exists q'. by rewrite lookup_insert_ne in Hq'.
      * done.
      * intros j Hj. destruct (Hframe j) as [-> ->]; [lia|].
        by rewrite HQ, lookup_insert_ne by lia.
    + rewrite Hq. destruct (IH (S i) s) as [Hspec Hframe].
      split; [by apply queryDiscipline_skip|]. intros j Hj. apply Hframe. lia.
Qed.

(** X14. [runOcclusionQueries] never disturbs a query in flight. In every call:
    a query object recorded for a region index stays recorded for it; every
    query begun is the one recorded for the index of a stored region, drawn at
    that region's position, and is either new in this call or has its result
    ready; a recorded query whose result is not ready is not begun again and
    the cached result of its index is kept; and the cached result of an index
    changes only by reading the ready result of its query, which also flags a
    label update. *)
Theorem runOcclusionQueries_respects_pending_queries (gpu : GpuFrame) (s : Model3DViewer) :
  let started := (runOcclusionQueries gpu s).1 in
  let s' := (runOcclusionQueries gpu s).2 in
  (∀ i q, occlusionQueries s !! i = Some q → occlusionQueries s' !! i = Some q)
  ∧ (∀ st, st ∈ started →
       ∃ r, savedRegions s !! qs_index st = Some r
         ∧ qs_position st = Region.position r
         ∧ occlusionQueries s' !! qs_index st = Some (qs_query st)
         ∧ (occlusionQueries s !! qs_index st = None
            ∨ resultAvailable gpu (qs_query st) = true))
  ∧ (∀ i q, occlusionQueries s !! i = Some q → resultAvailable gpu q = false →
       occlusionResults s' !! i = occlusionResults s !! i
       ∧ (i ∉ qs_index <$> started))
  ∧ (∀ i, occlusionResults s' !! i ≠ occlusionResults s !! i →
       ∃ q, occlusionQueries s !! i = Some q ∧ resultAvailable gpu q = true
         ∧ occlusionResults s' !! i = Some (bool_decide (0 < queryResult gpu q))
         ∧ needsLabelUpdate s' = true).
Proof.
  cbv zeta.
  assert (Hgoal : ∀ started s',
    queryDiscipline gpu 0 (savedRegions s) (occlusionQueries s) (occlusionResults s)
      (needsLabelUpdate s) started (occlusionQueries s') (occlusionResults s')
      (needsLabelUpdate s') →
    (∀ i q, occlusionQueries s !! i = Some q → occlusionQueries s' !! i = Some q)
    ∧ (∀ st, st ∈ started →
         ∃ r, savedRegions s !! qs_index st = Some r
           ∧ qs_position st = Region.position r
           ∧ occlusionQueries s' !! qs_index st = Some (qs_query st)
           ∧ (occlusionQueries s !! qs_index st = None
              ∨ resultAvailable gpu (qs_query st) = true))
    ∧ (∀ i q, occlusionQueries s !! i = Some q → resultAvailable gpu q = false →
         occlusionResults s' !! i = occlusionResults s !! i
         ∧ (i ∉ qs_index <$> started))
    ∧ (∀ i, occlusionResults s' !! i ≠ occlusionResults s !! i →
         ∃ q, occlusionQueries s !! i = Some q ∧ resultAvailable gpu q = true
           ∧ occlusionResults s' !! i = Some (bool_decide (0 < queryResult gpu q))
           ∧ needsLabelUpdate s' = true)).
  { intros started s' (H1 & H2 & H3 & H4 & _). split; [done|]. split; [|done].
    intros st (k & r & Hk & Hr & Hrest)%H2. exists r. cbn in Hk. subst k. done. }
  unfold runOcclusionQueries.
  destruct (_ || _ || _ || _); [apply Hgoal, queryDiscipline_idle|].
  destruct (smoothCameraMode s), (isCameraMoving s); cbn [negb];
    try (apply Hgoal, queryDiscipline_idle).
  - apply Hgoal. apply (queryLoop_discipline gpu 0 (savedRegions s) s).
  - case_bool_decide; [apply Hgoal, queryDiscipline_idle|].
    apply Hgoal.
    apply (queryLoop_discipline gpu 0 (savedRegions s)
             (set_occlusionFrameCounter 0
                (set_occlusionFrameCounter (S (occlusionFrameCounter s)) s))).
Qed.

(** ** Further evaluations *)

Lemma setShapeSizePercent_clamps_to_1_300_witness :
  shapeSizePercent (setShapeSizePercent 500 previewViewer) = 300%float
  ∧ shapeSizePercent (setShapeSizePercent 0.5 previewViewer) = 1%float
  ∧ shapeSizePercent (setShapeSizePercent 42 previewViewer) = 42%float.
Proof.
  split; [|split].
  - apply (setShapeSizePercent_clamps_to_1_300 500 previewViewer); reflexivity.
  - apply (setShapeSizePercent_clamps_to_1_300 0.5 previewViewer); reflexivity.
  - apply (setShapeSizePercent_clamps_to_1_300 42 previewViewer); reflexivity.
Defined.


Lemma setSmoothCameraMode_restarts_schedule_witness :
  needsLabelUpdate (setSmoothCameraMode true labelStore) = true
  ∧ ∀ gpu, runOcclusionQueries gpu (setSmoothCameraMode true labelStore)
           = queryLoop gpu 0 (savedRegions labelStore) (setSmoothCameraMode true labelStore).
Proof.
  destruct (proj1 (proj2 (setSmoothCameraMode_restarts_schedule labelStore)) eq_refl)
    as [Hflag Hrun].
  split; [exact Hflag|]. apply Hrun; [reflexivity|reflexivity|by eexists|discriminate].
Defined.

(** A GPU on which every result is still pending. *)
Definition pendingGpu : GpuFrame :=
  {| createQueryOk := fun _ => true; resultAvailable := fun _ => false;
     queryResult := fun _ => 0 |}.

Lemma runOcclusionQueries_respects_pending_queries_witness :
  occlusionResults (runOcclusionQueries pendingGpu (set_smoothCameraMode true decalStore)).2
    !! 0
  = occlusionResults (set_smoothCameraMode true decalStore) !! 0
  ∧ (0 ∉ qs_index
           <$> (runOcclusionQueries pendingGpu (set_smoothCameraMode true decalStore)).1).
Proof.
  apply (proj1 (proj2 (proj2 (runOcclusionQueries_respects_pending_queries pendingGpu
                                (set_smoothCameraMode true decalStore)))) 0 7);
    reflexivity.
Defined.
